(** * GridWorld: the per-step transition, conflict resolution, reward and
      battery engine of [gridworld.py]

    A shallow embedding of [GridworldAgent] and of the methods
    [GridWorld.trans_function], [GridWorld._reward_agent], [GridWorld.step]
    and the tail of [GridWorld.reset], followed by the properties of the
    step engine.  The embedding goes on with the observations
    ([gen_obs], [_gen_obs_agent], [grid2tensor]), the whole of [reset] with
    [_gen_grid], [Grid.get] and [Grid.set], [read_reward_config] and
    [greedy_det_policy], each with its properties.

    Conventions of the embedding:
    - Python integers are [Z]; positions are pairs [(n, m)] of a row and a
      column.
    - Python lists ([self.agents], [moves], [old_pos], [illegals], [done])
      and the numpy vector [rewards] are Rocq lists read with [!!] and
      written with [<[i:=x]>].
    - [for i in range(k)] is [for_range_exn k]: a body can raise (an index
      out of range), and the loop then stops running bodies but keeps the
      state reached so far, as Python mutates [self] in place.
    - [while any(illegals)] is [solve_conflicts], which runs a given number
      of passes at most; [step] gives it as many passes as there are agents,
      and [step_total] shows that this is always enough.
    - reward values are floats that are only ever copied, never computed
      with; they are rationals here.
    - [self.np_random] is a stream of noise samples and the number of
      samples drawn so far; one call of [choice] takes the next sample. *)

From Stdlib Require Import ZArith QArith Lia.
From stdpp Require Import base numbers list strings.

Local Open Scope Z_scope.

(** ** Exceptions and results *)

Inductive exn : Type :=
  | AssertionError
  | IndexError
  | UnknownAction.   (* class GridWorld.UnknownAction(Exception) *)

Inductive result (A : Type) : Type :=
  | Ok (a : A)
  | Raise (e : exn).
Arguments Ok {A} a.
Arguments Raise {A} e.

(** ** Enumerations *)

Module LegalActions.
Definition left : Z := 0.
Definition right : Z := 1.
Definition up : Z := 2.
Definition down : Z := 3.
End LegalActions.

Module GridLegend.
Definition OBSTACLE : Z := 1.
Definition GCS : Z := 2.
Definition AGENT : Z := 3.
Definition GOAL : Z := 4.
End GridLegend.

(** ** Agents *)

Definition position : Type := Z * Z.

Record GridworldAgent : Type := mkAgent {
  agent_id : nat;
  init_pos : position;
  pos : position;
  init_goal : position;
  goal : position;
  battery : Z;
  done : bool }.

Definition BATTERY : Z := 150.

Definition set_pos (a : GridworldAgent) (p : position) : GridworldAgent :=
  mkAgent (agent_id a) (init_pos a) p (init_goal a) (goal a) (battery a) (done a).

Definition set_battery (a : GridworldAgent) (b : Z) : GridworldAgent :=
  mkAgent (agent_id a) (init_pos a) (pos a) (init_goal a) (goal a) b (done a).

Definition set_done (a : GridworldAgent) (d : bool) : GridworldAgent :=
  mkAgent (agent_id a) (init_pos a) (pos a) (init_goal a) (goal a) (battery a) d.

(** ** The grid, the wind and the random stream *)

(** A two-dimensional numpy array: its shape and its cells.  [item n m] is
    read only for [0 <= n < shape0] and [0 <= m < shape1]. *)
Record ndarray2 : Type := mkGrid {
  shape0 : Z;
  shape1 : Z;
  item : Z -> Z -> Z }.

(** numpy index normalisation along one axis of length [len]: a negative
    index counts from the end, anything outside [-len, len) is an
    [IndexError]. *)
Definition np_index (len i : Z) : option Z :=
  if bool_decide (0 <= i < len) then Some i
  else if bool_decide (- len <= i < 0) then Some (i + len)
  else None.

(** [arr[i]] for a one-dimensional array. *)
Definition np_getitem (arr : list Z) (i : Z) : result Z :=
  match np_index (Z.of_nat (length arr)) i with
  | Some k =>
      match arr !! Z.to_nat k with
      | Some x => Ok x
      | None => Raise IndexError
      end
  | None => Raise IndexError
  end.

(** [grid[p]] for a position tuple [p]. *)
Definition grid_getitem (g : ndarray2) (p : position) : result Z :=
  match np_index (shape0 g) p.1, np_index (shape1 g) p.2 with
  | Some n, Some m => Ok (item g n m)
  | _, _ => Raise IndexError
  end.

Record RandomState : Type := mkRandom {
  stream : nat -> Z;
  drawn : nat }.

(** [self.np_random.choice(self.w_range, p=self.probabilities)] *)
Definition choice (rs : RandomState) : Z * RandomState :=
  (stream rs (drawn rs), mkRandom (stream rs) (S (drawn rs))).

(** ** Rewards *)

Record RewardTable : Type := mkRewards {
  free : Q;
  obstacles : Q;
  goal_reward : Q;        (* self.rewards["goal"] *)
  out_of_bounds : Q;
  battery_depleted : Q }.

Definition default_rewards : RewardTable :=
  mkRewards (Qmake (-4) 100) (Qmake (-75) 100) (Qmake 10 1)
            (Qmake (-8) 10) (Qmake (-10) 1).

(** ** The environment *)

Record GridWorld : Type := mkWorld {
  agents : list GridworldAgent;
  grid : ndarray2;
  col_wind : list Z;
  np_random : RandomState;
  step_count : Z;
  max_steps : Z;
  rewards : RewardTable }.

Definition set_agents (self : GridWorld) (ags : list GridworldAgent) : GridWorld :=
  mkWorld ags (grid self) (col_wind self) (np_random self)
          (step_count self) (max_steps self) (rewards self).

Definition set_np_random (self : GridWorld) (rs : RandomState) : GridWorld :=
  mkWorld (agents self) (grid self) (col_wind self) rs
          (step_count self) (max_steps self) (rewards self).

Definition set_step_count (self : GridWorld) (c : Z) : GridWorld :=
  mkWorld (agents self) (grid self) (col_wind self) (np_random self)
          c (max_steps self) (rewards self).

Definition set_max_steps (self : GridWorld) (c : Z) : GridWorld :=
  mkWorld (agents self) (grid self) (col_wind self) (np_random self)
          (step_count self) c (rewards self).

(** ** Loops *)

Definition for_range_exn {S : Type} (k : nat)
    (body : nat -> S -> S * option exn) (s : S) : S * option exn :=
  foldl (fun acc i =>
           match acc.2 with
           | None => body i acc.1
           | Some _ => acc
           end) (s, None) (seq 0 k).

(** ** [GridWorld.trans_function] *)

Definition trans_function (self : GridWorld) (state : position)
    (action noise : Z) : result position :=
  let '(n, m) := state in
  match np_getitem (col_wind self) n with
  | Raise e => Raise e
  | Ok w =>
      let wind := if bool_decide (w ≠ 0) then w + noise else 0 in
      if bool_decide (action = LegalActions.up) then Ok (n - 1, m + wind)
      else if bool_decide (action = LegalActions.down) then Ok (n + 1, m + wind)
      else if bool_decide (action = LegalActions.left) then Ok (n, m - 1 + wind)
      else if bool_decide (action = LegalActions.right) then Ok (n, m + 1 + wind)
      else Ok (n, m)
  end.

(** ** [GridWorld._reward_agent] *)

(** [[self.agents[j].pos for j in range(len(self.agents)) if j != i]] *)
Definition other_positions (ags : list GridworldAgent) (i : nat) : list position :=
  omap (fun j => if bool_decide (j ≠ i) then pos <$> ags !! j else None)
       (seq 0 (length ags)).

Definition in_bounds (g : ndarray2) (p : position) : bool :=
  bool_decide (0 <= p.1 < shape0 g) && bool_decide (0 <= p.2 < shape1 g).

(** The body of [_reward_agent] once [agent = self.agents[i]] is read. *)
Definition reward_of (g : ndarray2) (rw : RewardTable)
    (ags : list GridworldAgent) (i : nat) (agent : GridworldAgent)
    : Q * bool * bool :=
  let '(n, m) := pos agent in
  let '(reward, illegal, dn) :=
    if negb (in_bounds g (n, m)) then (out_of_bounds rw, true, false)
    else if bool_decide (item g n m = GridLegend.OBSTACLE)
            || bool_decide ((n, m) ∈ other_positions ags i)
         then (obstacles rw, true, false)
    else if bool_decide ((n, m) = goal agent) then (goal_reward rw, false, true)
    else (free rw, false, false) in
  if bool_decide (battery agent <= 0) then (battery_depleted rw, illegal, true)
  else (reward, illegal, dn).

Definition _reward_agent (g : ndarray2) (rw : RewardTable)
    (ags : list GridworldAgent) (i : nat) : result (Q * bool * bool) :=
  match ags !! i with
  | Some agent => Ok (reward_of g rw ags i agent)
  | None => Raise IndexError
  end.

(** ** [GridWorld.step] *)

(** [l[i] = x]: assignment into a list raises when [i] is out of range. *)
Definition setitem {A : Type} (l : list A) (i : nat) (x : A) : option (list A) :=
  if bool_decide (i < length l)%nat then Some (<[i:=x]> l) else None.

(** The mutable data of one call of [step]: [self.agents] and the local
    arrays [rewards], [illegals] and [done]. *)
Record locals : Type := mkLocals {
  l_agents : list GridworldAgent;
  l_rewards : list Q;
  l_illegals : list bool;
  l_done : list bool }.

(** First loop: draw the noise and compute the move of every agent that is
    not done.  State: [moves] and [self.np_random]. *)
Definition gen_moves_body (self : GridWorld) (actions : list Z) (i : nat)
    (s : list position * RandomState)
    : (list position * RandomState) * option exn :=
  match agents self !! i with
  | None => (s, Some IndexError)
  | Some agent =>
      if done agent then (s, None)
      else
        match actions !! i with
        | None => (s, Some IndexError)
        | Some action =>
            let '(noise, rs) := choice s.2 in
            match trans_function self (pos agent) action noise with
            | Raise e => ((s.1, rs), Some e)
            | Ok mv =>
                match setitem s.1 i mv with
                | None => ((s.1, rs), Some IndexError)
                | Some moves => ((moves, rs), None)
                end
            end
        end
  end.

Definition gen_moves (self : GridWorld) (actions : list Z)
    : (list position * RandomState) * option exn :=
  for_range_exn (length (agents self)) (gen_moves_body self actions)
                (pos <$> agents self, np_random self).

(** Second loop: apply the moves (even if illegal) and drain the battery. *)
Definition apply_moves_body (moves : list position) (i : nat)
    (ags : list GridworldAgent) : list GridworldAgent * option exn :=
  match ags !! i with
  | None => (ags, Some IndexError)
  | Some a =>
      if done a then (ags, None)
      else
        match moves !! i with
        | None => (ags, Some IndexError)
        | Some mv =>
            let a1 := set_pos a mv in
            (<[i := set_battery a1 (battery a1 - 10)]> ags, None)
        end
  end.

Definition apply_moves (moves : list position) (ags : list GridworldAgent)
    : list GridworldAgent * option exn :=
  for_range_exn (length ags) (apply_moves_body moves) ags.

(** [rewards[i], illegals[i], done[i] = self._reward_agent(i)] *)
Definition assign_reward (g : ndarray2) (rw : RewardTable) (i : nat)
    (s : locals) : locals * option exn :=
  match _reward_agent g rw (l_agents s) i with
  | Raise e => (s, Some e)
  | Ok (r, ill, d) =>
      match setitem (l_rewards s) i r with
      | None => (s, Some IndexError)
      | Some rs =>
          let s1 := mkLocals (l_agents s) rs (l_illegals s) (l_done s) in
          match setitem (l_illegals s1) i ill with
          | None => (s1, Some IndexError)
          | Some ils =>
              let s2 := mkLocals (l_agents s1) (l_rewards s1) ils (l_done s1) in
              match setitem (l_done s2) i d with
              | None => (s2, Some IndexError)
              | Some ds =>
                  (mkLocals (l_agents s2) (l_rewards s2) (l_illegals s2) ds, None)
              end
          end
      end
  end.

(** Third loop: the first evaluation of every agent that is not done. *)
Definition first_eval_body (g : ndarray2) (rw : RewardTable) (i : nat)
    (s : locals) : locals * option exn :=
  match l_agents s !! i with
  | None => (s, Some IndexError)
  | Some a => if done a then (s, None) else assign_reward g rw i s
  end.

Definition first_eval (g : ndarray2) (rw : RewardTable) (s : locals)
    : locals * option exn :=
  for_range_exn (length (l_agents s)) (first_eval_body g rw) s.

(** The conflict loop, first half: cancel the moves flagged illegal. *)
Definition cancel_body (old_pos : list position) (i : nat) (s : locals)
    : locals * option exn :=
  match l_illegals s !! i with
  | None => (s, Some IndexError)
  | Some false => (s, None)
  | Some true =>
      match old_pos !! i with
      | None => (s, Some IndexError)
      | Some p =>
          match l_agents s !! i with
          | None => (s, Some IndexError)
          | Some a =>
              (mkLocals (<[i := set_pos a p]> (l_agents s)) (l_rewards s)
                        (<[i := false]> (l_illegals s)) (l_done s), None)
          end
      end
  end.

(** The conflict loop, second half: evaluate again the agents that are not
    done and not on their old position. *)
Definition reeval_body (g : ndarray2) (rw : RewardTable)
    (old_pos : list position) (i : nat) (s : locals) : locals * option exn :=
  match l_agents s !! i with
  | None => (s, Some IndexError)
  | Some a =>
      if done a then (s, None)
      else
        match old_pos !! i with
        | None => (s, Some IndexError)
        | Some p =>
            if bool_decide (pos a = p) then (s, None)
            else assign_reward g rw i s
        end
  end.

(** One pass of the body of [while any(illegals)]. *)
Definition conflict_pass (g : ndarray2) (rw : RewardTable)
    (old_pos : list position) (s : locals) : locals * option exn :=
  let k := length (l_agents s) in
  match for_range_exn k (cancel_body old_pos) s with
  | (s1, Some e) => (s1, Some e)
  | (s1, None) => for_range_exn k (reeval_body g rw old_pos) s1
  end.

(** [any(illegals)] *)
Definition any (l : list bool) : bool := existsb (fun b => b) l.

(** [while any(illegals): ...] run for at most [fuel] passes; [None] when
    the fuel does not suffice. *)
Fixpoint solve_conflicts (fuel : nat) (g : ndarray2) (rw : RewardTable)
    (old_pos : list position) (s : locals) : option (locals * option exn) :=
  if any (l_illegals s) then
    match fuel with
    | O => None
    | S fuel' =>
        match conflict_pass g rw old_pos s with
        | (s1, Some e) => Some (s1, Some e)
        | (s1, None) => solve_conflicts fuel' g rw old_pos s1
        end
    end
  else Some (s, None).

(** Last loop: charge on a ground charging station, then store [done]. *)
Definition finish_body (g : ndarray2) (dn : list bool) (i : nat)
    (ags : list GridworldAgent) : list GridworldAgent * option exn :=
  match ags !! i with
  | None => (ags, Some IndexError)
  | Some a =>
      if done a then (ags, None)
      else
        match grid_getitem g (pos a) with
        | Raise e => (ags, Some e)
        | Ok c =>
            let a1 := if bool_decide (c = GridLegend.GCS)
                      then set_battery a BATTERY else a in
            match dn !! i with
            | None => (<[i := a1]> ags, Some IndexError)
            | Some d => (<[i := set_done a1 d]> ags, None)
            end
        end
  end.

Definition finish (g : ndarray2) (dn : list bool) (ags : list GridworldAgent)
    : list GridworldAgent * option exn :=
  for_range_exn (length ags) (finish_body g dn) ags.

(** [step] with the conflict loop bounded by [fuel].  The result is the
    environment after the call together with either the returned
    [(rewards, done)] or the exception raised; [None] only when the conflict
    loop needs more than [fuel] passes.  The observation tensors returned by
    [gen_obs] are a function of the environment after the call and are left
    to the encoder. *)
Definition step_fuel (fuel : nat) (self : GridWorld) (actions : list Z)
    : option (GridWorld * result (list Q * list bool)) :=
  let self := set_step_count self (step_count self + 1) in
  if negb (bool_decide (length actions = length (agents self)))
  then Some (self, Raise AssertionError)
  else
    let rewards0 := replicate (length actions) (Qmake 0 1) in
    match gen_moves self actions with
    | ((_, rs), Some e) => Some (set_np_random self rs, Raise e)
    | ((moves, rs), None) =>
        let self := set_np_random self rs in
        let old_pos := pos <$> agents self in
        match apply_moves moves (agents self) with
        | (ags, Some e) => Some (set_agents self ags, Raise e)
        | (ags, None) =>
            let s0 := mkLocals ags rewards0 ((fun _ => false) <$> ags)
                               (done <$> ags) in
            match first_eval (grid self) (rewards self) s0 with
            | (s1, Some e) => Some (set_agents self (l_agents s1), Raise e)
            | (s1, None) =>
                match solve_conflicts fuel (grid self) (rewards self) old_pos s1 with
                | None => None
                | Some (s2, Some e) =>
                    Some (set_agents self (l_agents s2), Raise e)
                | Some (s2, None) =>
                    match finish (grid self) (l_done s2) (l_agents s2) with
                    | (ags', Some e) => Some (set_agents self ags', Raise e)
                    | (ags', None) =>
                        Some (set_agents self ags',
                              Ok (l_rewards s2, done <$> ags'))
                    end
                end
            end
        end
    end.

(** [step]: as many passes as there are agents always suffice (see
    [step_total]). *)
Definition step (self : GridWorld) (actions : list Z)
    : option (GridWorld * result (list Q * list bool)) :=
  step_fuel (length (agents self)) self actions.

(** ** The tail of [GridWorld.reset]

    The grid and the start and goal cells come from the generators; [reset]
    then stores them and re-initialises every agent. *)
Definition reset_agent (a : GridworldAgent) : GridworldAgent :=
  mkAgent (agent_id a) (init_pos a) (init_pos a) (init_goal a) (init_goal a)
          BATTERY false.

Definition set_init (a : GridworldAgent) (sg : position * position)
    : GridworldAgent :=
  mkAgent (agent_id a) sg.1 (pos a) sg.2 (goal a) (battery a) (done a).

(** [new_grid] is the generated grid when [reset_grid] is set, [starts_goals]
    the generated start and goal of every agent when [reset_starts_goals] is
    set. *)
Definition reset (self : GridWorld) (new_grid : option ndarray2)
    (starts_goals : option (list (position * position))) : GridWorld :=
  let g := match new_grid with Some g => g | None => grid self end in
  let ags :=
    match starts_goals with
    | Some sgs => zip_with set_init (agents self) sgs
    | None => agents self
    end in
  mkWorld (reset_agent <$> ags) g (col_wind self) (np_random self)
          (step_count self) (max_steps self) (rewards self).

(** ** Example worlds

    A 5 x 5 grid without obstacles, no wind, and a random stream that always
    yields 0. *)

Definition empty_grid : ndarray2 := mkGrid 5 5 (fun _ _ => 0).

(** The same grid with a charging station on cell (0, 1). *)
Definition station_grid : ndarray2 :=
  mkGrid 5 5 (fun n m => if (n =? 0) && (m =? 1) then GridLegend.GCS else 0).

Definition calm : list Z := [0; 0; 0; 0; 0].

Definition no_noise (k : nat) : RandomState := mkRandom (fun _ => 0) k.

(** An agent of the given index on cell [p], with goal (4, 4). *)
Definition agent_at (i : nat) (p : position) (b : Z) (d : bool)
    : GridworldAgent :=
  mkAgent i p p (4, 4) (4, 4) b d.

Definition world (g : ndarray2) (ags : list GridworldAgent) (k : nat) (c : Z)
    : GridWorld :=
  mkWorld ags g calm (no_noise k) c 100 default_rewards.

(** Two neighbours on the first row. *)
Definition two_neighbours : GridWorld :=
  world empty_grid [agent_at 0 (0, 0) 150 false; agent_at 1 (0, 1) 150 false]
        0 0.

(** The two neighbours after each has moved onto the other's cell. *)
Definition two_neighbours_swapped : GridWorld :=
  world empty_grid
        [mkAgent 0 (0, 0) (0, 1) (4, 4) (4, 4) 140 false;
         mkAgent 1 (0, 1) (0, 0) (4, 4) (4, 4) 140 false]
        2 1.

(** An agent next to an agent that is done. *)
Definition beside_done : GridWorld :=
  world empty_grid [agent_at 0 (0, 0) 150 false; agent_at 1 (0, 1) 150 true]
        0 0.

(** An agent on its last 10 units of battery next to the charging station. *)
Definition last_units : GridWorld :=
  world station_grid [agent_at 0 (0, 0) 10 false] 0 0.

(** The locals of a step in which two agents have both moved onto cell
    (0, 1), from (0, 0) and from (0, 2), and have both been flagged. *)
Definition head_on : locals :=
  mkLocals [agent_at 0 (0, 1) 140 false; agent_at 1 (0, 1) 140 false]
           [obstacles default_rewards; obstacles default_rewards]
           [true; true] [false; false].

(** The old positions of the two agents of [head_on]. *)
Definition head_on_old : list position := [(0, 0); (0, 2)].

(** An episode: the calls of [step] that follow one another as long as each
    returns. *)
Fixpoint run (self : GridWorld) (episode : list (list Z)) : option GridWorld :=
  match episode with
  | [] => Some self
  | actions :: rest =>
      match step self actions with
      | Some (self', Ok _) => run self' rest
      | _ => None
      end
  end.

(** One agent going right and left on the third row, and the same agent
    fourteen steps later. *)
Definition patrol : GridWorld :=
  world station_grid [agent_at 0 (2, 0) 150 false] 0 0.

Definition back_and_forth : list (list Z) :=
  [[1]; [0]; [1]; [0]; [1]; [0]; [1]; [0]; [1]; [0]; [1]; [0]; [1]; [0]].

Definition patrol_tired : GridWorld :=
  world station_grid [agent_at 0 (2, 0) 10 false] 14 14.

(** ** Vocabulary of the properties *)

(** What the local arrays hold for agent [i]. *)
Definition slot (s : locals) (i : nat) : option Q * option bool * option bool :=
  (l_rewards s !! i, l_illegals s !! i, l_done s !! i).

(** The arrays hold, for agent [i], the result of [_reward_agent(i)] computed
    on the roster [ags]. *)
Definition evaluated (g : ndarray2) (rw : RewardTable)
    (ags : list GridworldAgent) (i : nat) (a : GridworldAgent)
    (sl : option Q * option bool * option bool) : Prop :=
  sl = (Some (reward_of g rw ags i a).1.1,
        Some (reward_of g rw ags i a).1.2,
        Some (reward_of g rw ags i a).2).

(** The agents the second half of a pass does not evaluate again. *)
Definition skipped (old_pos : list position) (i : nat) (a : GridworldAgent)
    : bool :=
  done a || bool_decide (old_pos !! i = Some (pos a)).

(** The agents of a roster that are not done. *)
Definition active (ags : list GridworldAgent) : list GridworldAgent :=
  filter (fun a => done a = false) ags.

(** What [step] makes of an agent that is not done before the conflict
    loop: moved to [mv], battery drained by 10. *)
Definition moved (a : GridworldAgent) (mv : position) : GridworldAgent :=
  set_battery (set_pos a mv) (battery (set_pos a mv) - 10).

(** The invariant of the conflict loop of a call of [step] on the roster
    [ags0] with the proposed moves [moves]. *)
Record step_inv (g : ndarray2) (rw : RewardTable)
    (ags0 : list GridworldAgent) (moves : list position) (s : locals)
    : Prop := mkStepInv {
  inv_length : length (l_agents s) = length ags0;
  inv_length_illegals : length (l_illegals s) = length ags0;
  inv_done : forall i a0, ags0 !! i = Some a0 -> done a0 = true ->
    l_agents s !! i = Some a0 /\ l_illegals s !! i = Some false;
  inv_active : forall i a0, ags0 !! i = Some a0 -> done a0 = false ->
    exists mv p, moves !! i = Some mv /\
      l_agents s !! i = Some (set_pos (moved a0 mv) p) /\
      (p = pos a0 \/ p = mv);
  inv_eval : forall i a0 a, ags0 !! i = Some a0 -> done a0 = false ->
    l_agents s !! i = Some a -> pos a ≠ pos a0 ->
    evaluated g rw (l_agents s) i a (slot s i);
  inv_depleted : forall i a0, ags0 !! i = Some a0 -> done a0 = false ->
    battery a0 - 10 <= 0 ->
    l_rewards s !! i = Some (battery_depleted rw) /\
    l_done s !! i = Some true }.

(** The agents the next pass of the conflict loop can still flag: not done,
    away from their old position and not flagged at the moment. *)
Definition eligible (old_pos : list position) (s : locals) (i : nat) : bool :=
  match l_agents s !! i, l_illegals s !! i with
  | Some a, Some b => negb (skipped old_pos i a) && negb b
  | _, _ => false
  end.

Definition eligible_set (old_pos : list position) (s : locals) : list nat :=
  filter (fun i => eligible old_pos s i = true) (seq 0 (length (l_agents s))).

(** No two agents of the roster that are not done stand on the same cell. *)
Definition apart (ags : list GridworldAgent) : Prop :=
  forall i j a b, i ≠ j -> ags !! i = Some a -> ags !! j = Some b ->
    done a = false -> done b = false -> pos a ≠ pos b.

(** The battery levels the engine produces: a multiple of the drain between
    0 and [BATTERY], and positive as long as the agent is not done. *)
Definition battery_ok (a : GridworldAgent) : Prop :=
  0 <= battery a <= BATTERY /\ (10 | battery a) /\
  (done a = false -> 0 < battery a).

(** The environments an episode goes through: [reset], then calls of [step]
    that return. *)
Inductive reachable : GridWorld -> Prop :=
  | reach_reset self new_grid starts_goals :
      reachable (reset self new_grid starts_goals)
  | reach_step self actions self' out :
      reachable self ->
      step self actions = Some (self', Ok out) ->
      reachable self'.

(** An upper bound on the number of passes still to run. *)
Definition passes_bound (old_pos : list position) (s : locals) : nat :=
  if any (l_illegals s) then S (length (eligible_set old_pos s)) else O.

(** The agents that were done in [ags0] are as they were and are not
    flagged. *)
Definition frozen (ags0 : list GridworldAgent) (s : locals) : Prop :=
  forall i a, ags0 !! i = Some a -> done a = true ->
    l_agents s !! i = Some a /\ l_illegals s !! i = Some false.

(** Agents [i] and [j], neither done, each propose the cell the other one
    stands on. *)
Definition swap_proposed (ags0 : list GridworldAgent)
    (moves : list position) (i j : nat) (a b : GridworldAgent) : Prop :=
  i ≠ j /\ ags0 !! i = Some a /\ ags0 !! j = Some b /\
  done a = false /\ done b = false /\ pos a ≠ pos b /\
  moves !! i = Some (pos b) /\ moves !! j = Some (pos a).

(** Nothing else stands in the way of the two moves: both cells are cells of
    the grid without an obstacle, and no third agent stands on, or proposes,
    either of them. *)
Definition swap_unobstructed (g : ndarray2) (ags0 : list GridworldAgent)
    (moves : list position) (i j : nat) (a b : GridworldAgent) : Prop :=
  in_bounds g (pos a) = true /\ in_bounds g (pos b) = true /\
  item g (pos a).1 (pos a).2 ≠ GridLegend.OBSTACLE /\
  item g (pos b).1 (pos b).2 ≠ GridLegend.OBSTACLE /\
  forall k c, k ≠ i -> k ≠ j -> ags0 !! k = Some c ->
    pos c ≠ pos a /\ pos c ≠ pos b /\
    forall mv, moves !! k = Some mv -> mv ≠ pos a /\ mv ≠ pos b.

(** In the conflict loop, [i] stands on the old cell of [j], [j] on the old
    cell of [i], and neither is flagged. *)
Definition swapped (s : locals) (i j : nat) (a b : GridworldAgent) : Prop :=
  (exists x, l_agents s !! i = Some x /\ pos x = pos b) /\
  (exists y, l_agents s !! j = Some y /\ pos y = pos a) /\
  l_illegals s !! i = Some false /\ l_illegals s !! j = Some false.

(** ** [GridWorld.gen_obs], [GridWorld._gen_obs_agent] and
       [GridWorld.grid2tensor]

    The observation of an agent with [partial_obs = False], the default (the
    other branch is marked as broken in the source).  The tensor that is
    returned holds one plane per key of [GridLegend], in the order of the
    enumeration; it is the list of these planes here. *)

(** [for key in self.GridLegend] *)
Definition legend : list Z :=
  [GridLegend.OBSTACLE; GridLegend.GCS; GridLegend.AGENT; GridLegend.GOAL].

(** [key_grid = np.zeros(canvas.shape); key_grid[np.where(canvas == key)] = 1] *)
Definition key_plane (canvas : ndarray2) (key : Z) : ndarray2 :=
  mkGrid (shape0 canvas) (shape1 canvas)
         (fun n m => if bool_decide (item canvas n m = key) then 1 else 0).

(** [arr[p] = v] for a position tuple [p]. *)
Definition ndarray_setitem (arr : ndarray2) (p : position) (v : Z)
    : result ndarray2 :=
  match np_index (shape0 arr) p.1, np_index (shape1 arr) p.2 with
  | Some n, Some m =>
      Ok (mkGrid (shape0 arr) (shape1 arr)
                 (fun n' m' =>
                    if bool_decide (n' = n /\ m' = m) then v
                    else item arr n' m'))
  | _, _ => Raise IndexError
  end.

(** A list built by a loop whose body can raise. *)
Fixpoint collect {A B : Type} (f : A -> result B) (l : list A)
    : result (list B) :=
  match l with
  | [] => Ok []
  | x :: rest =>
      match f x with
      | Raise e => Raise e
      | Ok y =>
          match collect f rest with
          | Raise e => Raise e
          | Ok ys => Ok (y :: ys)
          end
      end
  end.

(** The body of the loop over the keys. *)
Definition obs_plane (self : GridWorld) (agent : GridworldAgent) (key : Z)
    : result ndarray2 :=
  let key_grid := key_plane (grid self) key in
  if bool_decide (key = GridLegend.AGENT)
  then ndarray_setitem key_grid (pos agent) (battery agent)
  else if bool_decide (key = GridLegend.GOAL)
  then ndarray_setitem key_grid (goal agent) 1
  else Ok key_grid.

Definition _gen_obs_agent (self : GridWorld) (agent : GridworldAgent)
    : result (list ndarray2) :=
  collect (obs_plane self agent) legend.

Definition gen_obs (self : GridWorld) : result (list (list ndarray2)) :=
  collect (_gen_obs_agent self) (agents self).

Definition grid2tensor (g : ndarray2) : list ndarray2 :=
  key_plane g <$> legend.

(** A position that indexes the grid, counting from the end when negative. *)
Definition valid_index (g : ndarray2) (p : position) : Prop :=
  is_Some (np_index (shape0 g) p.1) /\ is_Some (np_index (shape1 g) p.2).

(** The cells of a plane. *)
Definition in_range (g : ndarray2) (n m : Z) : Prop :=
  0 <= n < shape0 g /\ 0 <= m < shape1 g.

(** ** [GridWorld.reset] with its generators

    [reset(reset_starts_goals, radius, reset_grid)] draws a cell for the
    charging station with [random.randrange] until the cell is accepted, and
    asks [random_starts_goals] for the starts and goals of the agents until
    they are accepted.  The successive draws are arguments here: [gcs_draws]
    for the station, [placements] for the pairs [(starts, goals)].  [radius]
    is passed on to [_gen_starts_goals_positions], which does not use it.
    [self.gcs] is not a field of the record above and is threaded beside
    it, as a cell: the value [reset] stores when it regenerates the grid. *)

(** [GridWorld._gen_grid]: [np.zeros(self.grid.shape)] *)
Definition _gen_grid (self : GridWorld) : ndarray2 :=
  mkGrid (shape0 (grid self)) (shape1 (grid self)) (fun _ _ => 0).

(** [abs(p[0] - q[0]) + abs(p[1] - q[1])] *)
Definition manhattan (p q : position) : Z :=
  Z.abs (p.1 - q.1) + Z.abs (p.2 - q.2).

(** The truth value of a cell. *)
Definition truthy (c : Z) : bool := bool_decide (c ≠ 0).

(** [any(f(x) for x in l)]: stops at the first true value, or at the first
    exception. *)
Fixpoint any_of {A : Type} (f : A -> result bool) (l : list A) : result bool :=
  match l with
  | [] => Ok false
  | x :: rest =>
      match f x with
      | Raise e => Raise e
      | Ok true => Ok true
      | Ok false => any_of f rest
      end
  end.

(** [x = draw(); while rejected(x): x = draw()] over the successive draws;
    [None] when every draw given is rejected. *)
Fixpoint first_accepted {A : Type} (rejected : A -> result bool)
    (draws : list A) : option (result A) :=
  match draws with
  | [] => None
  | x :: rest =>
      match rejected x with
      | Raise e => Some (Raise e)
      | Ok true => first_accepted rejected rest
      | Ok false => Some (Ok x)
      end
  end.

(** [_grid[agent.init_pos] or _grid[agent.init_goal]
     or abs(gcs[0] - agent.init_pos[0]) + abs(gcs[1] - agent.init_pos[1]) > 10
     or abs(gcs[0] - agent.init_goal[0]) + abs(gcs[1] - agent.init_goal[1]) > 10] *)
Definition agent_off (_grid : ndarray2) (gcs : position)
    (agent : GridworldAgent) : result bool :=
  match grid_getitem _grid (init_pos agent) with
  | Raise e => Raise e
  | Ok c1 =>
      if truthy c1 then Ok true
      else
        match grid_getitem _grid (init_goal agent) with
        | Raise e => Raise e
        | Ok c2 =>
            Ok (truthy c2
                || bool_decide (10 < manhattan gcs (init_pos agent))
                || bool_decide (10 < manhattan gcs (init_goal agent)))
        end
  end.

(** The condition of the first [while] of [reset]. *)
Definition gcs_rejected (self : GridWorld) (reset_starts_goals : bool)
    (gcs : position) : result bool :=
  match grid_getitem (_gen_grid self) gcs with
  | Raise e => Raise e
  | Ok c =>
      if truthy c then Ok true
      else if reset_starts_goals then Ok false
      else any_of (agent_off (_gen_grid self) gcs) (agents self)
  end.

(** [self.grid[p] or abs(self.gcs[0] - p[0]) + abs(self.gcs[1] - p[1]) > 10] *)
Definition cell_off (g : ndarray2) (gcs p : position) : result bool :=
  match grid_getitem g p with
  | Raise e => Raise e
  | Ok c => Ok (truthy c || bool_decide (10 < manhattan gcs p))
  end.

(** The condition of the second [while] of [reset]. *)
Definition placement_rejected (g : ndarray2) (gcs : position)
    (sg : list position * list position) : result bool :=
  match any_of (cell_off g gcs) sg.1 with
  | Raise e => Raise e
  | Ok true => Ok true
  | Ok false => any_of (cell_off g gcs) sg.2
  end.

(** [agent.init_pos = starts[i]; agent.init_goal = goals[i]] *)
Definition assign_body (starts goals : list position) (i : nat)
    (ags : list GridworldAgent) : list GridworldAgent * option exn :=
  match ags !! i with
  | None => (ags, Some IndexError)
  | Some agent =>
      match starts !! i with
      | None => (ags, Some IndexError)
      | Some st =>
          let a1 := set_init agent (st, init_goal agent) in
          match goals !! i with
          | None => (<[i := a1]> ags, Some IndexError)
          | Some gl => (<[i := set_init a1 (st, gl)]> ags, None)
          end
      end
  end.

Definition set_grid (self : GridWorld) (g : ndarray2) : GridWorld :=
  mkWorld (agents self) g (col_wind self) (np_random self)
          (step_count self) (max_steps self) (rewards self).

(** The first part of [reset]: the grid and the station. *)
Definition reset_grid_part (self : GridWorld) (gcs0 : position)
    (reset_starts_goals reset_grid : bool) (gcs_draws : list position)
    : option (GridWorld * position * option exn) :=
  if reset_grid then
    match first_accepted (gcs_rejected self reset_starts_goals) gcs_draws with
    | None => None
    | Some (Raise e) => Some (self, gcs0, Some e)
    | Some (Ok gcs) =>
        match ndarray_setitem (_gen_grid self) gcs GridLegend.GCS with
        | Raise e => Some (self, gcs0, Some e)
        | Ok g => Some (set_grid self g, gcs, None)
        end
    end
  else Some (self, gcs0, None).

(** The second part of [reset]: the starts and the goals. *)
Definition reset_starts_part (self : GridWorld) (gcs : position)
    (reset_starts_goals : bool)
    (placements : list (list position * list position))
    : option (GridWorld * option exn) :=
  if reset_starts_goals then
    match first_accepted (placement_rejected (grid self) gcs) placements with
    | None => None
    | Some (Raise e) => Some (self, Some e)
    | Some (Ok (starts, goals)) =>
        let '(ags, e) :=
          for_range_exn (length (agents self)) (assign_body starts goals)
                        (agents self) in
        Some (set_agents self ags, e)
    end
  else Some (self, None).

(** [reset]: the environment and the station after the call, and the
    observations returned or the exception raised; [None] when the draws
    given do not suffice. *)
Definition reset_env (self : GridWorld) (gcs0 : position)
    (reset_starts_goals reset_grid : bool) (gcs_draws : list position)
    (placements : list (list position * list position))
    : option (GridWorld * position * result (list (list ndarray2))) :=
  match reset_grid_part self gcs0 reset_starts_goals reset_grid gcs_draws with
  | None => None
  | Some (self1, gcs, Some e) => Some (self1, gcs, Raise e)
  | Some (self1, gcs, None) =>
      match reset_starts_part self1 gcs reset_starts_goals placements with
      | None => None
      | Some (self2, Some e) => Some (self2, gcs, Raise e)
      | Some (self2, None) =>
          let self3 := set_agents self2 (reset_agent <$> agents self2) in
          Some (self3, gcs, gen_obs self3)
      end
  end.

(** ** [Grid.get] and [Grid.set]

    The class [Grid]: its width, its height and its cells.  [set] writes the
    array in place; here it returns the grid written. *)

Module Grid.
Record t (A : Type) : Type := mk {
  width : Z;
  height : Z;
  grid : Z -> Z -> A }.
Arguments mk {A} width height grid.
Arguments width {A} self : rename.
Arguments height {A} self : rename.
Arguments grid {A} self : rename.

Definition set {A : Type} (self : t A) (i j : Z) (v : A) : result (t A) :=
  if negb (bool_decide (0 <= i < width self)) then Raise AssertionError
  else if negb (bool_decide (0 <= j < height self)) then Raise AssertionError
  else Ok (mk (width self) (height self)
              (fun i' j' =>
                 if bool_decide (i' = i /\ j' = j) then v
                 else grid self i' j')).

Definition get {A : Type} (self : t A) (i j : Z) : result A :=
  if negb (bool_decide (0 <= i < width self)) then Raise AssertionError
  else if negb (bool_decide (0 <= j < height self)) then Raise AssertionError
  else Ok (grid self i j).
End Grid.

Definition set_rewards (self : GridWorld) (rw : RewardTable) : GridWorld :=
  mkWorld (agents self) (grid self) (col_wind self) (np_random self)
          (step_count self) (max_steps self) rw.

(** ** [GridWorld.read_reward_config]

    [config] is the parsed configuration: for the name of a section, the
    section when there is one; a section gives, for the name of an option,
    nothing when the option is absent and otherwise the float its text
    stands for, when it stands for one. *)

Inductive config_exn : Type :=
  | KeyError      (* config["Gridworld Parameters"] without such a section *)
  | ValueError.   (* getfloat on a text that is not a float *)

Definition section : Type := string -> option (option Q).

(** [grid_param.getfloat(name, fallback)]; [None] for a [ValueError]. *)
Definition getfloat (grid_param : section) (name : string) (fallback : Q)
    : option Q :=
  match grid_param name with
  | None => Some fallback
  | Some v => v
  end.

Definition read_reward_config (self : GridWorld)
    (config : string -> option section) : GridWorld * option config_exn :=
  match config "Gridworld Parameters"%string with
  | None => (self, Some KeyError)
  | Some grid_param =>
      let rw := rewards self in
      match getfloat grid_param "FREE" (free rw) with
      | None => (self, Some ValueError)
      | Some v =>
      let rw := mkRewards v (obstacles rw) (goal_reward rw)
                          (out_of_bounds rw) (battery_depleted rw) in
      match getfloat grid_param "GOAL" (goal_reward rw) with
      | None => (set_rewards self rw, Some ValueError)
      | Some v =>
      let rw := mkRewards (free rw) (obstacles rw) v
                          (out_of_bounds rw) (battery_depleted rw) in
      match getfloat grid_param "OBSTACLE" (obstacles rw) with
      | None => (set_rewards self rw, Some ValueError)
      | Some v =>
      let rw := mkRewards (free rw) v (goal_reward rw)
                          (out_of_bounds rw) (battery_depleted rw) in
      match getfloat grid_param "OUT_OF_BOUNDS" (out_of_bounds rw) with
      | None => (set_rewards self rw, Some ValueError)
      | Some v =>
      let rw := mkRewards (free rw) (obstacles rw) (goal_reward rw)
                          v (battery_depleted rw) in
      match getfloat grid_param "BATTERY_DEPLETED" (battery_depleted rw) with
      | None => (set_rewards self rw, Some ValueError)
      | Some v =>
          (set_rewards self
             (mkRewards (free rw) (obstacles rw) (goal_reward rw)
                        (out_of_bounds rw) v), None)
      end end end end end
  end.

(** What [read_reward_config] makes of one reward. *)
Definition overridden (grid_param : section) (name : string) (old new : Q)
    : Prop :=
  match grid_param name with
  | None => new = old
  | Some v => v = Some new
  end.

(** ** Further example worlds *)


(** Two agents on the first row with one free cell between them. *)
Definition facing : GridWorld :=
  world empty_grid [agent_at 0 (0, 0) 150 false; agent_at 1 (0, 2) 150 false]
        0 0.

(** A random stream that always yields 1. *)
Definition gusty (k : nat) : RandomState := mkRandom (fun _ => 1) k.

(** The starts and the goals handed to a reset of two agents. *)
Definition fresh_placement : list position * list position :=
  ([(1, 1); (1, 2)], [(3, 3); (3, 4)]).

(** A grid of the class [Grid] with three columns and three rows. *)
Definition small_grid : Grid.t Z := Grid.mk 3 3 (fun _ _ => 0).

(** A configuration whose section sets two of the five rewards. *)
Definition two_options : section :=
  fun name =>
    if String.eqb name "FREE" then Some (Some (Qmake (-2) 1))
    else if String.eqb name "GOAL" then Some (Some (Qmake 50 1))
    else None.

Definition example_config : string -> option section :=
  fun name =>
    if String.eqb name "Gridworld Parameters" then Some two_options else None.

(** ** Vocabulary of the further properties *)

(** Every agent of the roster stands on a cell of the grid. *)
Definition on_grid (g : ndarray2) (ags : list GridworldAgent) : Prop :=
  forall i a, ags !! i = Some a -> in_bounds g (pos a) = true.

(** No agent of the roster stands on an obstacle. *)
Definition off_obstacles (g : ndarray2) (ags : list GridworldAgent) : Prop :=
  forall i a, ags !! i = Some a ->
    item g (pos a).1 (pos a).2 ≠ GridLegend.OBSTACLE.

(** The local arrays have one entry per agent. *)
Definition aligned (n : nat) (s : locals) : Prop :=
  length (l_agents s) = n /\ length (l_rewards s) = n /\
  length (l_illegals s) = n /\ length (l_done s) = n.


(** The entries of agent [i] are those of the evaluation [ev], and the agent
    stands on the cell [p0] or is flagged. *)
Definition first_stands (ev : Q * bool * bool) (p0 : position) (s : locals)
    (i : nat) : Prop :=
  exists a, l_agents s !! i = Some a /\
    l_rewards s !! i = Some ev.1.1 /\ l_done s !! i = Some ev.2 /\
    (pos a = p0 \/ l_illegals s !! i = Some true).


(** Cell [mv] is taken once the moves are applied: it is an obstacle, or the
    cell of an agent other than [i] that is done, or the proposed cell of an
    agent other than [i] that is not. *)
Definition taken (g : ndarray2) (ags0 : list GridworldAgent)
    (moves : list position) (i : nat) (mv : position) : Prop :=
  item g mv.1 mv.2 = GridLegend.OBSTACLE \/
  exists j b, j ≠ i /\ ags0 !! j = Some b /\
    if done b then pos b = mv else moves !! j = Some mv.


(** The reward [r] of an evaluation that flags an agent whose battery, once
    drained, is [b]. *)
Definition penalty (rw : RewardTable) (b : Z) (r : Q) : Prop :=
  if bool_decide (b <= 0) then r = battery_depleted rw
  else r = obstacles rw \/ r = out_of_bounds rw.

(** Every agent that is flagged, or that is back on its old cell after
    proposing another one, carries a penalty. *)
Definition penalised (rw : RewardTable) (ags0 : list GridworldAgent)
    (moves : list position) (s : locals) : Prop :=
  forall i a0 a mv,
    ags0 !! i = Some a0 -> done a0 = false -> moves !! i = Some mv ->
    l_agents s !! i = Some a ->
    l_illegals s !! i = Some true \/ (pos a = pos a0 /\ mv ≠ pos a0) ->
    l_done s !! i = Some (bool_decide (battery a0 - 10 <= 0)) /\
    exists r, l_rewards s !! i = Some r /\ penalty rw (battery a0 - 10) r.


(** The five rewards of the table. *)
Definition reward_values (rw : RewardTable) : list Q :=
  [free rw; obstacles rw; goal_reward rw; out_of_bounds rw;
   battery_depleted rw].

(** The reward entries of a step: 0 for an agent that was done, a reward of
    the table for the others. *)
Definition rewards_inv (rw : RewardTable) (ags0 : list GridworldAgent)
    (s : locals) : Prop :=
  forall i a0, ags0 !! i = Some a0 ->
    exists r, l_rewards s !! i = Some r /\
      if done a0 then r = Qmake 0 1 else r ∈ reward_values rw.

(** What [reset] keeps of an agent. *)
Definition same_identity (a a' : GridworldAgent) : Prop :=
  agent_id a' = agent_id a /\ init_pos a' = init_pos a /\
  init_goal a' = init_goal a.


(** The action that goes the other way. *)
Definition opposite (action : Z) : Z :=
  if bool_decide (action = LegalActions.left) then LegalActions.right
  else if bool_decide (action = LegalActions.right) then LegalActions.left
  else if bool_decide (action = LegalActions.up) then LegalActions.down
  else LegalActions.up.


(** The local arrays agree on everything but the rewards. *)
Definition same_course (t1 t2 : locals) : Prop :=
  l_agents t1 = l_agents t2 /\ l_illegals t1 = l_illegals t2 /\
  l_done t1 = l_done t2 /\ length (l_rewards t1) = length (l_rewards t2).

(** What a call of [step] does apart from the rewards it returns: the
    agents, the random stream and the step counter it leaves, and the done
    flags it returns or the exception it raises. *)
Definition course (r : GridWorld * result (list Q * list bool))
    : list GridworldAgent * RandomState * Z * result (list bool) :=
  (agents r.1, np_random r.1, step_count r.1,
   match r.2 with Ok out => Ok out.2 | Raise e => Raise e end).

(** What [step] keeps of an agent: all but its position, its battery and
    its done flag. *)
Definition kept (a a' : GridworldAgent) : Prop :=
  same_identity a a' /\ goal a' = goal a.

(** The options [read_reward_config] reads, in the order in which it reads
    them, each with the reward it sets. *)
Definition reward_options : list (string * (RewardTable -> Q)) :=
  [("FREE"%string, free); ("GOAL"%string, goal_reward);
   ("OBSTACLE"%string, obstacles); ("OUT_OF_BOUNDS"%string, out_of_bounds);
   ("BATTERY_DEPLETED"%string, battery_depleted)].

(** A configuration whose option GOAL is not a float, for the examples. *)
Definition broken_options : section :=
  fun name =>
    if String.eqb name "FREE" then Some (Some (Qmake (-2) 1))
    else if String.eqb name "GOAL" then Some None
    else None.

Definition broken_config : string -> option section :=
  fun name =>
    if String.eqb name "Gridworld Parameters" then Some broken_options
    else None.

(** ** [GridWorld.greedy_det_policy]

    [v_values] is an array of floats, rationals here, with a shape of its
    own.  The arrays [u] and [v] that are returned hold the components of
    the arrows of a quiver plot; the entries written are 0, 1 and -1, so the
    arrays are arrays of integers here.  Two exceptions can leave the
    function: [IndexError], from [v_values[...]] and from
    [self.agents[agent_id]], and the [ValueError] of [np.amin] on an array
    without cells. *)

Module Policy.

Inductive exn : Type :=
  | IndexError
  | ValueError.

Inductive outcome (A : Type) : Type :=
  | Return (x : A)
  | Raises (e : exn).
Arguments Return {A} x.
Arguments Raises {A} e.

Record ndarrayQ : Type := mkValues {
  qshape0 : Z;
  qshape1 : Z;
  qitem : Z -> Z -> Q }.

(** [v_values[i, j]] *)
Definition getitem (a : ndarrayQ) (i j : Z) : outcome Q :=
  match np_index (qshape0 a) i, np_index (qshape1 a) j with
  | Some n, Some m => Return (qitem a n m)
  | _, _ => Raises IndexError
  end.

(** The cells of an array of shape [(r, c)], row by row. *)
Definition cells (r c : Z) : list (Z * Z) :=
  n ← seqZ 0 r; m ← seqZ 0 c; [(n, m)].

Definition Qmin (x y : Q) : Q := if Qle_bool x y then x else y.

(** [np.amin(a)] *)
Definition amin (a : ndarrayQ) : outcome Q :=
  match (fun p => qitem a p.1 p.2) <$> cells (qshape0 a) (qshape1 a) with
  | [] => Raises ValueError
  | x :: xs => Return (foldl Qmin x xs)
  end.

(** [self.agents[agent_id]] *)
Definition agent_of (self : GridWorld) (agent_id : Z)
    : outcome GridworldAgent :=
  match np_index (Z.of_nat (length (agents self))) agent_id with
  | Some k =>
      match agents self !! Z.to_nat k with
      | Some a => Return a
      | None => Raises IndexError
      end
  | None => Raises IndexError
  end.

(** The dictionary [moves] of one cell, as the list of its entries in the
    order in which they are inserted. *)
Definition moves_of (v_values : ndarrayQ) (rows cols n m : Z)
    : outcome (list (Z * Q)) :=
  match (if bool_decide (n > 0) then getitem v_values (n - 1) m
         else amin v_values) with
  | Raises e => Raises e
  | Return above =>
  match (if bool_decide (n < rows - 1) then getitem v_values (n + 1) m
         else amin v_values) with
  | Raises e => Raises e
  | Return below =>
  match (if bool_decide (m > 0) then getitem v_values n (m - 1)
         else amin v_values) with
  | Raises e => Raises e
  | Return on_left =>
  match (if bool_decide (m < cols - 1) then getitem v_values n (m + 1)
         else amin v_values) with
  | Raises e => Raises e
  | Return on_right =>
      Return [(LegalActions.up, above); (LegalActions.down, below);
              (LegalActions.left, on_left); (LegalActions.right, on_right)]
  end end end end.

(** [max(moves, key=moves.get)] once the first entry is taken as the best
    so far: a later key replaces it when its value is greater. *)
Fixpoint max_from (best : Z * Q) (rest : list (Z * Q)) : Z :=
  match rest with
  | [] => best.1
  | x :: rest' =>
      if Qle_bool x.2 best.2 then max_from best rest' else max_from x rest'
  end.

(** [max(moves, key=moves.get)] *)
Definition max_key (moves : list (Z * Q)) : outcome Z :=
  match moves with
  | [] => Raises ValueError
  | x :: rest => Return (max_from x rest)
  end.

(** The first part of the body of the loops: the action chosen for cell
    [(n, m)], or [None] where the body goes on to the next cell. *)
Definition choose (self : GridWorld) (v_values : ndarrayQ) (agent_id : Z)
    (rows cols n m : Z) : outcome (option Z) :=
  if bool_decide (item (grid self) n m = GridLegend.OBSTACLE)
  then Return None
  else
    match agent_of self agent_id with
    | Raises e => Raises e
    | Return agent =>
        if bool_decide ((n, m) = goal agent) then Return None
        else
          match moves_of v_values rows cols n m with
          | Raises e => Raises e
          | Return moves =>
              match max_key moves with
              | Raises e => Raises e
              | Return action => Return (Some action)
              end
          end
    end.

(** [arr[n, m] = x] on a cell of the array. *)
Definition write (arr : ndarray2) (n m x : Z) : ndarray2 :=
  mkGrid (shape0 arr) (shape1 arr)
         (fun n' m' =>
            if bool_decide (n' = n /\ m' = m) then x else item arr n' m').

(** The second part of the body: the arrow of the action. *)
Definition draw (action n m : Z) (uv : ndarray2 * ndarray2)
    : ndarray2 * ndarray2 :=
  if bool_decide (action = LegalActions.up)
  then (write uv.1 n m 0, write uv.2 n m 1)
  else if bool_decide (action = LegalActions.down)
  then (write uv.1 n m 0, write uv.2 n m (-1))
  else if bool_decide (action = LegalActions.right)
  then (write uv.1 n m 1, write uv.2 n m 0)
  else if bool_decide (action = LegalActions.left)
  then (write uv.1 n m (-1), write uv.2 n m 0)
  else uv.

Definition policy_body (self : GridWorld) (v_values : ndarrayQ)
    (agent_id : Z) (rows cols n m : Z) (uv : ndarray2 * ndarray2)
    : outcome (ndarray2 * ndarray2) :=
  match choose self v_values agent_id rows cols n m with
  | Raises e => Raises e
  | Return None => Return uv
  | Return (Some action) => Return (draw action n m uv)
  end.

(** [for x in range(k): body]; an exception ends the loop. *)
Fixpoint for_each {S : Type} (l : list Z) (body : Z -> S -> outcome S)
    (s : S) : outcome S :=
  match l with
  | [] => Return s
  | x :: rest =>
      match body x s with
      | Raises e => Raises e
      | Return s' => for_each rest body s'
      end
  end.

(** [np.zeros((r, c))] *)
Definition zeros (r c : Z) : ndarray2 := mkGrid r c (fun _ _ => 0).

Definition greedy_det_policy (self : GridWorld) (v_values : ndarrayQ)
    (agent_id : Z) : outcome (ndarray2 * ndarray2) :=
  let rows := shape0 (grid self) in
  let cols := shape1 (grid self) in
  for_each (seqZ 0 rows)
    (fun n =>
       for_each (seqZ 0 cols)
         (fun m => policy_body self v_values agent_id rows cols n m))
    (zeros rows cols, zeros rows cols).

(** *** Vocabulary of the properties of the policy *)


(** The arrow of an action: its components in [u] and in [v]. *)
Definition arrow (action : Z) : Z * Z :=
  if bool_decide (action = LegalActions.up) then (0, 1)
  else if bool_decide (action = LegalActions.down) then (0, -1)
  else if bool_decide (action = LegalActions.left) then (-1, 0)
  else (1, 0).




(** The two components written on a cell. *)
Definition cell (uv : ndarray2 * ndarray2) (n m : Z) : Z * Z :=
  (item uv.1 n m, item uv.2 n m).

(** What the body of the loops leaves on a cell, given what it chose. *)
Definition painted (c : option Z) (old : Z * Z) : Z * Z :=
  match c with
  | Some action => arrow action
  | None => old
  end.

Definition shape_of (uv : ndarray2 * ndarray2) : Z * Z * (Z * Z) :=
  (shape0 uv.1, shape1 uv.1, (shape0 uv.2, shape1 uv.2)).

(** What an exception of [greedy_det_policy] tells. *)
Definition told (self : GridWorld) (v_values : ndarrayQ) (agent_id : Z)
    (e : exn) : Prop :=
  (e = ValueError /\ (qshape0 v_values <= 0 \/ qshape1 v_values <= 0)) \/
  (e = IndexError /\
   (¬ (- Z.of_nat (length (agents self)) <= agent_id
       < Z.of_nat (length (agents self))) \/
    qshape0 v_values < shape0 (grid self) \/
    qshape1 v_values < shape1 (grid self))).

(** *** Example values *)

(** Values that grow towards the corner (4, 4) of a 5 x 5 grid. *)
Definition slope : ndarrayQ := mkValues 5 5 (fun n m => inject_Z (n + m)).

(** An array without cells. *)
Definition no_values : ndarrayQ := mkValues 0 0 (fun _ _ => 0%Q).

End Policy.

(** * Properties *)

(** ** Reasoning about loops *)

Section loops.
Context {S : Type}.
Implicit Types (body : nat -> S -> S * option exn) (s t : S).

Lemma for_range_exn_0 body s : for_range_exn 0 body s = (s, None).
Proof. reflexivity. Qed.

Lemma for_range_exn_S k body s :
  for_range_exn (Datatypes.S k) body s =
    match (for_range_exn k body s).2 with
    | None => body k (for_range_exn k body s).1
    | Some _ => for_range_exn k body s
    end.
Proof.
  unfold for_range_exn. rewrite seq_S, foldl_app. reflexivity.
Qed.

(** A loop that ends without an exception ran every body without one. *)
Lemma for_range_exn_ok_ind (I : nat -> S -> Prop) k body s s' :
  for_range_exn k body s = (s', None) ->
  I O s ->
  (forall i t t', (i < k)%nat -> I i t -> body i t = (t', None) ->
                  I (Datatypes.S i) t') ->
  I k s'.
Proof.
  revert s'. induction k as [|k IH]; intros s' Hrun H0 Hstep.
  - rewrite for_range_exn_0 in Hrun. by simplify_eq.
  - rewrite for_range_exn_S in Hrun.
    destruct (for_range_exn k body s) as [t [e|]] eqn:Hk; simpl in Hrun.
    + discriminate.
    + apply (Hstep k t s'); [lia | | done].
      apply IH; [done | done |]. intros i u u' Hi. apply Hstep. lia.
Qed.

(** What every body preserves, whether it raises or not, the loop
    preserves. *)
Lemma for_range_exn_any_ind (I : S -> Prop) k body s :
  I s ->
  (forall i t, (i < k)%nat -> I t -> I (body i t).1) ->
  I (for_range_exn k body s).1.
Proof.
  intros H0 Hstep. induction k as [|k IH]; [done|].
  rewrite for_range_exn_S.
  destruct (for_range_exn k body s) as [t [e|]] eqn:Hk; simpl in *.
  - apply IH. intros i u Hi. apply Hstep. lia.
  - apply Hstep; [lia|]. apply IH. intros i u Hi. apply Hstep. lia.
Qed.
End loops.

(** ** Array reads and writes *)

Lemma setitem_Some {A : Type} (l l' : list A) i x :
  setitem l i x = Some l' -> (i < length l)%nat /\ l' = <[i:=x]> l.
Proof. unfold setitem. case_bool_decide; naive_solver. Qed.

Lemma np_index_in_range len i :
  0 <= i < len -> np_index len i = Some i.
Proof. intros H. unfold np_index. by rewrite bool_decide_eq_true_2. Qed.

Lemma grid_getitem_in_bounds g p :
  in_bounds g p = true -> grid_getitem g p = Ok (item g p.1 p.2).
Proof.
  unfold in_bounds, grid_getitem. intros [H1 H2]%andb_true_iff.
  apply bool_decide_eq_true_1 in H1, H2.
  by rewrite !np_index_in_range.
Qed.

Lemma elem_of_other_positions ags i p :
  p ∈ other_positions ags i <->
  exists j b, j ≠ i /\ ags !! j = Some b /\ pos b = p.
Proof.
  unfold other_positions. rewrite list_elem_of_omap. split.
  - intros (j & _ & Hj). case_bool_decide; [|done].
    destruct (ags !! j) as [b|] eqn:Hb; simplify_eq/=. eauto.
  - intros (j & b & Hne & Hb & <-). exists j. split.
    + apply elem_of_seq. apply lookup_lt_Some in Hb. lia.
    + rewrite bool_decide_eq_true_2 by done. by rewrite Hb.
Qed.

(** ** [trans_function] *)

Definition legal_action (action : Z) : Prop :=
  action = LegalActions.left \/ action = LegalActions.right \/
  action = LegalActions.up \/ action = LegalActions.down.

(** C6 (the code at an unknown action): for a value that is none of the four
    legal actions [trans_function] raises no [UnknownAction]; it returns the
    position it was given, unchanged, whenever the wind of the row can be
    read. *)
Theorem trans_function_unknown_action self n m action noise :
  ¬ legal_action action ->
  trans_function self (n, m) action noise ≠ Raise UnknownAction /\
  (forall w, np_getitem (col_wind self) n = Ok w ->
             trans_function self (n, m) action noise = Ok (n, m)).
Proof.
  intros Hno. unfold legal_action in Hno. unfold trans_function.
  destruct (np_getitem (col_wind self) n) as [w|e] eqn:Hw.
  - repeat case_bool_decide; try tauto; split; try done.
  - split; [|done]. intros [= ->]. unfold np_getitem in Hw.
    repeat case_match; simplify_eq.
Qed.

(** ** [_reward_agent] *)

Lemma reward_of_illegal g rw ags i a :
  (reward_of g rw ags i a).1.2 = true <->
  in_bounds g (pos a) = false \/
  (in_bounds g (pos a) = true /\ item g (pos a).1 (pos a).2 = GridLegend.OBSTACLE) \/
  (exists j b, j ≠ i /\ ags !! j = Some b /\ pos b = pos a).
Proof.
  unfold reward_of. destruct (pos a) as [n m] eqn:Hp. simpl.
  rewrite <- (elem_of_other_positions ags i (n, m)).
  destruct (in_bounds g (n, m)) eqn:Hb; simpl.
  - destruct (bool_decide (item g n m = GridLegend.OBSTACLE)) eqn:Ho; simpl.
    + apply bool_decide_eq_true_1 in Ho.
      destruct (bool_decide (battery a <= 0)); simpl; split; auto.
    + apply bool_decide_eq_false_1 in Ho.
      destruct (bool_decide ((n, m) ∈ other_positions ags i)) eqn:Hm; simpl.
      * apply bool_decide_eq_true_1 in Hm.
        destruct (bool_decide (battery a <= 0)); simpl; split; auto.
      * apply bool_decide_eq_false_1 in Hm.
        destruct (bool_decide ((n, m) = goal a)),
                 (bool_decide (battery a <= 0)); simpl;
          (split; [done | intros [?|[[_ ?]|?]]; done]).
  - destruct (bool_decide (battery a <= 0)); simpl; split; auto.
Qed.

Lemma reward_of_depleted g rw ags i a :
  battery a <= 0 ->
  (reward_of g rw ags i a).1.1 = battery_depleted rw /\
  (reward_of g rw ags i a).2 = true.
Proof.
  intros Hb. unfold reward_of. destruct (pos a) as [n m].
  rewrite (bool_decide_eq_true_2 _ Hb).
  by repeat case_match.
Qed.

(** C4 (amended): the move of the agent evaluated by [_reward_agent] is
    flagged illegal exactly when its position is outside the grid, or is an
    obstacle cell, or is the current position of any other agent of the
    roster, whether that agent is done or not. *)
Theorem reward_agent_illegal_iff g rw ags i a r ill d :
  ags !! i = Some a ->
  _reward_agent g rw ags i = Ok (r, ill, d) ->
  (ill = true <->
   in_bounds g (pos a) = false \/
   (in_bounds g (pos a) = true /\
    item g (pos a).1 (pos a).2 = GridLegend.OBSTACLE) \/
   (exists j b, j ≠ i /\ ags !! j = Some b /\ pos b = pos a)).
Proof.
  intros Ha Hr. unfold _reward_agent in Hr. rewrite Ha in Hr.
  injection Hr as Hr. rewrite <- (reward_of_illegal g rw ags i a).
  by rewrite Hr.
Qed.

(** ** The evaluation loops *)

Lemma assign_reward_ok g rw i s s' :
  assign_reward g rw i s = (s', None) ->
  exists a, l_agents s !! i = Some a /\
    l_agents s' = l_agents s /\
    (i < length (l_rewards s))%nat /\
    (i < length (l_illegals s))%nat /\
    (i < length (l_done s))%nat /\
    l_rewards s' = <[i := (reward_of g rw (l_agents s) i a).1.1]> (l_rewards s) /\
    l_illegals s' = <[i := (reward_of g rw (l_agents s) i a).1.2]> (l_illegals s) /\
    l_done s' = <[i := (reward_of g rw (l_agents s) i a).2]> (l_done s).
Proof.
  unfold assign_reward, _reward_agent. intros H.
  destruct (l_agents s !! i) as [a|] eqn:Ha; [|done].
  destruct (reward_of g rw (l_agents s) i a) as [[r ill] d] eqn:Hr.
  destruct (setitem (l_rewards s) i r) as [rs|] eqn:H1; [|done].
  apply setitem_Some in H1 as [? ->]. simpl in H.
  destruct (setitem (l_illegals s) i ill) as [ils|] eqn:H2; [|done].
  apply setitem_Some in H2 as [? ->]. simpl in H.
  destruct (setitem (l_done s) i d) as [ds|] eqn:H3; [|done].
  apply setitem_Some in H3 as [? ->]. simpl in H.
  injection H as <-. exists a. rewrite Hr. simpl. done.
Qed.

Lemma assign_reward_slot g rw i s s' :
  assign_reward g rw i s = (s', None) ->
  exists a, l_agents s !! i = Some a /\ l_agents s' = l_agents s /\
    evaluated g rw (l_agents s) i a (slot s' i) /\
    (forall j, j ≠ i -> slot s' j = slot s j) /\
    length (l_rewards s') = length (l_rewards s) /\
    length (l_illegals s') = length (l_illegals s) /\
    length (l_done s') = length (l_done s).
Proof.
  intros (a & Ha & Hag & L1 & L2 & L3 & E1 & E2 & E3)%assign_reward_ok.
  exists a. unfold evaluated, slot. rewrite E1, E2, E3.
  rewrite !list_lookup_insert_eq by done. rewrite !length_insert.
  repeat split; try done.
  intros j Hj. by rewrite !list_lookup_insert_ne.
Qed.

(** The shape shared by the first evaluation and by the re-evaluation of a
    pass: agent [i] is skipped when [skip i a] holds and evaluated against
    the roster otherwise; the roster itself is not written. *)
Lemma eval_loop_ok (skip : nat -> GridworldAgent -> bool) body g rw k s s' :
  (forall i t t', body i t = (t', None) ->
     exists a, l_agents t !! i = Some a /\
       if skip i a then t' = t else assign_reward g rw i t = (t', None)) ->
  for_range_exn k body s = (s', None) ->
  l_agents s' = l_agents s /\
  length (l_rewards s') = length (l_rewards s) /\
  length (l_illegals s') = length (l_illegals s) /\
  length (l_done s') = length (l_done s) /\
  (forall i, (k <= i)%nat -> slot s' i = slot s i) /\
  (forall i, (i < k)%nat ->
     exists a, l_agents s !! i = Some a /\
       if skip i a then slot s' i = slot s i
       else evaluated g rw (l_agents s) i a (slot s' i)).
Proof.
  intros Hbody Hrun.
  apply (for_range_exn_ok_ind (fun k t =>
    l_agents t = l_agents s /\
    length (l_rewards t) = length (l_rewards s) /\
    length (l_illegals t) = length (l_illegals s) /\
    length (l_done t) = length (l_done s) /\
    (forall i, (k <= i)%nat -> slot t i = slot s i) /\
    (forall i, (i < k)%nat ->
       exists a, l_agents s !! i = Some a /\
         if skip i a then slot t i = slot s i
         else evaluated g rw (l_agents s) i a (slot t i)))
    _ _ _ _ Hrun).
  - repeat split; try done. intros i Hi. lia.
  - intros i t t' Hi (Hag & L1 & L2 & L3 & Hge & Hlt) Hb.
    apply Hbody in Hb as (a & Ha & Hb).
    destruct (skip i a) eqn:Hs.
    + subst t'. repeat split; try done.
      * intros j Hj. apply Hge. lia.
      * intros j Hj. destruct (decide (j = i)) as [->|Hne].
        -- exists a. rewrite <- Hag, Ha, Hs. split; [done|]. by apply Hge.
        -- apply Hlt. lia.
    + apply assign_reward_slot in Hb
        as (a' & Ha' & Hag' & Hev & Hfr & L1' & L2' & L3').
      rewrite Ha in Ha'. injection Ha' as <-.
      repeat split; try congruence.
      * intros j Hj. rewrite Hfr by lia. apply Hge. lia.
      * intros j Hj. destruct (decide (j = i)) as [->|Hne].
        -- exists a. rewrite <- Hag, Ha, Hs. by split.
        -- rewrite Hfr by done. apply Hlt. lia.
Qed.

Lemma first_eval_ok g rw s s' :
  first_eval g rw s = (s', None) ->
  l_agents s' = l_agents s /\
  length (l_rewards s') = length (l_rewards s) /\
  length (l_illegals s') = length (l_illegals s) /\
  length (l_done s') = length (l_done s) /\
  (forall i a, l_agents s !! i = Some a ->
     if done a then slot s' i = slot s i
     else evaluated g rw (l_agents s) i a (slot s' i)).
Proof.
  unfold first_eval. intros Hrun.
  apply (eval_loop_ok (fun _ a => done a)) with (g := g) (rw := rw) in Hrun.
  - destruct Hrun as (Hag & L1 & L2 & L3 & _ & Hlt).
    repeat split; try done. intros i a Ha.
    destruct (Hlt i) as (a' & Ha' & H); [by eapply lookup_lt_Some|].
    by simplify_eq.
  - intros i t t' Hb. unfold first_eval_body in Hb.
    destruct (l_agents t !! i) as [a|]; [|done]. exists a. split; [done|].
    destruct (done a); by simplify_eq.
Qed.

Lemma reeval_ok g rw old_pos k s s' :
  for_range_exn k (reeval_body g rw old_pos) s = (s', None) ->
  l_agents s' = l_agents s /\
  length (l_rewards s') = length (l_rewards s) /\
  length (l_illegals s') = length (l_illegals s) /\
  length (l_done s') = length (l_done s) /\
  (forall i, (k <= i)%nat -> slot s' i = slot s i) /\
  (forall i, (i < k)%nat ->
     exists a, l_agents s !! i = Some a /\
       if skipped old_pos i a then slot s' i = slot s i
       else evaluated g rw (l_agents s) i a (slot s' i)).
Proof.
  apply eval_loop_ok. intros i t t' Hb. unfold reeval_body in Hb.
  destruct (l_agents t !! i) as [a|]; [|done]. exists a. split; [done|].
  unfold skipped. destruct (done a); simpl; [by simplify_eq|].
  destruct (old_pos !! i) as [p|]; [|done].
  case_bool_decide as Hp.
  - subst p. rewrite bool_decide_eq_true_2 by done. by simplify_eq.
  - rewrite bool_decide_eq_false_2; [done|]. intros [= ->]. done.
Qed.

(** ** The loops that write the roster *)

Lemma cancel_ok old_pos k s s' :
  for_range_exn k (cancel_body old_pos) s = (s', None) ->
  l_rewards s' = l_rewards s /\ l_done s' = l_done s /\
  length (l_agents s') = length (l_agents s) /\
  length (l_illegals s') = length (l_illegals s) /\
  (forall i, (k <= i)%nat ->
     l_illegals s' !! i = l_illegals s !! i /\
     l_agents s' !! i = l_agents s !! i) /\
  (forall i, (i < k)%nat ->
     exists b : bool, l_illegals s !! i = Some b /\ l_illegals s' !! i = Some false /\
       if b then exists p a, old_pos !! i = Some p /\
                  l_agents s !! i = Some a /\
                  l_agents s' !! i = Some (set_pos a p)
       else l_agents s' !! i = l_agents s !! i).
Proof.
  intros Hrun.
  apply (for_range_exn_ok_ind (fun k (t : locals) =>
    l_rewards t = l_rewards s /\ l_done t = l_done s /\
    length (l_agents t) = length (l_agents s) /\
    length (l_illegals t) = length (l_illegals s) /\
    (forall i, (k <= i)%nat ->
       l_illegals t !! i = l_illegals s !! i /\
       l_agents t !! i = l_agents s !! i) /\
    (forall i, (i < k)%nat ->
       exists b : bool, l_illegals s !! i = Some b /\ l_illegals t !! i = Some false /\
         if b then exists p a, old_pos !! i = Some p /\
                    l_agents s !! i = Some a /\
                    l_agents t !! i = Some (set_pos a p)
         else l_agents t !! i = l_agents s !! i))
    _ _ _ _ Hrun).
  - repeat split; try done. intros i Hi. lia.
  - intros i t t' Hi (R & D & L1 & L2 & Hge & Hlt) Hb.
    destruct (Hge i) as [Hil Hag]; [lia|].
    unfold cancel_body in Hb.
    destruct (l_illegals t !! i) as [[|]|] eqn:Hb1; [| |done].
    + destruct (old_pos !! i) as [p|] eqn:Hp; [|done].
      destruct (l_agents t !! i) as [a|] eqn:Ha; [|done].
      injection Hb as <-. simpl. rewrite !length_insert.
      repeat split; try done.
      * rewrite list_lookup_insert_ne by lia. apply Hge. lia.
      * rewrite list_lookup_insert_ne by lia. apply Hge. lia.
      * intros j Hj. destruct (decide (j = i)) as [->|Hne].
        -- exists true. rewrite !list_lookup_insert_eq
             by (by eapply lookup_lt_Some).
           repeat split; try congruence. exists p, a. by rewrite <- Hag.
        -- rewrite !list_lookup_insert_ne by done. apply Hlt. lia.
    + injection Hb as <-. repeat split; try done.
      * apply Hge. lia.
      * apply Hge. lia.
      * intros j Hj. destruct (decide (j = i)) as [->|Hne].
        -- exists false. by rewrite <- Hil.
        -- apply Hlt. lia.
Qed.

Lemma apply_moves_ok moves ags ags' :
  apply_moves moves ags = (ags', None) ->
  length ags' = length ags /\
  forall i a, ags !! i = Some a ->
    if done a then ags' !! i = Some a
    else exists mv, moves !! i = Some mv /\
           ags' !! i = Some (set_battery (set_pos a mv) (battery a - 10)).
Proof.
  unfold apply_moves. intros Hrun.
  cut (length ags' = length ags /\
       (forall i, (length ags <= i)%nat -> ags' !! i = ags !! i) /\
       forall i a, (i < length ags)%nat -> ags !! i = Some a ->
         if done a then ags' !! i = Some a
         else exists mv, moves !! i = Some mv /\
                ags' !! i = Some (set_battery (set_pos a mv) (battery a - 10))).
  { intros (L & _ & H). split; [done|]. intros i a Ha.
    apply H; [by eapply lookup_lt_Some | done]. }
  apply (for_range_exn_ok_ind (fun k (t : list GridworldAgent) =>
    length t = length ags /\
    (forall i, (k <= i)%nat -> t !! i = ags !! i) /\
    forall i a, (i < k)%nat -> ags !! i = Some a ->
      if done a then t !! i = Some a
      else exists mv, moves !! i = Some mv /\
             t !! i = Some (set_battery (set_pos a mv) (battery a - 10)))
    _ _ _ _ Hrun).
  - repeat split; try done. intros i a Hi. lia.
  - intros i t t' Hi (L & Hge & Hlt) Hb. unfold apply_moves_body in Hb.
    rewrite (Hge i) in Hb by lia.
    destruct (ags !! i) as [a|] eqn:Ha; [|done].
    destruct (done a) eqn:Hd.
    + injection Hb as <-. repeat split; try done.
      * intros j Hj. apply Hge. lia.
      * intros j b Hj Hjb. destruct (decide (j = i)) as [->|Hne].
        -- simplify_eq. rewrite Hd, Hge by lia. done.
        -- apply Hlt; [lia | done].
    + destruct (moves !! i) as [mv|] eqn:Hmv; [|done].
      injection Hb as <-. rewrite length_insert. repeat split; try done.
      * intros j Hj. rewrite list_lookup_insert_ne by lia. apply Hge. lia.
      * intros j b Hj Hjb. destruct (decide (j = i)) as [->|Hne].
        -- simplify_eq. rewrite Hd. exists mv.
           rewrite list_lookup_insert_eq by lia. done.
        -- rewrite list_lookup_insert_ne by done. apply Hlt; [lia | done].
Qed.

Lemma finish_ok g dn ags ags' :
  finish g dn ags = (ags', None) ->
  length ags' = length ags /\
  forall i a, ags !! i = Some a ->
    if done a then ags' !! i = Some a
    else exists c d, grid_getitem g (pos a) = Ok c /\ dn !! i = Some d /\
           ags' !! i =
             Some (set_done (if bool_decide (c = GridLegend.GCS)
                             then set_battery a BATTERY else a) d).
Proof.
  unfold finish. intros Hrun.
  cut (length ags' = length ags /\
       (forall i, (length ags <= i)%nat -> ags' !! i = ags !! i) /\
       forall i a, (i < length ags)%nat -> ags !! i = Some a ->
         if done a then ags' !! i = Some a
         else exists c d, grid_getitem g (pos a) = Ok c /\ dn !! i = Some d /\
                ags' !! i =
                  Some (set_done (if bool_decide (c = GridLegend.GCS)
                                  then set_battery a BATTERY else a) d)).
  { intros (L & _ & H). split; [done|]. intros i a Ha.
    apply H; [by eapply lookup_lt_Some | done]. }
  apply (for_range_exn_ok_ind (fun k (t : list GridworldAgent) =>
    length t = length ags /\
    (forall i, (k <= i)%nat -> t !! i = ags !! i) /\
    forall i a, (i < k)%nat -> ags !! i = Some a ->
      if done a then t !! i = Some a
      else exists c d, grid_getitem g (pos a) = Ok c /\ dn !! i = Some d /\
             t !! i =
               Some (set_done (if bool_decide (c = GridLegend.GCS)
                               then set_battery a BATTERY else a) d))
    _ _ _ _ Hrun).
  - repeat split; try done. intros i a Hi. lia.
  - intros i t t' Hi (L & Hge & Hlt) Hb. unfold finish_body in Hb.
    rewrite (Hge i) in Hb by lia.
    destruct (ags !! i) as [a|] eqn:Ha; [|done].
    destruct (done a) eqn:Hd.
    + injection Hb as <-. repeat split; try done.
      * intros j Hj. apply Hge. lia.
      * intros j b Hj Hjb. destruct (decide (j = i)) as [->|Hne].
        -- simplify_eq. rewrite Hd, Hge by lia. done.
        -- apply Hlt; [lia | done].
    + destruct (grid_getitem g (pos a)) as [c|] eqn:Hc; [|done].
      destruct (dn !! i) as [d|] eqn:Hdn; [|done].
      injection Hb as <-. rewrite length_insert. repeat split; try done.
      * intros j Hj. rewrite list_lookup_insert_ne by lia. apply Hge. lia.
      * intros j b Hj Hjb. destruct (decide (j = i)) as [->|Hne].
        -- simplify_eq. rewrite Hd. exists c, d.
           rewrite list_lookup_insert_eq by lia. done.
        -- rewrite list_lookup_insert_ne by done. apply Hlt; [lia | done].
Qed.

(** ** One pass of the conflict loop *)

Lemma conflict_pass_ok g rw old_pos s s' :
  conflict_pass g rw old_pos s = (s', None) ->
  length (l_agents s') = length (l_agents s) /\
  length (l_illegals s') = length (l_illegals s) /\
  (forall i, (length (l_agents s) <= i)%nat ->
     l_illegals s' !! i = l_illegals s !! i) /\
  forall i, (i < length (l_agents s))%nat ->
    exists a (b : bool) a',
      l_agents s !! i = Some a /\ l_illegals s !! i = Some b /\
      l_agents s' !! i = Some a' /\
      (if b then exists p, old_pos !! i = Some p /\ a' = set_pos a p
       else a' = a) /\
      if skipped old_pos i a'
      then l_rewards s' !! i = l_rewards s !! i /\
           l_illegals s' !! i = Some false /\
           l_done s' !! i = l_done s !! i
      else evaluated g rw (l_agents s') i a' (slot s' i).
Proof.
  unfold conflict_pass. intros Hrun.
  destruct (for_range_exn (length (l_agents s)) (cancel_body old_pos) s)
    as [s1 [e|]] eqn:Hc; [done|].
  apply cancel_ok in Hc as (R & D & L1 & L2 & Hge & Hlt).
  apply reeval_ok in Hrun as (Hag & _ & L2' & _ & Hge' & Hlt').
  rewrite Hag. repeat split; try congruence.
  - intros i Hi. pose proof (Hge' i Hi) as Hs. injection Hs as _ Hil _.
    rewrite Hil. by apply Hge.
  - intros i Hi.
    destruct (Hlt i Hi) as (b & Hb & Hb1 & Hcase).
    destruct (Hlt' i Hi) as (a' & Ha' & Hsk).
    assert (exists a, l_agents s !! i = Some a /\
              if b then exists p, old_pos !! i = Some p /\ a' = set_pos a p
              else a' = a) as (a & Ha & Hrel).
    { destruct b.
      - destruct Hcase as (p & a & Hp & Ha & Ha1). exists a. split; [done|].
        exists p. split; [done|]. congruence.
      - exists a'. split; congruence. }
    exists a, b, a'. repeat split; try done.
    destruct (skipped old_pos i a'); [|done].
    injection Hsk as E1 E2 E3. rewrite E1, E2, E3, R, D. done.
Qed.

(** Whatever every pass preserves holds when the loop ends, and then no
    agent is flagged. *)
Lemma solve_conflicts_ind (P : locals -> Prop) fuel g rw old_pos s s' :
  (forall t t', P t -> conflict_pass g rw old_pos t = (t', None) -> P t') ->
  P s ->
  solve_conflicts fuel g rw old_pos s = Some (s', None) ->
  P s' /\ any (l_illegals s') = false.
Proof.
  intros Hpass. revert s. induction fuel as [|fuel IH]; intros s Hs Hrun;
    simpl in Hrun; destruct (any (l_illegals s)) eqn:Hany; simplify_eq; auto.
  destruct (conflict_pass g rw old_pos s) as [s1 [e|]] eqn:Hp; [done|].
  eapply IH; [|done]. by eapply Hpass.
Qed.

Lemma any_false_lookup (l : list bool) i :
  any l = false -> l !! i ≠ Some true.
Proof.
  unfold any. revert i. induction l as [|b l IH]; intros i H; [done|].
  simpl in H. apply orb_false_iff in H as [-> H].
  destruct i; simpl; [done|]. by apply IH.
Qed.

Lemma any_true_lookup (l : list bool) :
  any l = true -> exists i, l !! i = Some true.
Proof.
  unfold any. induction l as [|b l IH]; [done|]. simpl.
  intros [->|H]%orb_true_iff; [by exists O|].
  destruct (IH H) as [i Hi]. by exists (S i).
Qed.

Lemma set_pos_set_pos a p q : set_pos (set_pos a p) q = set_pos a q.
Proof. reflexivity. Qed.

Lemma set_pos_id a : set_pos a (pos a) = a.
Proof. by destruct a. Qed.

Lemma conflict_pass_inv g rw ags0 moves s s' :
  step_inv g rw ags0 moves s ->
  conflict_pass g rw (pos <$> ags0) s = (s', None) ->
  step_inv g rw ags0 moves s'.
Proof.
  intros [L Lil Hdone Hact Hev Hdep] Hp.
  apply conflict_pass_ok in Hp as (L' & Lil' & _ & Hlt).
  assert (forall i a0, ags0 !! i = Some a0 ->
    exists a (b : bool) a',
      l_agents s !! i = Some a /\ l_illegals s !! i = Some b /\
      l_agents s' !! i = Some a' /\
      (if b then a' = set_pos a (pos a0) else a' = a) /\
      if skipped (pos <$> ags0) i a'
      then l_rewards s' !! i = l_rewards s !! i /\
           l_illegals s' !! i = Some false /\
           l_done s' !! i = l_done s !! i
      else evaluated g rw (l_agents s') i a' (slot s' i)) as Hpt.
  { intros i a0 Ha0. destruct (Hlt i) as (a & b & a' & Ha & Hb & Ha' & Hrel & Hsk).
    { rewrite L. by eapply lookup_lt_Some. }
    exists a, b, a'. repeat split; try done.
    destruct b; [|done]. destruct Hrel as (p & Hp & ->).
    rewrite list_lookup_fmap, Ha0 in Hp. by simplify_eq/=. }
  split; try congruence.
  - intros i a0 Ha0 Hd.
    destruct (Hpt i a0 Ha0) as (a & b & a' & Ha & Hb & Ha' & Hrel & Hsk).
    destruct (Hdone i a0 Ha0 Hd) as [Ha1 Hb1]. simplify_eq.
    unfold skipped in Hsk. rewrite Hd in Hsk. simpl in Hsk.
    split; [done | tauto].
  - intros i a0 Ha0 Hd.
    destruct (Hpt i a0 Ha0) as (a & b & a' & Ha & Hb & Ha' & Hrel & Hsk).
    destruct (Hact i a0 Ha0 Hd) as (mv & p & Hmv & Ha1 & Hp). simplify_eq.
    exists mv. destruct b; subst a'.
    + exists (pos a0). rewrite set_pos_set_pos in Ha'. auto.
    + exists p. auto.
  - intros i a0 a1 Ha0 Hd Ha1 Hne.
    destruct (Hpt i a0 Ha0) as (a & b & a' & Ha & Hb & Ha' & Hrel & Hsk).
    simplify_eq.
    destruct (Hact i a0 Ha0 Hd) as (mv & p & Hmv & Ha2 & Hp).
    assert (done a1 = false) as Hd1.
    { rewrite Ha in Ha2. injection Ha2 as ->. by destruct b; subst a1. }
    unfold skipped in Hsk. rewrite Hd1 in Hsk. simpl in Hsk.
    rewrite bool_decide_eq_false_2 in Hsk; [done|].
    rewrite list_lookup_fmap, Ha0. simpl. congruence.
  - intros i a0 Ha0 Hd Hb0.
    destruct (Hpt i a0 Ha0) as (a & b & a' & Ha & Hb & Ha' & Hrel & Hsk).
    destruct (Hdep i a0 Ha0 Hd Hb0) as [Hr Hdn].
    destruct (skipped (pos <$> ags0) i a').
    + destruct Hsk as (-> & _ & ->). done.
    + destruct (Hact i a0 Ha0 Hd) as (mv & p & Hmv & Ha2 & Hp).
      assert (battery a' <= 0) as Hbat.
      { rewrite Ha in Ha2. injection Ha2 as ->. by destruct b; subst a'. }
      injection Hsk as -> _ ->.
      destruct (reward_of_depleted g rw (l_agents s') i a' Hbat) as [-> ->].
      done.
Qed.

(** ** From [step] to its loops *)

Lemma gen_moves_step_count self c actions :
  gen_moves (set_step_count self c) actions = gen_moves self actions.
Proof. reflexivity. Qed.

Lemma first_eval_inv g rw ags0 moves ags rewards0 s1 :
  apply_moves moves ags0 = (ags, None) ->
  first_eval g rw (mkLocals ags rewards0 ((fun _ => false) <$> ags)
                            (done <$> ags)) = (s1, None) ->
  step_inv g rw ags0 moves s1.
Proof.
  intros [L Hap]%apply_moves_ok (Hag & _ & Lil & _ & Hev)%first_eval_ok.
  simpl in *. split.
  - congruence.
  - rewrite Lil, length_fmap. done.
  - intros i a0 Ha0 Hd. specialize (Hap i a0 Ha0). rewrite Hd in Hap.
    rewrite Hag. split; [done|].
    specialize (Hev i a0 Hap). rewrite Hd in Hev.
    injection Hev as _ -> _. by rewrite list_lookup_fmap, Hap.
  - intros i a0 Ha0 Hd. specialize (Hap i a0 Ha0). rewrite Hd in Hap.
    destruct Hap as (mv & Hmv & Ha). exists mv, mv. rewrite Hag. auto.
  - intros i a0 a Ha0 Hd Ha Hne. rewrite Hag in Ha |- *.
    specialize (Hev i a Ha).
    specialize (Hap i a0 Ha0). rewrite Hd in Hap.
    destruct Hap as (mv & Hmv & Ha'). rewrite Ha in Ha'.
    injection Ha' as ->. simpl in Hev. by rewrite Hd in Hev.
  - intros i a0 Ha0 Hd Hb.
    specialize (Hap i a0 Ha0). rewrite Hd in Hap.
    destruct Hap as (mv & Hmv & Ha). specialize (Hev i _ Ha).
    simpl in Hev. rewrite Hd in Hev. injection Hev as -> _ ->.
    by destruct (reward_of_depleted g rw ags i
                   (set_battery (set_pos a0 mv) (battery a0 - 10)) Hb)
      as [-> ->].
Qed.

(** The loops behind a call of [step] that returns. *)
Lemma step_fuel_returns fuel self actions self' rs ds :
  step_fuel fuel self actions = Some (self', Ok (rs, ds)) ->
  exists moves rng s2 ags',
    length actions = length (agents self) /\
    gen_moves self actions = ((moves, rng), None) /\
    step_inv (grid self) (rewards self) (agents self) moves s2 /\
    any (l_illegals s2) = false /\
    finish (grid self) (l_done s2) (l_agents s2) = (ags', None) /\
    rs = l_rewards s2 /\ ds = done <$> ags' /\
    self' = mkWorld ags' (grid self) (col_wind self) rng
                    (step_count self + 1) (max_steps self) (rewards self).
Proof.
  unfold step_fuel. intros H.
  case_bool_decide as Hlen; simpl in H; [|done].
  rewrite gen_moves_step_count in H.
  destruct (gen_moves self actions) as [[moves rng] [e|]] eqn:Hgm; [done|].
  simpl in H.
  destruct (apply_moves moves (agents self)) as [ags [e|]] eqn:Hap; [done|].
  destruct (first_eval _ _ _) as [s1 [e|]] eqn:Hfe; [done|].
  destruct (solve_conflicts _ _ _ _ _) as [[s2 [e|]]|] eqn:Hsc; [done| |done].
  destruct (finish _ _ _) as [ags' [e|]] eqn:Hfin; [done|].
  injection H as <- <- <-.
  exists moves, rng, s2, ags'.
  pose proof (first_eval_inv _ _ _ _ _ _ _ Hap Hfe) as Hinv.
  apply (solve_conflicts_ind
           (step_inv (grid self) (rewards self) (agents self) moves))
    in Hsc as [Hinv2 Hany]; [| apply conflict_pass_inv | done].
  split_and!; done.
Qed.

(** ** C1: agents that are not done end on distinct cells *)

(** When the conflict loop has ended, an agent that is away from its old
    position stands on a free cell of the grid that no other agent of the
    roster occupies. *)
Lemma settled_move_legal g rw ags0 moves s i a0 a :
  step_inv g rw ags0 moves s ->
  any (l_illegals s) = false ->
  ags0 !! i = Some a0 -> done a0 = false ->
  l_agents s !! i = Some a -> pos a ≠ pos a0 ->
  in_bounds g (pos a) = true /\
  item g (pos a).1 (pos a).2 ≠ GridLegend.OBSTACLE /\
  forall j b, j ≠ i -> l_agents s !! j = Some b -> pos b ≠ pos a.
Proof.
  intros Hinv Hany Ha0 Hd Ha Hne.
  pose proof (inv_eval _ _ _ _ _ Hinv i a0 a Ha0 Hd Ha Hne) as Hev.
  injection Hev as _ Hil _.
  pose proof (any_false_lookup _ i Hany) as Hno.
  rewrite Hil in Hno.
  pose proof (reward_of_illegal g rw (l_agents s) i a) as Hiff.
  destruct ((reward_of g rw (l_agents s) i a).1.2); [done|].
  destruct (in_bounds g (pos a)) eqn:Hb.
  - split_and!; [done | |].
    + intros Ho. assert (false = true); [|done]. apply Hiff. auto.
    + intros j b Hj Hb' Hp. assert (false = true); [|done].
      apply Hiff. right. right. eauto.
  - assert (false = true); [|done]. apply Hiff. auto.
Qed.

Lemma finish_pos g dn ags ags' i a' :
  finish g dn ags = (ags', None) ->
  ags' !! i = Some a' ->
  exists a, ags !! i = Some a /\ pos a' = pos a /\
            (done a = true -> a' = a).
Proof.
  intros [L H]%finish_ok Ha'.
  destruct (ags !! i) as [a|] eqn:Ha.
  - exists a. split; [done|]. specialize (H i a Ha).
    destruct (done a).
    + split; intros; congruence.
    + destruct H as (c & d & _ & _ & H). rewrite Ha' in H.
      injection H as ->. split; [|done]. by case_bool_decide.
  - apply lookup_lt_Some in Ha'. apply lookup_ge_None in Ha. lia.
Qed.

(** Where an agent that is not done after the step stood when the conflict
    loop ended. *)
Lemma active_after g rw ags0 moves s ags' i a' :
  step_inv g rw ags0 moves s ->
  finish g (l_done s) (l_agents s) = (ags', None) ->
  ags' !! i = Some a' -> done a' = false ->
  exists a0 a, ags0 !! i = Some a0 /\ done a0 = false /\
    l_agents s !! i = Some a /\ pos a' = pos a /\
    (pos a = pos a0 \/ pos a ≠ pos a0).
Proof.
  intros Hinv Hfin Ha' Hd'.
  destruct (finish_pos _ _ _ _ _ _ Hfin Ha') as (a & Ha & Hp & Hsame).
  destruct (ags0 !! i) as [a0|] eqn:Ha0.
  - exists a0, a. destruct (done a0) eqn:Hd0.
    + destruct (inv_done _ _ _ _ _ Hinv i a0 Ha0 Hd0) as [Ha1 _].
      simplify_eq. specialize (Hsame Hd0). congruence.
    + split_and!; try done. destruct (decide (pos a = pos a0)); auto.
  - apply lookup_lt_Some in Ha. apply lookup_ge_None in Ha0.
    rewrite (inv_length _ _ _ _ _ Hinv) in Ha. lia.
Qed.

(** C1: if the agents that are not done stand on pairwise distinct cells
    when [step] is called, then, when [step] returns, the agents that are
    not done stand on pairwise distinct cells. *)
Theorem step_keeps_agents_apart self actions self' out :
  apart (agents self) ->
  step self actions = Some (self', Ok out) ->
  apart (agents self').
Proof.
  intros Hap Hstep. destruct out as [rs ds].
  apply step_fuel_returns in Hstep
    as (moves & rng & s & ags' & _ & _ & Hinv & Hany & Hfin & _ & _ & ->).
  simpl. intros i j a' b' Hij Ha' Hb' Hda Hdb Heq.
  destruct (active_after _ _ _ _ _ _ _ _ Hinv Hfin Ha' Hda)
    as (a0 & a & Ha0 & Hd0 & Ha & Hpa & Hca).
  destruct (active_after _ _ _ _ _ _ _ _ Hinv Hfin Hb' Hdb)
    as (b0 & b & Hb0 & Hdb0 & Hb & Hpb & Hcb).
  destruct Hca as [Hca|Hca].
  - destruct Hcb as [Hcb|Hcb].
    + apply (Hap i j a0 b0); try done. congruence.
    + destruct (settled_move_legal _ _ _ _ _ _ _ _ Hinv Hany Hb0 Hdb0 Hb Hcb)
        as (_ & _ & Hfree).
      apply (Hfree i a); [done | done | congruence].
  - destruct (settled_move_legal _ _ _ _ _ _ _ _ Hinv Hany Ha0 Hd0 Ha Hca)
      as (_ & _ & Hfree).
    apply (Hfree j b); [done | done | congruence].
Qed.

(** ** C2 and C10: the battery *)

(** What a returning [step] makes of an agent that was not done. *)
Lemma step_returns_active self actions self' rs ds i a :
  step self actions = Some (self', Ok (rs, ds)) ->
  agents self !! i = Some a -> done a = false ->
  exists mv p c d,
    (p = pos a \/ p = mv) /\
    grid_getitem (grid self) p = Ok c /\
    agents self' !! i =
      Some (set_done (if bool_decide (c = GridLegend.GCS)
                      then set_battery (set_pos (moved a mv) p) BATTERY
                      else set_pos (moved a mv) p) d) /\
    ds !! i = Some d /\
    (battery a - 10 <= 0 ->
     d = true /\ rs !! i = Some (battery_depleted (rewards self))).
Proof.
  intros Hstep Ha Hd.
  apply step_fuel_returns in Hstep
    as (moves & rng & s & ags' & _ & _ & Hinv & Hany & Hfin & -> & -> & ->).
  destruct (inv_active _ _ _ _ _ Hinv i a Ha Hd) as (mv & p & Hmv & Hs & Hp).
  apply finish_ok in Hfin as [_ Hfin]. specialize (Hfin _ _ Hs).
  simpl in Hfin. rewrite Hd in Hfin. destruct Hfin as (c & d & Hc & Hdn & Ha').
  exists mv, p, c, d. simpl. split_and!; try done.
  - rewrite list_lookup_fmap, Ha'. simpl. by case_bool_decide.
  - intros Hb. destruct (inv_depleted _ _ _ _ _ Hinv i a Ha Hd Hb) as [Hr Hd'].
    split; congruence.
Qed.

Lemma step_returns_done self actions self' out i a :
  step self actions = Some (self', Ok out) ->
  agents self !! i = Some a -> done a = true ->
  agents self' !! i = Some a.
Proof.
  intros Hstep Ha Hd. destruct out as [rs ds].
  apply step_fuel_returns in Hstep
    as (moves & rng & s & ags' & _ & _ & Hinv & Hany & Hfin & -> & -> & ->).
  destruct (inv_done _ _ _ _ _ Hinv i a Ha Hd) as [Hs _].
  apply finish_ok in Hfin as [_ Hfin]. specialize (Hfin _ _ Hs).
  by rewrite Hd in Hfin.
Qed.

Lemma step_returns_length self actions self' out :
  step self actions = Some (self', Ok out) ->
  length (agents self') = length (agents self).
Proof.
  intros Hstep. destruct out as [rs ds].
  apply step_fuel_returns in Hstep
    as (moves & rng & s & ags' & _ & _ & Hinv & Hany & Hfin & -> & -> & ->).
  apply finish_ok in Hfin as [L _]. simpl. rewrite L.
  apply (inv_length _ _ _ _ _ Hinv).
Qed.

Lemma battery_ok_step self actions self' out :
  Forall battery_ok (agents self) ->
  step self actions = Some (self', Ok out) ->
  Forall battery_ok (agents self').
Proof.
  rewrite !Forall_lookup. intros Hok Hstep i a' Ha'. destruct out as [rs ds].
  destruct (agents self !! i) as [a|] eqn:Ha.
  - pose proof (Hok i a Ha) as (Hrange & Hdiv & Hpos).
    destruct (done a) eqn:Hd.
    + rewrite (step_returns_done _ _ _ _ _ _ Hstep Ha Hd) in Ha'.
      injection Ha' as <-. by apply Hok in Ha.
    + destruct (step_returns_active _ _ _ _ _ _ _ Hstep Ha Hd)
        as (mv & p & c & d & _ & _ & Hnew & _ & Hdep).
      rewrite Hnew in Ha'. injection Ha' as <-.
      specialize (Hpos eq_refl). destruct Hdiv as [q Hq].
      unfold battery_ok, BATTERY in *.
      case_bool_decide; simpl.
      * split_and!; [lia | lia | by exists 15 | lia].
      * split_and!; [lia | lia | exists (q - 1); lia |].
        intros ->. destruct (decide (battery a - 10 <= 0)) as [Hb|Hb]; [|lia].
        by destruct (Hdep Hb).
  - apply lookup_lt_Some in Ha'. apply lookup_ge_None in Ha.
    rewrite (step_returns_length _ _ _ _ Hstep) in Ha'. lia.
Qed.

Lemma battery_ok_reset self new_grid starts_goals :
  Forall battery_ok (agents (reset self new_grid starts_goals)).
Proof.
  unfold reset. simpl. apply Forall_fmap, Forall_forall. intros a _.
  unfold battery_ok, reset_agent. simpl. unfold BATTERY.
  split_and!; [lia | lia | by exists 15 | lia].
Qed.

Lemma reachable_battery_ok self :
  reachable self -> Forall battery_ok (agents self).
Proof.
  induction 1 as [self g sg | self actions self' out _ IH Hstep].
  - apply battery_ok_reset.
  - by eapply battery_ok_step.
Qed.

(** C2: in every environment of an episode the battery of every agent lies
    in [0, 150]; an evaluation that finds the battery at or below 0 yields the
    [battery_depleted] reward and [done], whatever outcome the position alone
    gives; and an agent whose battery the step drains to 0 or below gets that
    reward and is done when [step] returns. *)
Theorem battery_bounded_and_depletion_overrides self :
  reachable self ->
  (forall a, a ∈ agents self -> 0 <= battery a <= 150) /\
  (forall ags i a,
     battery a <= 0 ->
     (reward_of (grid self) (rewards self) ags i a).1.1
       = battery_depleted (rewards self) /\
     (reward_of (grid self) (rewards self) ags i a).2 = true) /\
  (forall actions self' rs ds i a,
     step self actions = Some (self', Ok (rs, ds)) ->
     agents self !! i = Some a -> done a = false ->
     battery a - 10 <= 0 ->
     rs !! i = Some (battery_depleted (rewards self)) /\
     ds !! i = Some true /\
     exists a', agents self' !! i = Some a' /\ done a' = true /\
                0 <= battery a' <= 150).
Proof.
  intros Hreach. pose proof (reachable_battery_ok _ Hreach) as Hok.
  split_and!.
  - intros a Ha. rewrite Forall_forall in Hok. by destruct (Hok a Ha).
  - intros ags i a. apply reward_of_depleted.
  - intros actions self' rs ds i a Hstep Ha Hd Hb.
    destruct (step_returns_active _ _ _ _ _ _ _ Hstep Ha Hd)
      as (mv & p & c & d & _ & _ & Hnew & Hds & Hdep).
    destruct (Hdep Hb) as [-> Hr]. split_and!; try done.
    eexists. split; [done|].
    pose proof (battery_ok_step _ _ _ _ Hok Hstep) as Hok'.
    rewrite Forall_lookup in Hok'. destruct (Hok' _ _ Hnew) as [Hrange _].
    split; [by case_bool_decide | exact Hrange].
Qed.

(** C10: an agent that is not done, whose battery the step drains to 0 and
    whose resolved position is a charging station, leaves the step with a
    full battery and is nevertheless done, with the [battery_depleted]
    reward. *)
Theorem recharge_does_not_cancel_depletion self actions self' rs ds i a a' :
  step self actions = Some (self', Ok (rs, ds)) ->
  agents self !! i = Some a -> done a = false ->
  battery a - 10 <= 0 ->
  agents self' !! i = Some a' ->
  grid_getitem (grid self) (pos a') = Ok GridLegend.GCS ->
  battery a' = BATTERY /\ done a' = true /\
  rs !! i = Some (battery_depleted (rewards self)) /\
  ds !! i = Some true.
Proof.
  intros Hstep Ha Hd Hb Ha' Hgcs.
  destruct (step_returns_active _ _ _ _ _ _ _ Hstep Ha Hd)
    as (mv & p & c & d & _ & Hc & Hnew & Hds & Hdep).
  destruct (Hdep Hb) as [-> Hr].
  rewrite Hnew in Ha'. injection Ha' as <-.
  assert (c = GridLegend.GCS) as ->.
  { case_bool_decide; simpl in Hgcs; congruence. }
  rewrite bool_decide_eq_true_2 by done. done.
Qed.

(** ** C5: the conflict loop terminates *)

Lemma filter_length_lt {A : Type} (P Q : A -> Prop)
    `{forall x, Decision (P x)} `{forall x, Decision (Q x)} (l : list A) x0 :
  (forall x, x ∈ l -> P x -> Q x) ->
  x0 ∈ l -> Q x0 -> ¬ P x0 ->
  (length (filter P l) < length (filter Q l))%nat.
Proof.
  intros Hsub Hin HQ HP.
  assert (filter P l = filter P (filter Q l)) as ->.
  { clear Hin. induction l as [|x l IH]; [done|].
    rewrite !filter_cons.
    assert (forall y, y ∈ l -> P y -> Q y) as Hsub'.
    { intros y Hy. apply Hsub. by right. }
    destruct (decide (Q x)) as [Hq|Hq].
    - rewrite filter_cons. destruct (decide (P x)); by rewrite <- IH.
    - destruct (decide (P x)) as [Hp|Hp]; [|by apply IH].
      destruct Hq. apply Hsub; [by left | done]. }
  apply (length_filter_lt _ _ x0); [|done].
  by apply list_elem_of_filter.
Qed.

Lemma skipped_at_old old_pos i a p :
  old_pos !! i = Some p -> skipped old_pos i (set_pos a p) = true.
Proof.
  intros Hp. unfold skipped. simpl.
  rewrite (bool_decide_eq_true_2 _ Hp). apply orb_true_r.
Qed.

(** A pass flags only agents that were eligible before it, and takes every
    agent it flags out of the eligible set. *)
Lemma conflict_pass_eligible g rw old_pos s s' :
  conflict_pass g rw old_pos s = (s', None) ->
  (forall i, eligible old_pos s' i = true -> eligible old_pos s i = true) /\
  (length (l_illegals s) = length (l_agents s) ->
   forall i, l_illegals s' !! i = Some true ->
     (i < length (l_agents s))%nat /\
     eligible old_pos s i = true /\ eligible old_pos s' i = false).
Proof.
  intros (L & Lil & Hge & Hlt)%conflict_pass_ok.
  assert (forall i a' (b' : bool),
    l_agents s' !! i = Some a' -> l_illegals s' !! i = Some b' ->
    skipped old_pos i a' = false ->
    l_agents s !! i = Some a' /\ l_illegals s !! i = Some false) as Hkeep.
  { intros i a' b' Ha' Hb' Hsk.
    destruct (Hlt i) as (a & b & a1 & Ha & Hb & Ha1 & Hrel & _).
    { rewrite <- L. by eapply lookup_lt_Some. }
    simplify_eq. destruct b; [|by subst].
    destruct Hrel as (p & Hp & ->).
    by rewrite (skipped_at_old _ _ _ _ Hp) in Hsk. }
  split.
  - intros i. unfold eligible.
    destruct (l_agents s' !! i) as [a'|] eqn:Ha'; [|done].
    destruct (l_illegals s' !! i) as [b'|] eqn:Hb'; [|done].
    intros [Hsk Hb]%andb_true_iff. apply negb_true_iff in Hsk.
    destruct (Hkeep i a' b' Ha' Hb' Hsk) as [-> ->]. by rewrite Hsk.
  - intros Hlen i Hi.
    assert (i < length (l_agents s))%nat as Hik.
    { destruct (decide (i < length (l_agents s))%nat); [done|].
      rewrite Hge in Hi by lia. apply lookup_lt_Some in Hi. lia. }
    split; [done|].
    destruct (Hlt i Hik) as (a & b & a' & Ha & Hb & Ha' & Hrel & Hsk).
    destruct (skipped old_pos i a') eqn:Hs.
    { destruct Hsk as (_ & Hf & _). congruence. }
    destruct (Hkeep i a' true Ha' Hi Hs) as [Ha2 Hb2].
    unfold eligible. rewrite Ha2, Hb2, Ha', Hi, Hs. done.
Qed.

Lemma eligible_set_shrinks g rw old_pos s s' :
  conflict_pass g rw old_pos s = (s', None) ->
  length (l_illegals s) = length (l_agents s) ->
  any (l_illegals s') = true ->
  (length (eligible_set old_pos s') < length (eligible_set old_pos s))%nat.
Proof.
  intros Hp Hlen Hany.
  pose proof (conflict_pass_ok _ _ _ _ _ Hp) as (L & _).
  destruct (conflict_pass_eligible _ _ _ _ _ Hp) as [Hsub Hflag].
  apply any_true_lookup in Hany as [i0 Hi0].
  destruct (Hflag Hlen i0 Hi0) as (Hlt & Hin & Hout).
  unfold eligible_set. rewrite L.
  apply (filter_length_lt _ _ _ i0).
  - intros i _. apply Hsub.
  - apply elem_of_seq. lia.
  - done.
  - congruence.
Qed.

Lemma passes_bound_le old_pos s :
  length (l_illegals s) = length (l_agents s) ->
  (passes_bound old_pos s <= length (l_agents s))%nat.
Proof.
  intros Hlen. unfold passes_bound.
  destruct (any (l_illegals s)) eqn:Hany; [|lia].
  apply any_true_lookup in Hany as [i0 Hi0].
  pose proof (lookup_lt_Some _ _ _ Hi0) as Hlt.
  unfold eligible_set.
  pose proof (length_filter_lt (fun i => eligible old_pos s i = true)
                (seq 0 (length (l_agents s))) i0) as H.
  rewrite length_seq in H. apply H.
  - apply elem_of_seq. lia.
  - unfold eligible. rewrite Hi0.
    destruct (l_agents s !! i0); [|done]. by rewrite andb_false_r.
Qed.

Lemma solve_conflicts_enough fuel g rw old_pos s :
  length (l_illegals s) = length (l_agents s) ->
  (passes_bound old_pos s <= fuel)%nat ->
  is_Some (solve_conflicts fuel g rw old_pos s).
Proof.
  revert s. induction fuel as [|fuel IH]; intros s Hlen Hb; simpl.
  - unfold passes_bound in Hb.
    destruct (any (l_illegals s)); [lia | by eexists].
  - destruct (any (l_illegals s)) eqn:Hany; [|by eexists].
    destruct (conflict_pass g rw old_pos s) as [s' [e|]] eqn:Hp; [by eexists|].
    pose proof (conflict_pass_ok _ _ _ _ _ Hp) as (L & Lil & _).
    apply IH; [congruence|].
    unfold passes_bound in *. rewrite Hany in Hb.
    destruct (any (l_illegals s')) eqn:Hany'; [|lia].
    pose proof (eligible_set_shrinks _ _ _ _ _ Hp Hlen Hany'). lia.
Qed.

(** More fuel than needed does not change the result. *)
Lemma solve_conflicts_more_fuel fuel fuel' g rw old_pos s r :
  solve_conflicts fuel g rw old_pos s = Some r ->
  (fuel <= fuel')%nat ->
  solve_conflicts fuel' g rw old_pos s = Some r.
Proof.
  revert fuel' s. induction fuel as [|fuel IH]; intros fuel' s Hrun Hle.
  - simpl in Hrun. destruct (any (l_illegals s)) eqn:Hany; [done|].
    destruct fuel'; simpl; by rewrite Hany.
  - destruct fuel' as [|fuel']; [lia|]. simpl in *.
    destruct (any (l_illegals s)); [|done].
    destruct (conflict_pass g rw old_pos s) as [s' [e|]]; [done|].
    apply IH; [done | lia].
Qed.

(** [step] always comes to an end: as many passes as there are agents are
    enough for its conflict loop. *)
Lemma step_total self actions : is_Some (step self actions).
Proof.
  unfold step, step_fuel.
  case_bool_decide as Hlen; simpl; [|by eexists].
  rewrite gen_moves_step_count.
  destruct (gen_moves self actions) as [[moves rng] [e|]]; [by eexists|].
  simpl.
  destruct (apply_moves moves (agents self)) as [ags [e|]] eqn:Hap;
    [by eexists|].
  destruct (first_eval _ _ _) as [s1 [e|]] eqn:Hfe; [by eexists|].
  apply apply_moves_ok in Hap as [L _].
  apply first_eval_ok in Hfe as (Hag & _ & Lil & _). simpl in *.
  rewrite length_fmap in Lil.
  destruct (solve_conflicts_enough (length (agents self)) (grid self)
              (rewards self) (pos <$> agents self) s1) as [[s2 e] Hs].
  - congruence.
  - rewrite <- L, <- Hag. apply passes_bound_le. congruence.
  - rewrite Hs. destruct e; [by eexists|].
    destruct (finish _ _ _) as [ags' [e|]]; by eexists.
Qed.

(** C5: the conflict loop of [step] terminates, within as many passes as
    there are agents.  An agent standing on its recorded old position is not
    evaluated again by a pass: it keeps its position, its reward and its done
    entry, and is not flagged.  The agents a pass can flag are among those
    the pass before could flag, and whenever a pass leaves a flag set, so
    that another pass follows, they are strictly fewer. *)
Theorem conflict_loop_terminates self actions g rw old_pos s :
  length (l_illegals s) = length (l_agents s) ->
  is_Some (step self actions) /\
  (exists r, solve_conflicts (length (l_agents s)) g rw old_pos s = Some r /\
     forall fuel, (length (l_agents s) <= fuel)%nat ->
       solve_conflicts fuel g rw old_pos s = Some r) /\
  (forall s', conflict_pass g rw old_pos s = (s', None) ->
     (forall i a, l_agents s !! i = Some a -> old_pos !! i = Some (pos a) ->
        l_agents s' !! i = Some a /\ l_illegals s' !! i = Some false /\
        l_rewards s' !! i = l_rewards s !! i /\
        l_done s' !! i = l_done s !! i) /\
     (forall i, eligible old_pos s' i = true -> eligible old_pos s i = true) /\
     (any (l_illegals s') = true ->
      (length (eligible_set old_pos s') < length (eligible_set old_pos s))%nat)).
Proof.
  intros Hlen. split_and!.
  - apply step_total.
  - destruct (solve_conflicts_enough (length (l_agents s)) g rw old_pos s Hlen)
      as [r Hr]; [by apply passes_bound_le|].
    exists r. split; [done|]. intros fuel Hle.
    by eapply solve_conflicts_more_fuel.
  - intros s' Hp. split_and!.
    + intros i a Ha Hold.
      pose proof (conflict_pass_ok _ _ _ _ _ Hp) as (_ & _ & _ & Hlt).
      destruct (Hlt i) as (a1 & b & a' & Ha1 & Hb & Ha' & Hrel & Hsk).
      { by eapply lookup_lt_Some. }
      simplify_eq.
      assert (a' = a) as ->.
      { destruct b; [|done]. destruct Hrel as (p & Hp' & ->).
        rewrite Hold in Hp'. injection Hp' as <-. apply set_pos_id. }
      assert (skipped old_pos i a = true) as Hs.
      { unfold skipped. rewrite (bool_decide_eq_true_2 _ Hold).
        apply orb_true_r. }
      rewrite Hs in Hsk. tauto.
    + by destruct (conflict_pass_eligible _ _ _ _ _ Hp).
    + intros Hany. by eapply eligible_set_shrinks.
Qed.

(** ** C8: agents that are done are left alone

    These lemmas hold whether the loops raise or not. *)

Lemma roster_loop_frozen body k (ags : list GridworldAgent) i a :
  (forall j t, (body j t).1 = t \/
     exists x y, t !! j = Some x /\ done x = false /\
                 (body j t).1 = <[j:=y]> t) ->
  ags !! i = Some a -> done a = true ->
  (for_range_exn k body ags).1 !! i = Some a.
Proof.
  intros Hbody Ha Hd.
  apply (for_range_exn_any_ind (fun t => t !! i = Some a)); [done|].
  intros j t _ Ht. destruct (Hbody j t) as [->|(x & y & Hx & Hdx & ->)]; [done|].
  destruct (decide (j = i)) as [->|Hne]; [congruence|].
  by rewrite list_lookup_insert_ne.
Qed.

Lemma apply_moves_frozen moves ags i a :
  ags !! i = Some a -> done a = true ->
  (apply_moves moves ags).1 !! i = Some a.
Proof.
  apply roster_loop_frozen. intros j t. unfold apply_moves_body.
  destruct (t !! j) as [x|] eqn:Hx; [|by left].
  destruct (done x) eqn:Hd; [by left|].
  destruct (moves !! j); [|by left]. right. by eexists _, _.
Qed.

Lemma finish_frozen g dn ags i a :
  ags !! i = Some a -> done a = true ->
  (finish g dn ags).1 !! i = Some a.
Proof.
  apply roster_loop_frozen. intros j t. unfold finish_body.
  destruct (t !! j) as [x|] eqn:Hx; [|by left].
  destruct (done x) eqn:Hd; [by left|].
  destruct (grid_getitem g (pos x)); [|by left].
  destruct (dn !! j); right; by eexists _, _.
Qed.

Lemma assign_reward_frame g rw i s :
  l_agents (assign_reward g rw i s).1 = l_agents s /\
  forall j, j ≠ i ->
    l_illegals (assign_reward g rw i s).1 !! j = l_illegals s !! j.
Proof.
  unfold assign_reward.
  destruct (_reward_agent g rw (l_agents s) i) as [[[r ill] d]|]; [|done].
  destruct (setitem (l_rewards s) i r) as [rs|]; [|done]. simpl.
  destruct (setitem (l_illegals s) i ill) as [ils|] eqn:H2; [|done].
  apply setitem_Some in H2 as [_ ->]. simpl.
  destruct (setitem (l_done s) i d); simpl; (split; [done|]);
    intros j Hj; by rewrite list_lookup_insert_ne.
Qed.

Lemma eval_body_frozen (body : nat -> locals -> locals * option exn)
    g rw ags0 j t :
  (body j t).1 = t \/
  (exists x, l_agents t !! j = Some x /\ done x = false /\
             (body j t).1 = (assign_reward g rw j t).1) ->
  frozen ags0 t -> frozen ags0 (body j t).1.
Proof.
  intros [->|(x & Hx & Hdx & ->)] Hfr; [done|].
  destruct (assign_reward_frame g rw j t) as [Hag Hil].
  intros i a Ha Hd. destruct (Hfr i a Ha Hd) as [Hi Hf].
  rewrite Hag. split; [done|]. rewrite Hil; [done|]. congruence.
Qed.

Lemma first_eval_frozen g rw ags0 s :
  frozen ags0 s -> frozen ags0 (first_eval g rw s).1.
Proof.
  intros Hfr. apply (for_range_exn_any_ind (frozen ags0)); [done|].
  intros j t _. apply (eval_body_frozen _ g rw). unfold first_eval_body.
  destruct (l_agents t !! j) as [x|]; [|by left].
  destruct (done x) eqn:Hd; [by left|]. right. by exists x.
Qed.

Lemma cancel_body_frozen ags0 old_pos j t :
  frozen ags0 t -> frozen ags0 (cancel_body old_pos j t).1.
Proof.
  intros Ht. unfold cancel_body.
  destruct (l_illegals t !! j) as [[|]|] eqn:Hb; try done.
  destruct (old_pos !! j); [|done]. destruct (l_agents t !! j); [|done].
  intros i a Ha Hd. simpl. destruct (Ht i a Ha Hd) as [Hi Hf].
  assert (j ≠ i) by congruence.
  by rewrite !list_lookup_insert_ne.
Qed.

Lemma conflict_pass_frozen g rw ags0 old_pos s :
  frozen ags0 s -> frozen ags0 (conflict_pass g rw old_pos s).1.
Proof.
  intros Hfr. unfold conflict_pass.
  assert (frozen ags0
            (for_range_exn (length (l_agents s)) (cancel_body old_pos) s).1)
    as Hc.
  { apply (for_range_exn_any_ind (frozen ags0)); [done|].
    intros j t _. apply cancel_body_frozen. }
  destruct (for_range_exn (length (l_agents s)) (cancel_body old_pos) s)
    as [s1 [e|]]; simpl in Hc; [done|].
  apply (for_range_exn_any_ind (frozen ags0)); [done|].
  intros j t _. apply (eval_body_frozen _ g rw). unfold reeval_body.
  destruct (l_agents t !! j) as [x|]; [|by left].
  destruct (done x) eqn:Hd; [by left|].
  destruct (old_pos !! j); [|by left].
  case_bool_decide; [by left|]. right. by exists x.
Qed.

Lemma solve_conflicts_frozen fuel g rw ags0 old_pos s r :
  frozen ags0 s ->
  solve_conflicts fuel g rw old_pos s = Some r ->
  frozen ags0 r.1.
Proof.
  revert s. induction fuel as [|fuel IH]; intros s Hfr Hrun; simpl in Hrun;
    destruct (any (l_illegals s)); simplify_eq; try done.
  pose proof (conflict_pass_frozen g rw ags0 old_pos s Hfr) as Hp.
  destruct (conflict_pass g rw old_pos s) as [s1 [e|]]; simpl in Hp.
  - by simplify_eq.
  - by eapply IH.
Qed.

(** C8: an agent that is done when [step] is called is the same agent when
    the call ends, by a return or by an exception: same position, same
    battery, still done. *)
Theorem done_agents_unchanged self actions self' out i a :
  step self actions = Some (self', out) ->
  agents self !! i = Some a -> done a = true ->
  agents self' !! i = Some a /\
  (forall a', agents self' !! i = Some a' ->
     pos a' = pos a /\ battery a' = battery a /\ done a' = true).
Proof.
  intros Hstep Ha Hd.
  cut (agents self' !! i = Some a).
  { intros H. split; [done|]. intros a' Ha'. by simplify_eq. }
  unfold step, step_fuel in Hstep.
  case_bool_decide as Hlen; simpl in Hstep; [|by simplify_eq].
  rewrite gen_moves_step_count in Hstep.
  destruct (gen_moves self actions) as [[moves rng] [e|]];
    [by simplify_eq|]. simpl in Hstep.
  pose proof (fun j b => apply_moves_frozen moves (agents self) j b) as Hap.
  destruct (apply_moves moves (agents self)) as [ags [e|]]; simpl in Hap.
  { injection Hstep as <- _. simpl. by apply Hap. }
  assert (frozen (agents self)
            (mkLocals ags (replicate (length actions) (Qmake 0 1))
                      ((fun _ => false) <$> ags) (done <$> ags))) as Hfr0.
  { intros j b Hb Hdb. simpl. split; [by apply Hap|].
    by rewrite list_lookup_fmap, (Hap j b Hb Hdb). }
  pose proof (first_eval_frozen (grid self) (rewards self) _ _ Hfr0) as Hfr1.
  destruct (first_eval _ _ _) as [s1 [e|]]; simpl in Hfr1.
  { injection Hstep as <- _. simpl. by apply Hfr1. }
  destruct (solve_conflicts _ _ _ _ _) as [[s2 e]|] eqn:Hsc; [|done].
  pose proof (solve_conflicts_frozen _ _ _ _ _ _ _ Hfr1 Hsc) as Hfr2.
  simpl in Hfr2. destruct (Hfr2 i a Ha Hd) as [Hs2 _].
  destruct e as [e|].
  { injection Hstep as <- _. done. }
  pose proof (finish_frozen (grid self) (l_done s2) _ _ _ Hs2 Hd) as Hfin.
  destruct (finish _ _ _) as [ags' [e|]]; simpl in Hfin;
    injection Hstep as <- _; done.
Qed.

(** ** C9: the step counter *)

Lemma gen_moves_counters ags g cw rs c m c' m' rw actions :
  gen_moves (mkWorld ags g cw rs c m rw) actions =
  gen_moves (mkWorld ags g cw rs c' m' rw) actions.
Proof. reflexivity. Qed.

(** [step] never reads [step_count] or [max_steps]. *)
Lemma step_fuel_counters fuel self actions c m :
  step_fuel fuel (set_max_steps (set_step_count self c) m) actions =
  (fun r => (set_max_steps (set_step_count r.1 (c + 1)) m, r.2))
    <$> step_fuel fuel self actions.
Proof.
  destruct self as [ags g cw rs c0 m0 rw].
  unfold step_fuel, set_max_steps, set_step_count, set_np_random, set_agents.
  simpl. case_bool_decide; simpl; [|done].
  rewrite (gen_moves_counters ags g cw rs (c + 1) m (c0 + 1) m0).
  destruct (gen_moves _ actions) as [[moves rng] [e|]]; simpl; [done|].
  destruct (apply_moves moves ags) as [ags1 [e|]]; simpl; [done|].
  destruct (first_eval _ _ _) as [s1 [e|]]; simpl; [done|].
  destruct (solve_conflicts _ _ _ _ _) as [[s2 [e|]]|]; simpl; try done.
  destruct (finish _ _ _) as [ags' [e|]]; simpl; done.
Qed.

Lemma step_fuel_step_count fuel self actions r :
  step_fuel fuel self actions = Some r ->
  step_count r.1 = step_count self + 1 /\ max_steps r.1 = max_steps self.
Proof.
  unfold step_fuel. intros H.
  case_bool_decide; simpl in H; [|by simplify_eq].
  destruct (gen_moves _ actions) as [[moves rng] [e|]]; simpl in H;
    [by simplify_eq|].
  destruct (apply_moves _ _) as [ags1 [e|]]; simpl in H; [by simplify_eq|].
  destruct (first_eval _ _ _) as [s1 [e|]]; simpl in H; [by simplify_eq|].
  destruct (solve_conflicts _ _ _ _ _) as [[s2 [e|]]|]; simpl in H;
    [by simplify_eq| |done].
  destruct (finish _ _ _) as [ags' [e|]]; by simplify_eq.
Qed.

(** C9: every call of [step], whether it returns or raises, leaves the step
    counter one higher and the step budget as it was; and the call does the
    same whatever the counter and the budget are: with any other values of
    [step_count] and [max_steps] the agents, the random stream, the rewards,
    the done flags and the exception are the same, so no truncation takes
    place. *)
Theorem step_counts_and_ignores_budget self actions c m :
  (fun r => (step_count r.1, max_steps r.1)) <$> step self actions
    = Some (step_count self + 1, max_steps self) /\
  step (set_max_steps (set_step_count self c) m) actions =
    (fun r => (set_max_steps (set_step_count r.1 (c + 1)) m, r.2))
      <$> step self actions.
Proof.
  split.
  - destruct (step_total self actions) as [r Hr]. rewrite Hr. simpl.
    apply step_fuel_step_count in Hr as [-> ->]. done.
  - apply step_fuel_counters.
Qed.

(** ** C7: draws from the random stream *)

Lemma active_snoc ags a :
  active (ags ++ [a]) =
  active ags ++ (if done a then [] else [a]).
Proof.
  unfold active. rewrite filter_app. f_equal.
  rewrite filter_cons, filter_nil. destruct (done a); by case_decide.
Qed.

(** A body of the first loop draws once for an agent that is not done,
    whatever the wind of its row is and whether [trans_function] raises or
    not, and does not draw for an agent that is done. *)
Lemma gen_moves_body_drawn self actions i s a action :
  agents self !! i = Some a -> actions !! i = Some action ->
  stream (gen_moves_body self actions i s).1.2 = stream s.2 /\
  drawn (gen_moves_body self actions i s).1.2 =
    if done a then drawn s.2 else S (drawn s.2).
Proof.
  intros Ha Hact. unfold gen_moves_body. rewrite Ha, Hact.
  destruct (done a); [done|]. simpl.
  destruct (trans_function self (pos a) action (stream s.2 (drawn s.2)));
    [|done].
  by destruct (setitem s.1 i a0).
Qed.

Lemma gen_moves_ok self actions moves rng :
  gen_moves self actions = ((moves, rng), None) ->
  stream rng = stream (np_random self) /\
  drawn rng = (drawn (np_random self) + length (active (agents self)))%nat.
Proof.
  unfold gen_moves. intros Hrun.
  cut (stream rng = stream (np_random self) /\
       drawn rng = (drawn (np_random self) +
                    length (active (take (length (agents self))
                                         (agents self))))%nat).
  { by rewrite firstn_all. }
  apply (for_range_exn_ok_ind
           (fun k (t : list position * RandomState) =>
              stream t.2 = stream (np_random self) /\
              drawn t.2 = (drawn (np_random self) +
                           length (active (take k (agents self))))%nat)
           _ _ _ (moves, rng) Hrun).
  - simpl. split; [done | lia].
  - intros i t t' Hi [Hs Hd] Hb.
    destruct (lookup_lt_is_Some_2 (agents self) i Hi) as [a Ha].
    rewrite (take_S_r _ _ _ Ha), active_snoc, length_app.
    unfold gen_moves_body in Hb. rewrite Ha in Hb.
    destruct (done a).
    { injection Hb as <-. simpl. split; [done | lia]. }
    destruct (actions !! i) as [action|]; [|done]. simpl in Hb.
    destruct (trans_function self (pos a) action _) as [mv|]; [|done].
    destruct (setitem t.1 i mv); [|done].
    injection Hb as <-. simpl. split; [done | lia].
Qed.

(** C7 (amended): [step] draws exactly one sample from the random stream for
    every agent that is not done, whether the wind of the agent's row is zero
    or not, and none for an agent that is done; on a row without wind the
    sample is discarded and the move is the plain move of the action. *)
Theorem one_draw_per_active_agent self actions self' out :
  step self actions = Some (self', Ok out) ->
  drawn (np_random self') =
    (drawn (np_random self) + length (active (agents self)))%nat /\
  (forall i s a action,
     agents self !! i = Some a -> actions !! i = Some action ->
     drawn (gen_moves_body self actions i s).1.2 =
       if done a then drawn s.2 else S (drawn s.2)) /\
  (forall n m noise,
     np_getitem (col_wind self) n = Ok 0 ->
     trans_function self (n, m) LegalActions.up noise = Ok (n - 1, m) /\
     trans_function self (n, m) LegalActions.down noise = Ok (n + 1, m) /\
     trans_function self (n, m) LegalActions.left noise = Ok (n, m - 1) /\
     trans_function self (n, m) LegalActions.right noise = Ok (n, m + 1)).
Proof.
  intros Hstep. destruct out as [rs ds]. split_and!.
  - apply step_fuel_returns in Hstep
      as (moves & rng & s & ags' & _ & Hgm & _ & _ & _ & _ & _ & ->).
    simpl. by apply gen_moves_ok in Hgm as [_ ->].
  - intros i s a action Ha Hact.
    by destruct (gen_moves_body_drawn self actions i s a action Ha Hact).
  - intros n m noise Hw. unfold trans_function. rewrite Hw. simpl.
    rewrite !Z.add_0_r. done.
Qed.

(** ** C3: two agents that exchange cells *)

Lemma swap_proposed_sym ags0 moves i j a b :
  swap_proposed ags0 moves i j a b -> swap_proposed ags0 moves j i b a.
Proof.
  intros (Hij & Ha & Hb & Hda & Hdb & Hab & Hmi & Hmj).
  unfold swap_proposed. split_and!; try done; congruence.
Qed.

Lemma swap_unobstructed_sym g ags0 moves i j a b :
  swap_unobstructed g ags0 moves i j a b ->
  swap_unobstructed g ags0 moves j i b a.
Proof.
  intros (? & ? & ? & ? & H). split_and!; try done.
  intros k c Hj Hi Hc. destruct (H k c Hi Hj Hc) as (? & ? & Hmv).
  split_and!; try done. intros mv Hk. by destruct (Hmv mv Hk).
Qed.

(** The evaluation of [i] on the cell of [j] finds nothing illegal. *)
Lemma swap_target_legal g rw ags0 moves s i j a b x y :
  swap_proposed ags0 moves i j a b ->
  swap_unobstructed g ags0 moves i j a b ->
  step_inv g rw ags0 moves s ->
  l_agents s !! i = Some x -> pos x = pos b ->
  l_agents s !! j = Some y -> pos y = pos a ->
  (reward_of g rw (l_agents s) i x).1.2 = false.
Proof.
  intros (Hij & Ha & Hb & Hda & Hdb & Hab & Hmi & Hmj)
         (Hba & Hbb & Hoa & Hob & Hothers) Hinv Hx Hpx Hy Hpy.
  destruct ((reward_of g rw (l_agents s) i x).1.2) eqn:Hflag; [|done].
  apply reward_of_illegal in Hflag. rewrite Hpx in Hflag.
  destruct Hflag as [Hout | [[_ Hobst] | (k & c & Hk & Hc & Hpc)]].
  - congruence.
  - done.
  - destruct (decide (k = j)) as [->|Hkj]; [congruence|].
    destruct (ags0 !! k) as [c0|] eqn:Hc0.
    + destruct (Hothers k c0 Hk Hkj Hc0) as (_ & Hne & Hmv).
      destruct (done c0) eqn:Hd.
      * destruct (inv_done _ _ _ _ _ Hinv k c0 Hc0 Hd) as [Hc' _]. congruence.
      * destruct (inv_active _ _ _ _ _ Hinv k c0 Hc0 Hd)
          as (mv & p & Hm & Hc' & Hp).
        rewrite Hc in Hc'. injection Hc' as ->. simpl in Hpc.
        destruct Hp as [->| ->]; [done|]. by destruct (Hmv mv Hm).
    + apply lookup_lt_Some in Hc. apply lookup_ge_None in Hc0.
      rewrite (inv_length _ _ _ _ _ Hinv) in Hc. lia.
Qed.

(** One side of [swapped] after a pass. *)
Lemma swapped_side g rw ags0 moves s s' i j a b :
  swap_proposed ags0 moves i j a b ->
  swap_unobstructed g ags0 moves i j a b ->
  step_inv g rw ags0 moves s -> swapped s i j a b ->
  conflict_pass g rw (pos <$> ags0) s = (s', None) ->
  exists x, l_agents s' !! i = Some x /\ pos x = pos b /\ done x = false /\
            evaluated g rw (l_agents s') i x (slot s' i).
Proof.
  intros Hsw Hun Hinv ((x & Hx & Hpx) & _ & Hfi & _) Hp.
  pose proof Hsw as (Hij & Ha & Hb & Hda & Hdb & Hab & Hmi & Hmj).
  apply conflict_pass_ok in Hp as (_ & _ & _ & Hlt).
  destruct (Hlt i) as (x1 & f & x' & Hx1 & Hf & Hx' & Hrel & Hsk).
  { by eapply lookup_lt_Some. }
  simplify_eq.
  destruct (inv_active _ _ _ _ _ Hinv i a Ha Hda) as (mv & p & _ & Hx2 & _).
  rewrite Hx in Hx2. injection Hx2 as ->. simpl in *.
  exists (set_pos (moved a mv) p). split_and!; try done.
  unfold skipped in Hsk. simpl in Hsk. rewrite Hda in Hsk. simpl in Hsk.
  rewrite bool_decide_eq_false_2 in Hsk; [done|].
  rewrite list_lookup_fmap, Ha. simpl. congruence.
Qed.

Lemma swapped_pass g rw ags0 moves s s' i j a b :
  swap_proposed ags0 moves i j a b ->
  swap_unobstructed g ags0 moves i j a b ->
  step_inv g rw ags0 moves s /\ swapped s i j a b ->
  conflict_pass g rw (pos <$> ags0) s = (s', None) ->
  step_inv g rw ags0 moves s' /\ swapped s' i j a b.
Proof.
  intros Hsw Hun [Hinv Hs] Hp.
  pose proof (conflict_pass_inv _ _ _ _ _ _ Hinv Hp) as Hinv'.
  split; [done|].
  destruct (swapped_side _ _ _ _ _ _ _ _ _ _ Hsw Hun Hinv Hs Hp)
    as (x & Hx & Hpx & _ & Hex).
  assert (swapped s j i b a) as Hs'.
  { destruct Hs as (? & ? & ? & ?). by split_and!. }
  destruct (swapped_side _ _ _ _ _ _ _ _ _ _ (swap_proposed_sym _ _ _ _ _ _ Hsw)
              (swap_unobstructed_sym _ _ _ _ _ _ _ Hun) Hinv Hs' Hp)
    as (y & Hy & Hpy & _ & Hey).
  injection Hex as _ Hfx _. injection Hey as _ Hfy _.
  split_and!.
  - by exists x.
  - by exists y.
  - rewrite Hfx. f_equal. by eapply swap_target_legal.
  - rewrite Hfy. f_equal.
    eapply swap_target_legal;
      eauto using swap_proposed_sym, swap_unobstructed_sym.
Qed.

Lemma step_fuel_returns_loops fuel self actions self' rs ds :
  step_fuel fuel self actions = Some (self', Ok (rs, ds)) ->
  exists moves rng ags s1 s2,
    gen_moves self actions = ((moves, rng), None) /\
    apply_moves moves (agents self) = (ags, None) /\
    first_eval (grid self) (rewards self)
      (mkLocals ags (replicate (length actions) (Qmake 0 1))
                ((fun _ => false) <$> ags) (done <$> ags)) = (s1, None) /\
    solve_conflicts fuel (grid self) (rewards self)
      (pos <$> agents self) s1 = Some (s2, None) /\
    finish (grid self) (l_done s2) (l_agents s2) = (agents self', None).
Proof.
  unfold step_fuel. intros H.
  case_bool_decide as Hlen; simpl in H; [|done].
  rewrite gen_moves_step_count in H.
  destruct (gen_moves self actions) as [[moves rng] [e|]] eqn:Hgm; [done|].
  simpl in H.
  destruct (apply_moves moves (agents self)) as [ags [e|]] eqn:Hap; [done|].
  destruct (first_eval _ _ _) as [s1 [e|]] eqn:Hfe; [done|].
  destruct (solve_conflicts _ _ _ _ _) as [[s2 [e|]]|] eqn:Hsc; [done| |done].
  destruct (finish _ _ _) as [ags' [e|]] eqn:Hfin; [done|].
  injection H as <- <- <-. by exists moves, rng, ags, s1, s2.
Qed.

Lemma finish_pos_fwd g dn ags ags' i x :
  finish g dn ags = (ags', None) ->
  ags !! i = Some x ->
  exists a', ags' !! i = Some a' /\ pos a' = pos x.
Proof.
  intros [_ H]%finish_ok Hx. specialize (H i x Hx). destruct (done x).
  - by exists x.
  - destruct H as (c & d & _ & _ & H). eexists. split; [done|].
    by case_bool_decide.
Qed.

(** C3 (amended): two agents that are not done and propose each other's
    cell are not in conflict with one another.  When both cells are cells of
    the grid without an obstacle and no third agent stands on or proposes
    either of them, neither move is reverted: when [step] returns the two
    agents have exchanged their cells. *)
Theorem swap_is_not_a_conflict self actions self' out moves rng i j a b :
  step self actions = Some (self', Ok out) ->
  gen_moves self actions = ((moves, rng), None) ->
  swap_proposed (agents self) moves i j a b ->
  swap_unobstructed (grid self) (agents self) moves i j a b ->
  exists a' b', agents self' !! i = Some a' /\ agents self' !! j = Some b' /\
    pos a' = pos b /\ pos b' = pos a.
Proof.
  intros Hstep Hgm Hsw Hun. destruct out as [rs ds].
  apply step_fuel_returns_loops in Hstep
    as (moves' & rng' & ags & s1 & s2 & Hgm' & Hap & Hfe & Hsc & Hfin).
  rewrite Hgm in Hgm'. injection Hgm' as <- <-.
  pose proof (first_eval_inv _ _ _ _ _ _ _ Hap Hfe) as Hinv.
  assert (forall i j a b,
    swap_proposed (agents self) moves i j a b ->
    exists x, l_agents s1 !! i = Some x /\ pos x = pos b /\
      l_illegals s1 !! i =
        Some (reward_of (grid self) (rewards self) (l_agents s1) i x).1.2)
    as Hside.
  { intros i' j' a0 b0 (_ & Ha & _ & Hda & _ & _ & Hmi & _).
    apply apply_moves_ok in Hap as [_ Hap]. specialize (Hap i' a0 Ha).
    rewrite Hda in Hap. destruct Hap as (mv & Hmv & Hx).
    apply first_eval_ok in Hfe as (Hag & _ & _ & _ & Hev). simpl in *.
    specialize (Hev i' _ Hx). simpl in Hev. rewrite Hda in Hev.
    injection Hev as _ Hev _. rewrite Hag. eexists. split; [done|].
    split; [simpl; congruence | done]. }
  destruct (Hside i j a b Hsw) as (x & Hx & Hpx & Hfx).
  destruct (Hside j i b a (swap_proposed_sym _ _ _ _ _ _ Hsw))
    as (y & Hy & Hpy & Hfy).
  assert (swapped s1 i j a b) as Hs1.
  { split_and!.
    - by exists x.
    - by exists y.
    - rewrite Hfx. f_equal. by eapply swap_target_legal.
    - rewrite Hfy. f_equal.
      eapply swap_target_legal;
        eauto using swap_proposed_sym, swap_unobstructed_sym. }
  apply (solve_conflicts_ind
           (fun s => step_inv (grid self) (rewards self) (agents self) moves s
                     /\ swapped s i j a b)) in Hsc
    as [[_ ((x2 & Hx2 & Hpx2) & (y2 & Hy2 & Hpy2) & _)] _].
  - destruct (finish_pos_fwd _ _ _ _ _ _ Hfin Hx2) as (a' & Ha' & Hpa').
    destruct (finish_pos_fwd _ _ _ _ _ _ Hfin Hy2) as (b' & Hb' & Hpb').
    exists a', b'. split_and!; congruence.
  - intros t t'. by apply swapped_pass.
  - done.
Qed.

(** ** The claims that fail on the code *)

(** C3 as stated is false: the two neighbours of [two_neighbours] propose
    each other's cell, and neither move is reverted. *)
Lemma swap_reverted_counterexample :
  ¬ (forall self actions self' out moves rng i j a b,
       step self actions = Some (self', Ok out) ->
       gen_moves self actions = ((moves, rng), None) ->
       swap_proposed (agents self) moves i j a b ->
       exists a' b', agents self' !! i = Some a' /\
         agents self' !! j = Some b' /\ pos a' = pos a /\ pos b' = pos b).
Proof.
  intros H.
  destruct (H two_neighbours [1; 0] two_neighbours_swapped
              ([free default_rewards; free default_rewards], [false; false])
              [(0, 1); (0, 0)] (no_noise 2) O (S O)
              (agent_at 0 (0, 0) 150 false) (agent_at 1 (0, 1) 150 false))
    as (a' & b' & Ha' & _ & Hp & _).
  - reflexivity.
  - reflexivity.
  - unfold swap_proposed. simpl. split_and!; done.
  - simpl in Ha'. injection Ha' as <-. discriminate.
Qed.

(** C4 as stated is false: an agent standing on the cell of an agent that is
    done is flagged illegal. *)
Lemma done_agent_blocks_counterexample :
  ¬ (forall g rw ags i a r ill d,
       ags !! i = Some a ->
       _reward_agent g rw ags i = Ok (r, ill, d) ->
       (ill = true <->
        in_bounds g (pos a) = false \/
        (in_bounds g (pos a) = true /\
         item g (pos a).1 (pos a).2 = GridLegend.OBSTACLE) \/
        (exists j b, j ≠ i /\ ags !! j = Some b /\ done b = false /\
                     pos b = pos a))).
Proof.
  intros H.
  destruct (H empty_grid default_rewards
              [agent_at 0 (0, 1) 140 false; agent_at 1 (0, 1) 150 true]
              O (agent_at 0 (0, 1) 140 false)
              (obstacles default_rewards) true false eq_refl eq_refl)
    as [Hwhy _].
  destruct (Hwhy eq_refl) as [Hout | [[_ Hobst] | (j & b & Hj & Hb & Hd & _)]].
  - discriminate.
  - discriminate.
  - destruct j as [|[|j]]; simpl in Hb; [done | | done].
    injection Hb as <-. discriminate.
Qed.

(** C7 as stated is false: on a row without wind the body of the first loop
    still draws a sample. *)
Lemma draw_without_wind_counterexample :
  ¬ (forall self actions i s a action w,
       agents self !! i = Some a -> done a = false ->
       actions !! i = Some action ->
       np_getitem (col_wind self) (pos a).1 = Ok w ->
       drawn (gen_moves_body self actions i s).1.2 =
         if bool_decide (w ≠ 0) then S (drawn s.2) else drawn s.2).
Proof.
  intros H.
  specialize (H two_neighbours [1; 0] O
                ([(0, 0); (0, 1)], no_noise 0)
                (agent_at 0 (0, 0) 150 false) 1 0
                eq_refl eq_refl eq_refl eq_refl).
  discriminate.
Qed.

(** ** The theorems at work on the example worlds *)

Lemma two_neighbours_step :
  step two_neighbours [1; 0] =
  Some (two_neighbours_swapped,
        Ok ([free default_rewards; free default_rewards], [false; false])).
Proof. reflexivity. Defined.

Lemma two_neighbours_apart : apart (agents two_neighbours).
Proof.
  intros i j a b Hij Ha Hb _ _.
  destruct i as [|[|i]], j as [|[|j]]; try done;
    injection Ha as <-; injection Hb as <-; discriminate.
Defined.

Lemma step_keeps_agents_apart_witness :
  apart (agents two_neighbours) /\
  step two_neighbours [1; 0] =
    Some (two_neighbours_swapped,
          Ok ([free default_rewards; free default_rewards], [false; false])) /\
  apart (agents two_neighbours_swapped).
Proof.
  split; [exact two_neighbours_apart|]. split; [exact two_neighbours_step|].
  exact (step_keeps_agents_apart _ _ _ _ two_neighbours_apart
           two_neighbours_step).
Defined.

Lemma reachable_run self episode self' :
  reachable self -> run self episode = Some self' -> reachable self'.
Proof.
  revert self. induction episode as [|actions rest IH]; intros self Hr Hrun;
    simpl in Hrun.
  - by simplify_eq.
  - destruct (step self actions) as [[self1 [out|e]]|] eqn:Hs; try done.
    apply (IH self1); [|done]. by eapply reach_step.
Defined.

Lemma patrol_tired_reachable : reachable patrol_tired.
Proof.
  apply (reachable_run (reset patrol None None) back_and_forth).
  - apply reach_reset.
  - vm_compute. reflexivity.
Defined.

Lemma battery_bounded_and_depletion_overrides_witness :
  reachable patrol_tired /\
  (forall a, a ∈ agents patrol_tired -> 0 <= battery a <= 150) /\
  (forall ags i a,
     battery a <= 0 ->
     (reward_of (grid patrol_tired) (rewards patrol_tired) ags i a).1.1
       = battery_depleted (rewards patrol_tired) /\
     (reward_of (grid patrol_tired) (rewards patrol_tired) ags i a).2 = true) /\
  (forall actions self' rs ds i a,
     step patrol_tired actions = Some (self', Ok (rs, ds)) ->
     agents patrol_tired !! i = Some a -> done a = false ->
     battery a - 10 <= 0 ->
     rs !! i = Some (battery_depleted (rewards patrol_tired)) /\
     ds !! i = Some true /\
     exists a', agents self' !! i = Some a' /\ done a' = true /\
                0 <= battery a' <= 150).
Proof.
  split; [exact patrol_tired_reachable|].
  exact (battery_bounded_and_depletion_overrides _ patrol_tired_reachable).
Defined.

Lemma swap_is_not_a_conflict_witness :
  step two_neighbours [1; 0] =
    Some (two_neighbours_swapped,
          Ok ([free default_rewards; free default_rewards], [false; false])) /\
  gen_moves two_neighbours [1; 0] = (([(0, 1); (0, 0)], no_noise 2), None) /\
  swap_proposed (agents two_neighbours) [(0, 1); (0, 0)] 0 1
    (agent_at 0 (0, 0) 150 false) (agent_at 1 (0, 1) 150 false) /\
  swap_unobstructed empty_grid (agents two_neighbours) [(0, 1); (0, 0)] 0 1
    (agent_at 0 (0, 0) 150 false) (agent_at 1 (0, 1) 150 false) /\
  exists a' b', agents two_neighbours_swapped !! O = Some a' /\
    agents two_neighbours_swapped !! (S O) = Some b' /\
    pos a' = (0, 1) /\ pos b' = (0, 0).
Proof.
  assert (swap_proposed (agents two_neighbours) [(0, 1); (0, 0)] 0 1
            (agent_at 0 (0, 0) 150 false) (agent_at 1 (0, 1) 150 false))
    as Hsw.
  { unfold swap_proposed. simpl. split_and!; done. }
  assert (swap_unobstructed empty_grid (agents two_neighbours)
            [(0, 1); (0, 0)] 0 1
            (agent_at 0 (0, 0) 150 false) (agent_at 1 (0, 1) 150 false))
    as Hun.
  { unfold swap_unobstructed. simpl. split_and!; try done.
    intros k c Hk0 Hk1 Hc. destruct k as [|[|k]]; done. }
  split; [exact two_neighbours_step|]. split; [reflexivity|].
  split; [exact Hsw|]. split; [exact Hun|].
  exact (swap_is_not_a_conflict two_neighbours [1; 0] two_neighbours_swapped _
           _ _ O (S O) _ _ two_neighbours_step eq_refl Hsw Hun).
Defined.

Lemma reward_agent_illegal_iff_witness :
  [agent_at 0 (0, 1) 140 false; agent_at 1 (0, 1) 150 true] !! O
    = Some (agent_at 0 (0, 1) 140 false) /\
  _reward_agent empty_grid default_rewards
    [agent_at 0 (0, 1) 140 false; agent_at 1 (0, 1) 150 true] 0
    = Ok (obstacles default_rewards, true, false) /\
  (true = true <->
   in_bounds empty_grid (0, 1) = false \/
   (in_bounds empty_grid (0, 1) = true /\
    item empty_grid 0 1 = GridLegend.OBSTACLE) \/
   (exists j b, j ≠ O /\
      [agent_at 0 (0, 1) 140 false; agent_at 1 (0, 1) 150 true] !! j = Some b /\
      pos b = (0, 1))).
Proof.
  split; [reflexivity|]. split; [reflexivity|].
  exact (reward_agent_illegal_iff empty_grid default_rewards
           [agent_at 0 (0, 1) 140 false; agent_at 1 (0, 1) 150 true] O
           (agent_at 0 (0, 1) 140 false) (obstacles default_rewards) true false
           eq_refl eq_refl).
Defined.

Lemma conflict_loop_terminates_witness :
  length (l_illegals head_on) = length (l_agents head_on) /\
  is_Some (step two_neighbours [1; 0]) /\
  (exists r,
     solve_conflicts 2 empty_grid default_rewards head_on_old head_on
       = Some r /\
     forall fuel, (2 <= fuel)%nat ->
       solve_conflicts fuel empty_grid default_rewards head_on_old head_on
         = Some r) /\
  (forall s',
     conflict_pass empty_grid default_rewards head_on_old head_on
       = (s', None) ->
     (forall i a, l_agents head_on !! i = Some a ->
        head_on_old !! i = Some (pos a) ->
        l_agents s' !! i = Some a /\ l_illegals s' !! i = Some false /\
        l_rewards s' !! i = l_rewards head_on !! i /\
        l_done s' !! i = l_done head_on !! i) /\
     (forall i, eligible head_on_old s' i = true ->
                eligible head_on_old head_on i = true) /\
     (any (l_illegals s') = true ->
      (length (eligible_set head_on_old s')
       < length (eligible_set head_on_old head_on))%nat)).
Proof.
  split; [reflexivity|].
  exact (conflict_loop_terminates two_neighbours [1; 0] empty_grid
           default_rewards head_on_old head_on eq_refl).
Defined.

Lemma trans_function_unknown_action_witness :
  ¬ legal_action 7 /\
  trans_function two_neighbours (2, 2) 7 0 ≠ Raise UnknownAction /\
  (forall w, np_getitem (col_wind two_neighbours) 2 = Ok w ->
             trans_function two_neighbours (2, 2) 7 0 = Ok (2, 2)).
Proof.
  assert (¬ legal_action 7) as H.
  { unfold legal_action, LegalActions.left, LegalActions.right,
      LegalActions.up, LegalActions.down. lia. }
  split; [exact H|].
  exact (trans_function_unknown_action two_neighbours 2 2 7 0 H).
Defined.

Lemma one_draw_per_active_agent_witness :
  step two_neighbours [1; 0] =
    Some (two_neighbours_swapped,
          Ok ([free default_rewards; free default_rewards], [false; false])) /\
  drawn (np_random two_neighbours_swapped) =
    (drawn (np_random two_neighbours)
     + length (active (agents two_neighbours)))%nat /\
  (forall i s a action,
     agents two_neighbours !! i = Some a -> [1; 0] !! i = Some action ->
     drawn (gen_moves_body two_neighbours [1; 0] i s).1.2 =
       if done a then drawn s.2 else S (drawn s.2)) /\
  (forall n m noise,
     np_getitem (col_wind two_neighbours) n = Ok 0 ->
     trans_function two_neighbours (n, m) LegalActions.up noise
       = Ok (n - 1, m) /\
     trans_function two_neighbours (n, m) LegalActions.down noise
       = Ok (n + 1, m) /\
     trans_function two_neighbours (n, m) LegalActions.left noise
       = Ok (n, m - 1) /\
     trans_function two_neighbours (n, m) LegalActions.right noise
       = Ok (n, m + 1)).
Proof.
  split; [exact two_neighbours_step|].
  exact (one_draw_per_active_agent _ _ _ _ two_neighbours_step).
Defined.

Lemma done_agents_unchanged_witness :
  step beside_done [1; 0] =
    Some (world empty_grid
            [mkAgent 0 (0, 0) (0, 0) (4, 4) (4, 4) 140 false;
             agent_at 1 (0, 1) 150 true] 1 1,
          Ok ([obstacles default_rewards; Qmake 0 1], [false; true])) /\
  agents beside_done !! (S O) = Some (agent_at 1 (0, 1) 150 true) /\
  done (agent_at 1 (0, 1) 150 true) = true /\
  agents (world empty_grid
            [mkAgent 0 (0, 0) (0, 0) (4, 4) (4, 4) 140 false;
             agent_at 1 (0, 1) 150 true] 1 1) !! (S O)
    = Some (agent_at 1 (0, 1) 150 true) /\
  (forall a',
     agents (world empty_grid
               [mkAgent 0 (0, 0) (0, 0) (4, 4) (4, 4) 140 false;
                agent_at 1 (0, 1) 150 true] 1 1) !! (S O) = Some a' ->
     pos a' = (0, 1) /\ battery a' = 150 /\ done a' = true).
Proof.
  split; [reflexivity|]. split; [reflexivity|]. split; [reflexivity|].
  exact (done_agents_unchanged beside_done [1; 0] _ _ (S O)
           (agent_at 1 (0, 1) 150 true) eq_refl eq_refl eq_refl).
Defined.

Lemma recharge_does_not_cancel_depletion_witness :
  step last_units [1] =
    Some (world station_grid
            [mkAgent 0 (0, 0) (0, 1) (4, 4) (4, 4) 150 true] 1 1,
          Ok ([battery_depleted default_rewards], [true])) /\
  agents last_units !! O = Some (agent_at 0 (0, 0) 10 false) /\
  done (agent_at 0 (0, 0) 10 false) = false /\
  battery (agent_at 0 (0, 0) 10 false) - 10 <= 0 /\
  grid_getitem station_grid (0, 1) = Ok GridLegend.GCS /\
  battery (mkAgent 0 (0, 0) (0, 1) (4, 4) (4, 4) 150 true) = BATTERY /\
  done (mkAgent 0 (0, 0) (0, 1) (4, 4) (4, 4) 150 true) = true /\
  [battery_depleted default_rewards] !! O
    = Some (battery_depleted (rewards last_units)) /\
  [true] !! O = Some true.
Proof.
  assert (battery (agent_at 0 (0, 0) 10 false) - 10 <= 0) as Hb.
  { simpl. lia. }
  split; [reflexivity|]. split; [reflexivity|]. split; [reflexivity|].
  split; [exact Hb|]. split; [reflexivity|].
  exact (recharge_does_not_cancel_depletion last_units [1] _ _ _ O
           (agent_at 0 (0, 0) 10 false)
           (mkAgent 0 (0, 0) (0, 1) (4, 4) (4, 4) 150 true)
           eq_refl eq_refl eq_refl Hb eq_refl eq_refl).
Defined.

(** * Further properties of the step engine *)

(** ** Agents stay on the grid *)

(** X1: if every agent stands on a cell of the grid when [step] is called,
    every agent does when [step] returns; and if moreover none stands on an
    obstacle, none does afterwards. *)
Theorem step_keeps_agents_on_grid self actions self' out :
  on_grid (grid self) (agents self) ->
  step self actions = Some (self', Ok out) ->
  grid self' = grid self /\
  on_grid (grid self') (agents self') /\
  (off_obstacles (grid self) (agents self) ->
   off_obstacles (grid self') (agents self')).
Proof.
  intros Hon Hstep. destruct out as [rs ds].
  apply step_fuel_returns in Hstep
    as (moves & rng & s & ags' & _ & _ & Hinv & Hany & Hfin & _ & _ & ->).
  simpl.
  assert (forall i a', ags' !! i = Some a' ->
    exists a0, agents self !! i = Some a0 /\
      (pos a' = pos a0 \/
       (in_bounds (grid self) (pos a') = true /\
        item (grid self) (pos a').1 (pos a').2 ≠ GridLegend.OBSTACLE)))
    as Hcases.
  { intros i a' Ha'.
    destruct (finish_pos _ _ _ _ _ _ Hfin Ha') as (a & Ha & Hp & _).
    destruct (agents self !! i) as [a0|] eqn:Ha0.
    - exists a0. split; [done|]. rewrite Hp.
      destruct (done a0) eqn:Hd.
      + destruct (inv_done _ _ _ _ _ Hinv i a0 Ha0 Hd) as [Ha1 _].
        left. congruence.
      + destruct (decide (pos a = pos a0)) as [|Hne]; [by left|]. right.
        destruct (settled_move_legal _ _ _ _ _ _ _ _ Hinv Hany Ha0 Hd Ha Hne)
          as (? & ? & _). done.
    - apply lookup_lt_Some in Ha. apply lookup_ge_None in Ha0.
      rewrite (inv_length _ _ _ _ _ Hinv) in Ha. lia. }
  split_and!; [done | |].
  - intros i a' Ha'. destruct (Hcases i a' Ha') as (a0 & Ha0 & [Hp|[Hb _]]).
    + rewrite Hp. by eapply Hon.
    + done.
  - intros Hoff i a' Ha'.
    destruct (Hcases i a' Ha') as (a0 & Ha0 & [Hp|[_ Ho]]).
    + rewrite Hp. by eapply Hoff.
    + done.
Qed.

(** ** When [step] raises *)

Lemma for_range_exn_runs {S : Type} (I : nat -> S -> Prop) k
    (body : nat -> S -> S * option exn) s :
  I O s ->
  (forall i t, (i < k)%nat -> I i t ->
     exists t', body i t = (t', None) /\ I (Datatypes.S i) t') ->
  exists s', for_range_exn k body s = (s', None) /\ I k s'.
Proof.
  intros H0 Hstep. induction k as [|k IH].
  - exists s. by rewrite for_range_exn_0.
  - destruct IH as (t & Ht & HI).
    { intros i u Hi. apply Hstep. lia. }
    destruct (Hstep k t) as (t' & Hb & HI'); [lia | done |].
    exists t'. by rewrite for_range_exn_S, Ht.
Qed.








Lemma assign_reward_runs g rw n i s :
  aligned n s -> (i < n)%nat ->
  exists s', assign_reward g rw i s = (s', None) /\ aligned n s'.
Proof.
  intros (La & Lr & Li & Ld) Hi. unfold assign_reward, _reward_agent.
  destruct (lookup_lt_is_Some_2 (l_agents s) i) as [a ->]; [lia|].
  destruct (reward_of g rw (l_agents s) i a) as [[r ill] d].
  unfold setitem. simpl.
  rewrite !bool_decide_eq_true_2 by lia. simpl.
  eexists. split; [done|]. unfold aligned. simpl.
  by rewrite !length_insert.
Qed.




Lemma conflict_pass_runs g rw old_pos n s :
  aligned n s -> length old_pos = n ->
  exists s', conflict_pass g rw old_pos s = (s', None) /\ aligned n s'.
Proof.
  intros Hal Hold. unfold conflict_pass.
  pose proof Hal as (La & _). rewrite La.
  destruct (for_range_exn_runs (fun _ t => aligned n t) n
              (cancel_body old_pos) s) as (s1 & -> & Hal1); [done| |].
  { intros i t Hi (La' & Lr' & Li' & Ld'). unfold cancel_body.
    destruct (lookup_lt_is_Some_2 (l_illegals t) i) as [[|] ->]; [lia| |].
    - destruct (lookup_lt_is_Some_2 old_pos i) as [p ->]; [lia|].
      destruct (lookup_lt_is_Some_2 (l_agents t) i) as [a ->]; [lia|].
      eexists. split; [done|]. unfold aligned. simpl.
      by rewrite !length_insert.
    - by eexists. }
  apply (for_range_exn_runs (fun _ t => aligned n t)); [done|].
  intros i t Hi Ht. unfold reeval_body. pose proof Ht as (La' & _).
  destruct (lookup_lt_is_Some_2 (l_agents t) i) as [a ->]; [lia|].
  destruct (done a); [by eexists|].
  destruct (lookup_lt_is_Some_2 old_pos i) as [p ->]; [lia|].
  case_bool_decide; [by eexists|].
  apply (assign_reward_runs g rw n); [done | lia].
Qed.

Lemma solve_conflicts_runs fuel g rw old_pos n s r :
  aligned n s -> length old_pos = n ->
  solve_conflicts fuel g rw old_pos s = Some r ->
  r.2 = None /\ aligned n r.1.
Proof.
  intros Hal Hold. revert s Hal.
  induction fuel as [|fuel IH]; intros s Hal Hrun; simpl in Hrun;
    destruct (any (l_illegals s)); try done;
    try (by injection Hrun as <-).
  destruct (conflict_pass_runs g rw old_pos n s Hal Hold) as (s' & Hp & Hal').
  rewrite Hp in Hrun. by apply (IH s').
Qed.










(** ** A roster of agents that are all done *)




(** ** What an evaluation returns *)

Lemma reward_of_outside g rw ags i a :
  in_bounds g (pos a) = false ->
  reward_of g rw ags i a =
    (if bool_decide (battery a <= 0) then battery_depleted rw
     else out_of_bounds rw, true, bool_decide (battery a <= 0)).
Proof.
  intros Hb. unfold reward_of. destruct (pos a) as [n m]. rewrite Hb. simpl.
  by case_bool_decide.
Qed.

Lemma reward_of_blocked g rw ags i a :
  in_bounds g (pos a) = true ->
  item g (pos a).1 (pos a).2 = GridLegend.OBSTACLE \/
    (exists j b, j ≠ i /\ ags !! j = Some b /\ pos b = pos a) ->
  reward_of g rw ags i a =
    (if bool_decide (battery a <= 0) then battery_depleted rw
     else obstacles rw, true, bool_decide (battery a <= 0)).
Proof.
  intros Hb Hblock. unfold reward_of.
  rewrite <- (elem_of_other_positions ags i (pos a)) in Hblock.
  destruct (pos a) as [n m]. rewrite Hb. simpl in *.
  assert (bool_decide (item g n m = GridLegend.OBSTACLE)
          || bool_decide ((n, m) ∈ other_positions ags i) = true) as ->.
  { apply orb_true_iff. destruct Hblock; [left | right];
      by apply bool_decide_eq_true_2. }
  by case_bool_decide.
Qed.

Lemma reward_of_legal g rw ags i a :
  (reward_of g rw ags i a).1.2 = false ->
  reward_of g rw ags i a =
    (if bool_decide (battery a <= 0) then battery_depleted rw
     else if bool_decide (pos a = goal a) then goal_reward rw else free rw,
     false,
     bool_decide (battery a <= 0) || bool_decide (pos a = goal a)).
Proof.
  unfold reward_of. destruct (pos a) as [n m].
  destruct (negb (in_bounds g (n, m))).
  { by case_bool_decide. }
  destruct (bool_decide (item g n m = GridLegend.OBSTACLE)
            || bool_decide ((n, m) ∈ other_positions ags i)).
  { by case_bool_decide. }
  intros _. by repeat case_bool_decide.
Qed.

(** A flagged evaluation carries a penalty, or the depletion reward. *)
Lemma reward_of_flagged g rw ags i a :
  (reward_of g rw ags i a).1.2 = true ->
  (reward_of g rw ags i a).2 = bool_decide (battery a <= 0) /\
  (reward_of g rw ags i a).1.1 =
    if bool_decide (battery a <= 0) then battery_depleted rw
    else if in_bounds g (pos a) then obstacles rw else out_of_bounds rw.
Proof.
  intros Hflag. destruct (in_bounds g (pos a)) eqn:Hb.
  - apply reward_of_illegal in Hflag as [Hout|[[_ Ho]|Hocc]]; [congruence| |];
      rewrite reward_of_blocked by auto; done.
  - by rewrite reward_of_outside.
Qed.

(** ** Moves that are cancelled at once *)

Lemma step_returns_loops self actions self' rs ds :
  step self actions = Some (self', Ok (rs, ds)) ->
  exists moves rng ags s1 s2,
    gen_moves self actions = ((moves, rng), None) /\
    apply_moves moves (agents self) = (ags, None) /\
    first_eval (grid self) (rewards self)
      (mkLocals ags (replicate (length actions) (Qmake 0 1))
                ((fun _ => false) <$> ags) (done <$> ags)) = (s1, None) /\
    solve_conflicts (length (agents self)) (grid self) (rewards self)
      (pos <$> agents self) s1 = Some (s2, None) /\
    step_inv (grid self) (rewards self) (agents self) moves s2 /\
    any (l_illegals s2) = false /\
    finish (grid self) (l_done s2) (l_agents s2) = (agents self', None) /\
    rs = l_rewards s2 /\ ds = done <$> agents self'.
Proof.
  unfold step, step_fuel. intros H.
  case_bool_decide as Hlen; simpl in H; [|done].
  rewrite gen_moves_step_count in H.
  destruct (gen_moves self actions) as [[moves rng] [e|]] eqn:Hgm; [done|].
  simpl in H.
  destruct (apply_moves moves (agents self)) as [ags [e|]] eqn:Hap; [done|].
  destruct (first_eval _ _ _) as [s1 [e|]] eqn:Hfe; [done|].
  destruct (solve_conflicts _ _ _ _ _) as [[s2 [e|]]|] eqn:Hsc; [done| |done].
  destruct (finish _ _ _) as [ags' [e|]] eqn:Hfin; [done|].
  injection H as <- <- <-. exists moves, rng, ags, s1, s2.
  pose proof (first_eval_inv _ _ _ _ _ _ _ Hap Hfe) as Hinv1.
  destruct (solve_conflicts_ind
              (step_inv (grid self) (rewards self) (agents self) moves)
              _ _ _ _ _ _ (conflict_pass_inv _ _ _ _) Hinv1 Hsc)
    as [Hinv Hany].
  split_and!; done.
Qed.

Lemma first_stands_pass g rw old_pos ev p0 s s' i :
  old_pos !! i = Some p0 ->
  first_stands ev p0 s i ->
  conflict_pass g rw old_pos s = (s', None) ->
  first_stands ev p0 s' i.
Proof.
  intros Hold (a & Ha & Hr & Hd & Hcase) Hp.
  apply conflict_pass_ok in Hp as (_ & _ & _ & Hlt).
  destruct (Hlt i) as (a1 & b & a' & Ha1 & Hb & Ha' & Hrel & Hsk).
  { by eapply lookup_lt_Some. }
  rewrite Ha in Ha1. injection Ha1 as <-.
  assert (pos a' = p0) as Hp0.
  { destruct b.
    - destruct Hrel as (p & Hp & ->). simpl. congruence.
    - subst a'. destruct Hcase; [done | congruence]. }
  assert (skipped old_pos i a' = true) as Hs.
  { unfold skipped. rewrite Hold, Hp0.
    rewrite bool_decide_eq_true_2 by done. apply orb_true_r. }
  rewrite Hs in Hsk. destruct Hsk as (Hr' & _ & Hd').
  exists a'. split_and!; [done | congruence | congruence | by left].
Qed.

(** The first evaluation of an agent stands when it flags the agent, and
    when the agent has not left its cell: the agent ends the step on its old
    cell with the reward and the done flag of that evaluation. *)
Lemma first_evaluation_stands self actions self' rs ds moves rng ags i a a1 :
  step self actions = Some (self', Ok (rs, ds)) ->
  gen_moves self actions = ((moves, rng), None) ->
  apply_moves moves (agents self) = (ags, None) ->
  agents self !! i = Some a -> done a = false ->
  ags !! i = Some a1 ->
  (reward_of (grid self) (rewards self) ags i a1).1.2 = true
    \/ pos a1 = pos a ->
  exists a', agents self' !! i = Some a' /\ pos a' = pos a /\
    rs !! i = Some (reward_of (grid self) (rewards self) ags i a1).1.1 /\
    ds !! i = Some (reward_of (grid self) (rewards self) ags i a1).2 /\
    done a' = (reward_of (grid self) (rewards self) ags i a1).2.
Proof.
  intros Hstep Hgm Hap Ha Hd Ha1 Hcase.
  apply step_returns_loops in Hstep
    as (moves' & rng' & ags' & s1 & s2 & Hgm' & Hap' & Hfe & Hsc & Hinv
        & Hany & Hfin & -> & ->).
  rewrite Hgm in Hgm'. injection Hgm' as <- <-.
  rewrite Hap in Hap'. injection Hap' as <-.
  set (ev := reward_of (grid self) (rewards self) ags i a1) in *.
  assert (done a1 = false) as Hd1.
  { apply apply_moves_ok in Hap as [_ Hap]. specialize (Hap i a Ha).
    rewrite Hd in Hap. destruct Hap as (mv & _ & Hx). by simplify_eq. }
  assert (first_stands ev (pos a) s1 i) as H1.
  { apply first_eval_ok in Hfe as (Hag & _ & _ & _ & Hev). simpl in *.
    specialize (Hev i a1 Ha1). rewrite Hd1 in Hev.
    injection Hev as Hr Hi Hdn. exists a1. rewrite Hag.
    split_and!; try done. destruct Hcase as [Hf|Hp]; [right | by left].
    rewrite Hi. f_equal. exact Hf. }
  assert (first_stands ev (pos a) s2 i) as (x & Hx & Hr & Hdn & Hpos).
  { apply (solve_conflicts_ind (fun s => first_stands ev (pos a) s i))
      in Hsc as [H2 _]; [done | | done].
    intros t t'. apply first_stands_pass.
    by rewrite list_lookup_fmap, Ha. }
  destruct Hpos as [Hpos|Hflag];
    [|by destruct (any_false_lookup _ i Hany)].
  assert (done x = false) as Hdx.
  { destruct (inv_active _ _ _ _ _ Hinv i a Ha Hd) as (mv & p & _ & Hx' & _).
    rewrite Hx in Hx'. by injection Hx' as ->. }
  apply finish_ok in Hfin as [_ Hfin]. specialize (Hfin i x Hx).
  rewrite Hdx in Hfin. destruct Hfin as (c & d & _ & Hd' & Ha').
  rewrite Hdn in Hd'. injection Hd' as <-.
  eexists. split; [exact Ha'|]. split_and!.
  - by case_bool_decide.
  - done.
  - by rewrite list_lookup_fmap, Ha'.
  - by case_bool_decide.
Qed.

Lemma applied_roster moves ags0 ags j b :
  apply_moves moves ags0 = (ags, None) ->
  ags0 !! j = Some b ->
  exists b1, ags !! j = Some b1 /\ done b1 = done b /\
    battery b1 = (if done b then battery b else battery b - 10) /\
    goal b1 = goal b /\
    if done b then pos b1 = pos b
    else exists mv, moves !! j = Some mv /\ pos b1 = mv.
Proof.
  intros [_ Hap]%apply_moves_ok Hb. specialize (Hap j b Hb).
  destruct (done b) eqn:Hd.
  - exists b. by rewrite Hd.
  - destruct Hap as (mv & Hmv & Hb1). eexists. split; [done|].
    simpl. split_and!; try done. by exists mv.
Qed.

Lemma illegal_move_settles self actions self' rs ds moves rng i a mv :
  step self actions = Some (self', Ok (rs, ds)) ->
  gen_moves self actions = ((moves, rng), None) ->
  agents self !! i = Some a -> done a = false ->
  moves !! i = Some mv ->
  in_bounds (grid self) mv = false
    \/ taken (grid self) (agents self) moves i mv ->
  exists a', agents self' !! i = Some a' /\ pos a' = pos a /\
    done a' = bool_decide (battery a - 10 <= 0) /\
    ds !! i = Some (bool_decide (battery a - 10 <= 0)) /\
    rs !! i =
      Some (if bool_decide (battery a - 10 <= 0)
            then battery_depleted (rewards self)
            else if in_bounds (grid self) mv then obstacles (rewards self)
                 else out_of_bounds (rewards self)).
Proof.
  intros Hstep Hgm Ha Hd Hmv Hill.
  pose proof Hstep as Hloops.
  apply step_returns_loops in Hloops
    as (moves' & rng' & ags & _ & _ & Hgm' & Hap & _).
  rewrite Hgm in Hgm'. injection Hgm' as <- <-.
  destruct (applied_roster _ _ _ i a Hap Ha)
    as (a1 & Ha1 & Hd1 & Hb1 & _ & Hp1).
  rewrite Hd in Hd1, Hb1, Hp1. destruct Hp1 as (mv' & Hmv' & Hp1).
  rewrite Hmv in Hmv'. injection Hmv' as <-.
  assert ((reward_of (grid self) (rewards self) ags i a1).1.2 = true)
    as Hflag.
  { apply reward_of_illegal. rewrite Hp1.
    destruct (in_bounds (grid self) mv) eqn:Hb; [|by left]. right.
    destruct Hill as [|[Ho|(j & b & Hj & Hb' & Hcell)]]; [done | by left |].
    right. destruct (applied_roster _ _ _ j b Hap Hb')
      as (b1 & Hb1' & _ & _ & _ & Hpb).
    exists j, b1. split_and!; try done. destruct (done b); [congruence|].
    destruct Hpb as (mv' & Hmv' & ->). congruence. }
  destruct (first_evaluation_stands _ _ _ _ _ _ _ _ _ _ _ Hstep Hgm Hap Ha Hd
              Ha1 (or_introl Hflag))
    as (a' & Ha' & Hpos & Hr & Hds & Hdone).
  destruct (reward_of_flagged _ _ _ _ _ Hflag) as [E2 E1].
  rewrite E1 in Hr. rewrite E2 in Hds, Hdone. rewrite Hb1, Hp1 in *.
  by exists a'.
Qed.

(** X5: a move that is illegal when the moves are first evaluated is
    cancelled.  If the cell an agent proposes is outside the grid, is an
    obstacle, is the cell of another agent that is done, or is also proposed
    by another agent that is not done, the agent ends the step on its old
    cell; unless the step drains its battery to 0, it is not done and its
    reward is [out_of_bounds] for a cell outside the grid and [obstacles]
    otherwise. *)
Theorem illegal_move_is_cancelled self actions self' rs ds moves rng i a mv :
  step self actions = Some (self', Ok (rs, ds)) ->
  gen_moves self actions = ((moves, rng), None) ->
  agents self !! i = Some a -> done a = false ->
  moves !! i = Some mv ->
  in_bounds (grid self) mv = false
    \/ taken (grid self) (agents self) moves i mv ->
  exists a', agents self' !! i = Some a' /\ pos a' = pos a /\
    done a' = bool_decide (battery a - 10 <= 0) /\
    ds !! i = Some (bool_decide (battery a - 10 <= 0)) /\
    rs !! i =
      Some (if bool_decide (battery a - 10 <= 0)
            then battery_depleted (rewards self)
            else if in_bounds (grid self) mv then obstacles (rewards self)
                 else out_of_bounds (rewards self)).
Proof. apply illegal_move_settles. Qed.

(** X6: two agents that are not done and propose the same cell both end the
    step on their old cells. *)
Theorem same_target_both_cancelled
    self actions self' rs ds moves rng i j a b mv :
  step self actions = Some (self', Ok (rs, ds)) ->
  gen_moves self actions = ((moves, rng), None) ->
  i ≠ j ->
  agents self !! i = Some a -> done a = false ->
  agents self !! j = Some b -> done b = false ->
  moves !! i = Some mv -> moves !! j = Some mv ->
  exists a' b', agents self' !! i = Some a' /\ agents self' !! j = Some b' /\
    pos a' = pos a /\ pos b' = pos b.
Proof.
  intros Hstep Hgm Hij Ha Hda Hb Hdb Hmi Hmj.
  destruct (illegal_move_settles _ _ _ _ _ _ _ i a mv Hstep Hgm Ha Hda Hmi)
    as (a' & Ha' & Hpa & _).
  { right. right. exists j, b. rewrite Hdb. by split_and!. }
  destruct (illegal_move_settles _ _ _ _ _ _ _ j b mv Hstep Hgm Hb Hdb Hmj)
    as (b' & Hb' & Hpb & _).
  { right. right. exists i, a. rewrite Hda. by split_and!. }
  by exists a', b'.
Qed.

(** ** The outcome of a move that succeeds *)

(** X7: an agent that ends the step away from its old cell stands on a cell
    of the grid that is not an obstacle and that no other agent, done or not,
    occupies.  Unless the step drains its battery to 0, its reward is [goal]
    and it is done when the cell is its goal, and its reward is [free] and it
    is not done otherwise. *)
Theorem successful_move_outcome self actions self' rs ds i a a' :
  step self actions = Some (self', Ok (rs, ds)) ->
  agents self !! i = Some a -> done a = false ->
  agents self' !! i = Some a' -> pos a' ≠ pos a ->
  in_bounds (grid self) (pos a') = true /\
  item (grid self) (pos a').1 (pos a').2 ≠ GridLegend.OBSTACLE /\
  (forall j b', j ≠ i -> agents self' !! j = Some b' -> pos b' ≠ pos a') /\
  rs !! i =
    Some (if bool_decide (battery a - 10 <= 0)
          then battery_depleted (rewards self)
          else if bool_decide (pos a' = goal a) then goal_reward (rewards self)
               else free (rewards self)) /\
  done a' =
    bool_decide (battery a - 10 <= 0) || bool_decide (pos a' = goal a).
Proof.
  intros Hstep Ha Hd Ha' Hne.
  apply step_returns_loops in Hstep
    as (moves & rng & ags & s1 & s2 & _ & _ & _ & _ & Hinv & Hany & Hfin
        & -> & ->).
  destruct (inv_active _ _ _ _ _ Hinv i a Ha Hd) as (mv & p & Hmv & Hx & _).
  pose proof (finish_ok _ _ _ _ Hfin) as [_ Hfin'].
  specialize (Hfin' i _ Hx). simpl in Hfin'. rewrite Hd in Hfin'.
  destruct Hfin' as (c & d & _ & Hdn & Hnew).
  rewrite Ha' in Hnew. injection Hnew as ->.
  assert (pos (set_done
                 (if bool_decide (c = GridLegend.GCS)
                  then set_battery (set_pos (moved a mv) p) BATTERY
                  else set_pos (moved a mv) p) d) = p) as Hp.
  { by case_bool_decide. }
  rewrite Hp in *.
  assert (pos (set_pos (moved a mv) p) ≠ pos a) as Hne' by done.
  destruct (settled_move_legal _ _ _ _ _ _ _ _ Hinv Hany Ha Hd Hx Hne')
    as (Hb & Ho & Hfree).
  pose proof (inv_eval _ _ _ _ _ Hinv i a _ Ha Hd Hx Hne') as Hev.
  injection Hev as Hr Hil Hdn'.
  pose proof (any_false_lookup _ i Hany) as Hno. rewrite Hil in Hno.
  assert ((reward_of (grid self) (rewards self) (l_agents s2) i
             (set_pos (moved a mv) p)).1.2 = false) as Hflag.
  { by destruct ((reward_of _ _ _ _ _).1.2). }
  rewrite (reward_of_legal _ _ _ _ _ Hflag) in Hr, Hdn'. simpl in *.
  split_and!; try done.
  - intros j b' Hj Hb'.
    destruct (finish_pos _ _ _ _ _ _ Hfin Hb') as (b & Hbj & -> & _).
    by apply (Hfree j b).
  - rewrite Hdn in Hdn'. injection Hdn' as ->. by case_bool_decide.
Qed.

(** ** The outcome of a move that is cancelled *)

Lemma penalised_first g rw ags0 moves ags s1 n :
  apply_moves moves ags0 = (ags, None) ->
  first_eval g rw (mkLocals ags (replicate n (Qmake 0 1))
                            ((fun _ => false) <$> ags) (done <$> ags))
    = (s1, None) ->
  penalised rw ags0 moves s1.
Proof.
  intros Hap (Hag & _ & _ & _ & Hev)%first_eval_ok. simpl in *.
  intros i a0 a mv Ha0 Hd Hmv Ha Hcase. rewrite Hag in Ha.
  destruct (applied_roster _ _ _ i a0 Hap Ha0)
    as (a1 & Ha1 & Hd1 & Hb1 & _ & Hp1).
  rewrite Ha in Ha1. injection Ha1 as <-.
  rewrite Hd in Hd1, Hb1, Hp1. destruct Hp1 as (mv' & Hmv' & Hp1).
  rewrite Hmv in Hmv'. injection Hmv' as <-.
  specialize (Hev i a Ha). rewrite Hd1 in Hev. injection Hev as Hr Hil Hdn.
  assert ((reward_of g rw ags i a).1.2 = true) as Hflag.
  { destruct Hcase as [Hf|[Hp Hne]]; [congruence|]. congruence. }
  destruct (reward_of_flagged _ _ _ _ _ Hflag) as [E2 E1].
  rewrite Hb1 in E1, E2. split; [congruence|].
  eexists. split; [done|]. rewrite E1. unfold penalty.
  case_bool_decide; [done|]. destruct (in_bounds g (pos a)); auto.
Qed.

Lemma penalised_pass g rw ags0 moves s s' :
  step_inv g rw ags0 moves s /\ penalised rw ags0 moves s ->
  conflict_pass g rw (pos <$> ags0) s = (s', None) ->
  step_inv g rw ags0 moves s' /\ penalised rw ags0 moves s'.
Proof.
  intros [Hinv Hpen] Hp.
  pose proof (conflict_pass_inv _ _ _ _ _ _ Hinv Hp) as Hinv'.
  split; [done|].
  apply conflict_pass_ok in Hp as (_ & _ & _ & Hlt).
  intros i a0 a' mv Ha0 Hd Hmv Ha' Hcase.
  destruct (Hlt i) as (a & b & a1 & Ha & Hb & Ha1 & Hrel & Hsk).
  { rewrite (inv_length _ _ _ _ _ Hinv). by eapply lookup_lt_Some. }
  rewrite Ha' in Ha1. injection Ha1 as <-.
  assert (done a' = false /\ battery a' = battery a0 - 10) as [Hd' Hb'].
  { destruct (inv_active _ _ _ _ _ Hinv' i a0 Ha0 Hd)
      as (mv' & p & _ & Hx & _).
    rewrite Ha' in Hx. by injection Hx as ->. }
  assert ((pos <$> ags0) !! i = Some (pos a0)) as Hold.
  { by rewrite list_lookup_fmap, Ha0. }
  destruct (skipped (pos <$> ags0) i a') eqn:Hs.
  - destruct Hsk as (Hr & Hil & Hdn). rewrite Hr, Hdn.
    destruct Hcase as [Hf|[Hpos Hne]]; [congruence|].
    apply (Hpen i a0 a mv Ha0 Hd Hmv Ha).
    destruct b; [left; done | right]. by subst a'.
  - unfold skipped in Hs. rewrite Hd', Hold in Hs. simpl in Hs.
    apply bool_decide_eq_false_1 in Hs.
    injection Hsk as Hr Hil Hdn.
    assert ((reward_of g rw (l_agents s') i a').1.2 = true) as Hflag.
    { destruct Hcase as [Hf|[Hpos _]]; [congruence|].
      destruct Hs. by rewrite Hpos. }
    destruct (reward_of_flagged _ _ _ _ _ Hflag) as [E2 E1].
    rewrite Hb' in E1, E2. split; [congruence|].
    eexists. split; [done|]. rewrite E1. unfold penalty.
    case_bool_decide; [done|]. destruct (in_bounds g (pos a')); auto.
Qed.

(** X8: an agent that proposed another cell and ends the step on its old
    one carries a penalty: unless the step drains its battery to 0 (then its
    reward is [battery_depleted] and it is done), it is not done and its
    reward is [obstacles] or [out_of_bounds], also when its move was only
    cancelled in a later pass of the conflict loop. *)
Theorem cancelled_move_is_penalised
    self actions self' rs ds moves rng i a a' mv :
  step self actions = Some (self', Ok (rs, ds)) ->
  gen_moves self actions = ((moves, rng), None) ->
  agents self !! i = Some a -> done a = false ->
  moves !! i = Some mv -> mv ≠ pos a ->
  agents self' !! i = Some a' -> pos a' = pos a ->
  done a' = bool_decide (battery a - 10 <= 0) /\
  exists r, rs !! i = Some r /\ penalty (rewards self) (battery a - 10) r.
Proof.
  intros Hstep Hgm Ha Hd Hmv Hne Ha' Hpos.
  apply step_returns_loops in Hstep
    as (moves' & rng' & ags & s1 & s2 & Hgm' & Hap & Hfe & Hsc & Hinv
        & Hany & Hfin & -> & ->).
  rewrite Hgm in Hgm'. injection Hgm' as <- <-.
  pose proof (first_eval_inv _ _ _ _ _ _ _ Hap Hfe) as Hinv1.
  pose proof (penalised_first _ _ _ _ _ _ _ Hap Hfe) as Hpen1.
  apply (solve_conflicts_ind
           (fun s => step_inv (grid self) (rewards self) (agents self) moves s
                     /\ penalised (rewards self) (agents self) moves s))
    in Hsc as [[_ Hpen] _]; [| apply penalised_pass | done].
  destruct (inv_active _ _ _ _ _ Hinv i a Ha Hd) as (mv' & p & _ & Hx & _).
  pose proof (finish_ok _ _ _ _ Hfin) as [_ Hfin'].
  specialize (Hfin' i _ Hx). simpl in Hfin'. rewrite Hd in Hfin'.
  destruct Hfin' as (c & d & _ & Hdn & Hnew).
  rewrite Ha' in Hnew. injection Hnew as ->.
  assert (p = pos a) as ->.
  { rewrite <- Hpos. by case_bool_decide. }
  destruct (Hpen i a _ mv Ha Hd Hmv Hx) as [Hdn' Hr]; [by right|].
  split; [|done]. rewrite Hdn in Hdn'. injection Hdn' as ->.
  by case_bool_decide.
Qed.

(** ** The battery, the rewards and the identity of the agents *)

(** X9: every agent that is not done pays 10 units of battery for the step,
    whether its move succeeds or is cancelled, unless it ends the step on a
    charging station, where its battery is filled up. *)
Theorem battery_after_step self actions self' rs ds i a a' :
  step self actions = Some (self', Ok (rs, ds)) ->
  agents self !! i = Some a -> done a = false ->
  agents self' !! i = Some a' ->
  exists c, grid_getitem (grid self) (pos a') = Ok c /\
    battery a' =
      if bool_decide (c = GridLegend.GCS) then BATTERY else battery a - 10.
Proof.
  intros Hstep Ha Hd Ha'.
  destruct (step_returns_active _ _ _ _ _ _ _ Hstep Ha Hd)
    as (mv & p & c & d & _ & Hc & Hnew & _).
  rewrite Ha' in Hnew. injection Hnew as ->. exists c.
  by case_bool_decide.
Qed.

Lemma reward_of_in_table g rw ags i a :
  (reward_of g rw ags i a).1.1 ∈ reward_values rw.
Proof.
  unfold reward_of, reward_values. destruct (pos a) as [n m].
  repeat case_match; simplify_eq/=; solve [repeat constructor].
Qed.

Lemma rewards_inv_first g rw ags0 moves ags s1 n :
  length ags0 = n ->
  apply_moves moves ags0 = (ags, None) ->
  first_eval g rw (mkLocals ags (replicate n (Qmake 0 1))
                            ((fun _ => false) <$> ags) (done <$> ags))
    = (s1, None) ->
  rewards_inv rw ags0 s1.
Proof.
  intros Hn Hap (Hag & _ & _ & _ & Hev)%first_eval_ok. simpl in *.
  intros i a0 Ha0.
  destruct (applied_roster _ _ _ i a0 Hap Ha0) as (a1 & Ha1 & Hd1 & _).
  specialize (Hev i a1 Ha1). rewrite Hd1 in Hev. destruct (done a0).
  - injection Hev as -> _ _. exists (Qmake 0 1). split; [|done].
    apply lookup_replicate_2. apply lookup_lt_Some in Ha0. lia.
  - injection Hev as -> _ _. eexists. split; [done|].
    apply reward_of_in_table.
Qed.

Lemma rewards_inv_pass g rw ags0 moves s s' :
  step_inv g rw ags0 moves s /\ rewards_inv rw ags0 s ->
  conflict_pass g rw (pos <$> ags0) s = (s', None) ->
  step_inv g rw ags0 moves s' /\ rewards_inv rw ags0 s'.
Proof.
  intros [Hinv Hrw] Hp.
  pose proof (conflict_pass_inv _ _ _ _ _ _ Hinv Hp) as Hinv'.
  split; [done|].
  apply conflict_pass_ok in Hp as (_ & _ & _ & Hlt).
  intros i a0 Ha0.
  destruct (Hlt i) as (a & b & a' & Ha & Hb & Ha' & Hrel & Hsk).
  { rewrite (inv_length _ _ _ _ _ Hinv). by eapply lookup_lt_Some. }
  destruct (Hrw i a0 Ha0) as (r & Hr & Hin).
  destruct (skipped (pos <$> ags0) i a') eqn:Hs.
  - destruct Hsk as (-> & _). by exists r.
  - destruct (done a0) eqn:Hd.
    + destruct (inv_done _ _ _ _ _ Hinv' i a0 Ha0 Hd) as [Hx _].
      rewrite Ha' in Hx. injection Hx as ->.
      unfold skipped in Hs. by rewrite Hd in Hs.
    + injection Hsk as -> _ _. eexists. split; [done|].
      apply reward_of_in_table.
Qed.

(** X10: [step] returns one reward and one done flag per agent.  The reward
    of an agent that was done before the step is 0 and its flag is set; the
    reward of any other agent is one of the five rewards of the table, and
    its flag is its done flag after the step. *)
Theorem step_reward_vector self actions self' rs ds :
  step self actions = Some (self', Ok (rs, ds)) ->
  length rs = length (agents self) /\ length ds = length (agents self) /\
  forall i a, agents self !! i = Some a ->
    exists r a', rs !! i = Some r /\ agents self' !! i = Some a' /\
      ds !! i = Some (done a') /\
      if done a then r = Qmake 0 1 /\ done a' = true
      else r ∈ reward_values (rewards self).
Proof.
  intros Hstep. pose proof (step_returns_length _ _ _ _ Hstep) as Hlen.
  pose proof Hstep as Hloops.
  apply step_returns_loops in Hloops
    as (moves & rng & ags & s1 & s2 & _ & Hap & Hfe & Hsc & Hinv
        & Hany & Hfin & -> & ->).
  assert (length actions = length (agents self)) as Hact.
  { apply step_fuel_returns in Hstep as (? & ? & ? & ? & ? & _). done. }
  pose proof (apply_moves_ok _ _ _ Hap) as [La _].
  assert (aligned (length (agents self)) s1) as Hal1.
  { apply first_eval_ok in Hfe as (Hag & L1 & L2 & L3 & _). simpl in *.
    unfold aligned. rewrite Hag, L1, L2, L3.
    by rewrite length_replicate, !length_fmap. }
  destruct (solve_conflicts_runs _ _ _ _ _ _ _ Hal1
              (length_fmap pos (agents self)) Hsc) as [_ (_ & Lr & _)].
  simpl in Lr.
  pose proof (first_eval_inv _ _ _ _ _ _ _ Hap Hfe) as Hinv1.
  pose proof (rewards_inv_first _ _ _ _ _ _ _ (eq_sym Hact) Hap Hfe) as Hrw1.
  apply (solve_conflicts_ind
           (fun s => step_inv (grid self) (rewards self) (agents self) moves s
                     /\ rewards_inv (rewards self) (agents self) s))
    in Hsc as [[_ Hrw] _]; [| apply rewards_inv_pass | done].
  split_and!; [done | by rewrite length_fmap |].
  intros i a Ha. destruct (Hrw i a Ha) as (r & Hr & Hin).
  destruct (lookup_lt_is_Some_2 (agents self') i) as [a' Ha'].
  { rewrite Hlen. by eapply lookup_lt_Some. }
  exists r, a'. split_and!; try done.
  - by rewrite list_lookup_fmap, Ha'.
  - destruct (done a) eqn:Hd; [|done]. split; [done|].
    rewrite (step_returns_done _ _ _ _ _ _ Hstep Ha Hd) in Ha'.
    by injection Ha' as <-.
Qed.

Lemma step_keeps_identity self actions self' out :
  step self actions = Some (self', Ok out) ->
  Forall2 (fun a a' => same_identity a a' /\ goal a' = goal a)
          (agents self) (agents self').
Proof.
  intros Hstep. apply Forall2_same_length_lookup.
  split; [by rewrite (step_returns_length _ _ _ _ Hstep)|].
  intros i a a' Ha Ha'. destruct out as [rs ds].
  destruct (done a) eqn:Hd.
  - rewrite (step_returns_done _ _ _ _ _ _ Hstep Ha Hd) in Ha'.
    by injection Ha' as <-.
  - destruct (step_returns_active _ _ _ _ _ _ _ Hstep Ha Hd)
      as (mv & p & c & d & _ & _ & Hnew & _).
    rewrite Ha' in Hnew. injection Hnew as ->.
    unfold same_identity. by case_bool_decide.
Qed.

Lemma run_keeps_identity self episode self' :
  run self episode = Some self' ->
  grid self' = grid self /\ col_wind self' = col_wind self /\
  rewards self' = rewards self /\
  Forall2 (fun a a' => same_identity a a' /\ goal a' = goal a)
          (agents self) (agents self').
Proof.
  revert self. induction episode as [|actions rest IH]; intros self Hrun;
    simpl in Hrun.
  - injection Hrun as <-. split_and!; try done.
    apply Forall2_same_length_lookup. split; [done|].
    intros i a a' Ha Ha'. rewrite Ha in Ha'. by injection Ha' as <-.
  - destruct (step self actions) as [[self1 [[rs ds]|e]]|] eqn:Hs; try done.
    destruct (IH self1 Hrun) as (Hg & Hw & Hr & Hid).
    pose proof (step_keeps_identity _ _ _ _ Hs) as Hid1.
    apply step_fuel_returns in Hs
      as (? & ? & ? & ? & _ & _ & _ & _ & _ & _ & _ & ->).
    simpl in *. split_and!; try done.
    eapply Forall2_trans; [|exact Hid1|exact Hid].
    unfold same_identity. intros a b c (H1 & H2) (H3 & H4).
    split_and!; destruct H1 as (? & ? & ?), H3 as (? & ? & ?); congruence.
Qed.

Lemma reset_agents_identity (ags ags' : list GridworldAgent) sgs :
  Forall2 same_identity ags ags' ->
  reset_agent <$> zip_with set_init ags sgs
    = reset_agent <$> zip_with set_init ags' sgs /\
  reset_agent <$> ags = reset_agent <$> ags'.
Proof.
  intros H. revert sgs. induction H as [|a a' l l' (H1 & H2 & H3) _ IH];
    intros sgs; [done|].
  destruct (IH []) as [_ IH2]. split.
  - destruct sgs as [|sg sgs]; [done|]. csimpl.
    destruct (IH sgs) as [-> _]. f_equal.
    unfold reset_agent, set_init. simpl. by rewrite H1.
  - csimpl. rewrite IH2. f_equal. unfold reset_agent.
    by rewrite H1, H2, H3.
Qed.

(** X11: the steps of an episode leave no trace on a reset.  After any
    number of returning steps, [reset] gives the roster, the grid, the wind
    and the reward table that the same [reset] gives before them: every
    agent back on its initial cell with its initial goal, a full battery and
    not done.  Only the random stream and the step counter, which [reset]
    does not touch, differ. *)
Theorem reset_after_episode self episode self' new_grid starts_goals :
  run self episode = Some self' ->
  agents (reset self' new_grid starts_goals)
    = agents (reset self new_grid starts_goals) /\
  grid (reset self' new_grid starts_goals)
    = grid (reset self new_grid starts_goals) /\
  col_wind (reset self' new_grid starts_goals) = col_wind self /\
  rewards (reset self' new_grid starts_goals) = rewards self /\
  np_random (reset self' new_grid starts_goals) = np_random self' /\
  step_count (reset self' new_grid starts_goals) = step_count self'.
Proof.
  intros (Hg & Hw & Hr & Hid)%run_keeps_identity.
  assert (Forall2 same_identity (agents self) (agents self')) as Hid'.
  { eapply Forall2_impl; [exact Hid|]. by intros a a' [? _]. }
  unfold reset. simpl. rewrite Hg. split_and!; try done.
  symmetry. destruct starts_goals as [sgs|].
  - by destruct (reset_agents_identity _ _ sgs Hid').
  - by destruct (reset_agents_identity _ _ [] Hid').
Qed.

(** ** Moves without wind *)

(** X12: on rows without wind a legal action followed by the opposite action
    leads back to the cell one started from, whatever noise is drawn. *)
Theorem opposite_moves_cancel self n m action noise noise' p :
  legal_action action ->
  np_getitem (col_wind self) n = Ok 0 ->
  trans_function self (n, m) action noise = Ok p ->
  np_getitem (col_wind self) p.1 = Ok 0 ->
  trans_function self p (opposite action) noise' = Ok (n, m).
Proof.
  intros Hlegal Hw Hmove Hw'. unfold trans_function in Hmove.
  rewrite Hw in Hmove. simpl in Hmove.
  unfold legal_action in Hlegal.
  unfold trans_function, opposite.
  unfold LegalActions.left, LegalActions.right, LegalActions.up,
    LegalActions.down in *.
  destruct Hlegal as [-> | [-> | [-> | ->]]]; simpl in *;
    injection Hmove as <-; simpl in *; rewrite Hw'; simpl;
    f_equal; f_equal; lia.
Qed.

Lemma np_getitem_elem arr i w : np_getitem arr i = Ok w -> w ∈ arr.
Proof.
  unfold np_getitem. intros H.
  destruct (np_index _ i) as [k|]; [|done].
  destruct (arr !! Z.to_nat k) as [x|] eqn:Hx; [|done].
  injection H as <-. by eapply list_elem_of_lookup_2.
Qed.

Lemma trans_function_calm self state action noise noise' :
  Forall (fun w => w = 0) (col_wind self) ->
  trans_function self state action noise
    = trans_function self state action noise'.
Proof.
  intros Hcalm. unfold trans_function. destruct state as [n m].
  destruct (np_getitem (col_wind self) n) as [w|e] eqn:Hw; [|done].
  apply np_getitem_elem in Hw. rewrite Forall_forall in Hcalm.
  rewrite (Hcalm w Hw). done.
Qed.

Lemma for_range_exn_rel {S1 S2 : Type} (R : S1 -> S2 -> Prop) k
    (body1 : nat -> S1 -> S1 * option exn)
    (body2 : nat -> S2 -> S2 * option exn) s1 s2 :
  R s1 s2 ->
  (forall i t1 t2, (i < k)%nat -> R t1 t2 ->
     R (body1 i t1).1 (body2 i t2).1 /\ (body1 i t1).2 = (body2 i t2).2) ->
  R (for_range_exn k body1 s1).1 (for_range_exn k body2 s2).1 /\
  (for_range_exn k body1 s1).2 = (for_range_exn k body2 s2).2.
Proof.
  intros H0 Hstep. induction k as [|k IH]; [done|].
  rewrite !for_range_exn_S.
  destruct IH as [HR He]. { intros i t1 t2 Hi. apply Hstep. lia. }
  destruct (for_range_exn k body1 s1) as [t1 e1].
  destruct (for_range_exn k body2 s2) as [t2 e2].
  simpl in *. subst e2. destruct e1; [done|]. apply Hstep; [lia | done].
Qed.

Lemma gen_moves_calm self rs actions :
  Forall (fun w => w = 0) (col_wind self) ->
  (gen_moves (set_np_random self rs) actions).1.1
    = (gen_moves self actions).1.1 /\
  (gen_moves (set_np_random self rs) actions).2 = (gen_moves self actions).2.
Proof.
  intros Hcalm. unfold gen_moves. simpl.
  apply (for_range_exn_rel
           (fun t1 t2 : list position * RandomState => t1.1 = t2.1)); [done|].
  intros i [m1 r1] [m2 r2] Hi Hm. simpl in Hm. subst m2.
  unfold gen_moves_body. simpl.
  destruct (agents self !! i) as [a|]; [|done].
  destruct (done a); [done|].
  destruct (actions !! i) as [act|]; [|done]. simpl.
  change (trans_function (set_np_random self rs) (pos a) act
            (stream r1 (drawn r1)))
    with (trans_function self (pos a) act (stream r1 (drawn r1))).
  rewrite (trans_function_calm self (pos a) act (stream r1 (drawn r1))
             (stream r2 (drawn r2)) Hcalm).
  destruct (trans_function self (pos a) act _) as [mv|e]; [|done].
  by destruct (setitem m1 i mv).
Qed.

(** X13: without wind the random stream has no influence: when every entry
    of the wind vector is 0, [step] leaves the same agents and returns the
    same rewards and done flags, or raises the same exception, whatever the
    state of the random stream is. *)
Theorem calm_step_ignores_stream self rs actions :
  Forall (fun w => w = 0) (col_wind self) ->
  (fun r => (agents r.1, r.2)) <$> step (set_np_random self rs) actions
    = (fun r => (agents r.1, r.2)) <$> step self actions.
Proof.
  intros Hcalm. destruct (gen_moves_calm self rs actions Hcalm) as [Hm He].
  unfold step, step_fuel. simpl.
  case_bool_decide; simpl; [|done].
  rewrite !gen_moves_step_count.
  destruct (gen_moves (set_np_random self rs) actions) as [[m1 r1] e1].
  destruct (gen_moves self actions) as [[m2 r2] e2].
  simpl in *. subst m2 e2. destruct e1; simpl; [done|].
  destruct (apply_moves m1 (agents self)) as [ags [e|]]; simpl; [done|].
  destruct (first_eval _ _ _) as [s1 [e|]]; simpl; [done|].
  destruct (solve_conflicts _ _ _ _ _) as [[s2 [e|]]|]; simpl; try done.
  destruct (finish _ _ _) as [ags' [e|]]; simpl; done.
Qed.

(** ** Done for the rest of the episode *)

(** X14: an agent that is done stays as it is for the rest of the episode:
    after any number of returning steps it has the same position, battery
    and goal and is still done.  Only [reset] makes it active again. *)
Theorem done_until_reset self episode self' i a :
  run self episode = Some self' ->
  agents self !! i = Some a -> done a = true ->
  agents self' !! i = Some a /\
  forall new_grid starts_goals a',
    agents (reset self' new_grid starts_goals) !! i = Some a' ->
    done a' = false /\ battery a' = BATTERY.
Proof.
  intros Hrun Ha Hd. split.
  - revert self Hrun Ha.
    induction episode as [|actions rest IH]; intros self Hrun Ha;
      simpl in Hrun.
    + by injection Hrun as <-.
    + destruct (step self actions) as [[self1 [out|e]]|] eqn:Hs; try done.
      apply (IH self1 Hrun). by eapply step_returns_done.
  - intros new_grid starts_goals a'. unfold reset. simpl.
    rewrite list_lookup_fmap. intros H.
    apply fmap_Some in H as (x & _ & ->). done.
Qed.

(** * Observations *)

Lemma collect_returns {A B : Type} (f : A -> result B) (l : list A) :
  (exists ys, collect f l = Ok ys) <-> forall x, x ∈ l -> exists y, f x = Ok y.
Proof.
  induction l as [|x l IH]; simpl.
  - split; [|by eexists]. intros _ x Hx. by apply elem_of_nil in Hx.
  - split.
    + intros [ys H] x' Hx'. destruct (f x) as [y|e] eqn:Hfx; [|done].
      destruct (collect f l) as [ys'|e] eqn:Hl; [|done].
      apply elem_of_cons in Hx' as [->|Hx']; [by eexists|].
      apply IH; [by eexists | done].
    + intros H. destruct (H x) as [y ->]; [by left|].
      destruct (proj2 IH) as [ys ->]; [|by eexists].
      intros x' Hx'. apply H. by right.
Qed.

Lemma collect_length {A B : Type} (f : A -> result B) (l : list A) ys :
  collect f l = Ok ys ->
  length ys = length l /\
  forall i x, l !! i = Some x -> exists y, f x = Ok y /\ ys !! i = Some y.
Proof.
  revert ys. induction l as [|x l IH]; intros ys H; simpl in H.
  - by injection H as <-.
  - destruct (f x) as [y|e] eqn:Hfx; [|done].
    destruct (collect f l) as [ys'|e] eqn:Hl; [|done].
    injection H as <-. destruct (IH ys' eq_refl) as [IH1 IH2].
    split; [simpl; by rewrite IH1|].
    intros [|i] x' Hx'; simpl in *.
    + injection Hx' as <-. by exists y.
    + by apply IH2.
Qed.

Lemma collect_raises {A B : Type} (P : exn -> Prop) (f : A -> result B)
    (l : list A) e :
  (forall x e', f x = Raise e' -> P e') -> collect f l = Raise e -> P e.
Proof.
  intros Hf. induction l as [|x l IH]; simpl; [done|].
  destruct (f x) as [y|e'] eqn:Hfx.
  - destruct (collect f l) as [ys|e']; [done|].
    intros [= <-]. by apply IH.
  - intros [= <-]. by eapply Hf.
Qed.

Lemma ndarray_setitem_returns arr p v :
  (exists arr', ndarray_setitem arr p v = Ok arr') <->
  is_Some (np_index (shape0 arr) p.1) /\ is_Some (np_index (shape1 arr) p.2).
Proof.
  unfold ndarray_setitem.
  destruct (np_index (shape0 arr) p.1) as [n|],
           (np_index (shape1 arr) p.2) as [m|]; split;
    try (intros [? ?]; done); try (intros [[? ?] [? ?]]; done).
  intros _. by eexists.
Qed.

Lemma gen_obs_agent_returns self a :
  (exists planes, _gen_obs_agent self a = Ok planes) <->
  valid_index (grid self) (pos a) /\ valid_index (grid self) (goal a).
Proof.
  unfold _gen_obs_agent, valid_index. rewrite collect_returns. split.
  - intros H.
    destruct (H GridLegend.AGENT) as [pa Hpa]; [unfold legend; solve [repeat constructor]|].
    destruct (H GridLegend.GOAL) as [pg Hpg]; [unfold legend; solve [repeat constructor]|].
    unfold obs_plane in Hpa, Hpg. simpl in Hpa, Hpg.
    split; eapply (ndarray_setitem_returns (key_plane (grid self) _));
      by eexists.
  - intros [Hp Hg] key Hkey. unfold obs_plane.
    repeat case_bool_decide; [| |by eexists];
      by apply (ndarray_setitem_returns (key_plane (grid self) key)).
Qed.

Lemma in_bounds_valid_index g p : in_bounds g p = true -> valid_index g p.
Proof.
  unfold in_bounds, valid_index. intros [H1 H2]%andb_true_iff.
  apply bool_decide_eq_true_1 in H1, H2.
  rewrite !np_index_in_range by done. by split; eexists.
Qed.

(** X15: [gen_obs] returns exactly when the position and the goal of every
    agent index the grid (a negative index counting from the end, as numpy
    has it); it then returns one observation of four planes per agent, and it
    raises [IndexError] otherwise.  In particular it returns when every agent
    and every goal is on the grid. *)
Theorem gen_obs_returns_iff self :
  ((exists obs, gen_obs self = Ok obs) <->
   forall a, a ∈ agents self ->
     valid_index (grid self) (pos a) /\ valid_index (grid self) (goal a)) /\
  (forall obs, gen_obs self = Ok obs ->
     length obs = length (agents self) /\
     Forall (fun planes => length planes = 4%nat) obs) /\
  (forall e, gen_obs self = Raise e -> e = IndexError) /\
  (on_grid (grid self) (agents self) ->
   (forall a, a ∈ agents self -> in_bounds (grid self) (goal a) = true) ->
   exists obs, gen_obs self = Ok obs).
Proof.
  assert ((exists obs, gen_obs self = Ok obs) <->
          forall a, a ∈ agents self ->
            valid_index (grid self) (pos a) /\
            valid_index (grid self) (goal a)) as Hiff.
  { unfold gen_obs. rewrite collect_returns.
    split; intros H a Ha; by apply gen_obs_agent_returns, H. }
  split_and!.
  - exact Hiff.
  - intros obs H. unfold gen_obs in H.
    apply collect_length in H as [Hlen Hall]. split; [done|].
    apply Forall_lookup. intros i planes Hi.
    destruct (lookup_lt_is_Some_2 (agents self) i) as [a Ha].
    { rewrite <- Hlen. by eapply lookup_lt_Some. }
    destruct (Hall i a Ha) as (planes' & Hp & Hi').
    rewrite Hi in Hi'. injection Hi' as <-.
    unfold _gen_obs_agent in Hp. by apply collect_length in Hp as [-> _].
  - intros e. unfold gen_obs.
    apply (collect_raises (fun e => e = IndexError)).
    intros a e'. unfold _gen_obs_agent.
    apply (collect_raises (fun e => e = IndexError)).
    intros key e''. unfold obs_plane, ndarray_setitem.
    intros H. repeat case_match; by simplify_eq.
  - intros Hon Hgoal. apply Hiff. intros a Ha.
    apply list_elem_of_lookup in Ha as Hi. destruct Hi as [i Hi].
    split; apply in_bounds_valid_index; [by eapply Hon | by apply Hgoal].
Qed.

(** X16: what an agent sees of itself.  On a grid that has no cell marked
    as agent or goal, as the grids made by [reset] are, the observation of an
    agent that stands on the grid, with its goal on the grid, consists of the
    obstacle plane and the charging-station plane of the grid, of a plane
    that holds the battery of the agent on its own cell and 0 elsewhere, and
    of a plane that holds 1 on its goal and 0 elsewhere.  No other agent
    appears in it, and an agent with an empty battery leaves no mark. *)
Theorem observation_of_agent self a planes :
  _gen_obs_agent self a = Ok planes ->
  in_bounds (grid self) (pos a) = true ->
  in_bounds (grid self) (goal a) = true ->
  (forall n m, in_range (grid self) n m ->
     item (grid self) n m ≠ GridLegend.AGENT /\
     item (grid self) n m ≠ GridLegend.GOAL) ->
  exists p_agent p_goal,
    planes = [key_plane (grid self) GridLegend.OBSTACLE;
              key_plane (grid self) GridLegend.GCS; p_agent; p_goal] /\
    (forall n m, in_range (grid self) n m ->
       item p_agent n m =
         if bool_decide ((n, m) = pos a) then battery a else 0) /\
    (forall n m, in_range (grid self) n m ->
       item p_goal n m = if bool_decide ((n, m) = goal a) then 1 else 0).
Proof.
  intros Hobs Hpos Hgoal Hplain.
  unfold _gen_obs_agent, legend in Hobs. simpl in Hobs.
  unfold obs_plane in Hobs. simpl in Hobs.
  unfold ndarray_setitem in Hobs. simpl in Hobs.
  unfold in_bounds in Hpos, Hgoal.
  apply andb_true_iff in Hpos as [Hp1 Hp2].
  apply andb_true_iff in Hgoal as [Hg1 Hg2].
  apply bool_decide_eq_true_1 in Hp1, Hp2, Hg1, Hg2.
  rewrite !np_index_in_range in Hobs by done.
  injection Hobs as <-. eexists _, _. split; [done|]. simpl.
  destruct (pos a) as [pn pm], (goal a) as [gn gm]. simpl in *.
  split; intros n m Hnm; destruct (Hplain n m Hnm) as [Hna Hng].
  - rewrite (bool_decide_eq_false_2 _ Hna).
    rewrite (bool_decide_ext (n = pn /\ m = pm) ((n, m) = (pn, pm))); [done|].
    split; [by intros [-> ->] | by intros [= -> ->]].
  - rewrite (bool_decide_eq_false_2 _ Hng).
    rewrite (bool_decide_ext (n = gn /\ m = gm) ((n, m) = (gn, gm))); [done|].
    split; [by intros [-> ->] | by intros [= -> ->]].
Qed.

(** X17: [grid2tensor] is a one-hot encoding that loses nothing.  It makes
    four planes of zeros and ones; on every cell at most one of them holds a
    1; and the value of a cell that is 0 or a key of the legend is recovered
    as the sum of the keys weighted by the planes. *)
Theorem grid2tensor_one_hot g :
  exists p1 p2 p3 p4,
    grid2tensor g = [p1; p2; p3; p4] /\
    forall n m,
      (forall p, p ∈ [p1; p2; p3; p4] -> item p n m = 0 \/ item p n m = 1) /\
      0 <= item p1 n m + item p2 n m + item p3 n m + item p4 n m <= 1 /\
      (0 <= item g n m <= 4 ->
       item g n m =
         1 * item p1 n m + 2 * item p2 n m + 3 * item p3 n m
         + 4 * item p4 n m).
Proof.
  eexists _, _, _, _. split; [reflexivity|]. intros n m. simpl.
  unfold GridLegend.OBSTACLE, GridLegend.GCS, GridLegend.AGENT,
    GridLegend.GOAL.
  split_and!.
  - intros p Hp. repeat (apply elem_of_cons in Hp as [->|Hp]); simpl;
      try (case_bool_decide; auto). by apply elem_of_nil in Hp.
  - repeat case_bool_decide; lia.
  - repeat case_bool_decide; lia.
  - intros Hv. repeat case_bool_decide; lia.
Qed.

(** * [reset] *)

Lemma any_of_false {A : Type} (f : A -> result bool) (l : list A) :
  any_of f l = Ok false -> forall x, x ∈ l -> f x = Ok false.
Proof.
  induction l as [|y l IH]; simpl; intros H x Hx.
  - by apply elem_of_nil in Hx.
  - destruct (f y) as [[|]|e] eqn:Hy; try done.
    apply elem_of_cons in Hx as [->|Hx]; [done | by apply IH].
Qed.

Lemma first_accepted_Ok {A : Type} (rejected : A -> result bool)
    (draws : list A) x :
  first_accepted rejected draws = Some (Ok x) ->
  x ∈ draws /\ rejected x = Ok false.
Proof.
  induction draws as [|y l IH]; simpl; [done|].
  destruct (rejected y) as [[|]|e] eqn:Hy; try done.
  - intros H. destruct (IH H). split; [by right | done].
  - intros [= <-]. split; [by left | done].
Qed.



Lemma assign_ok starts goals k ags ags' :
  for_range_exn k (assign_body starts goals) ags = (ags', None) ->
  length ags' = length ags /\
  (forall i, (k <= i)%nat -> ags' !! i = ags !! i) /\
  forall i a, (i < k)%nat -> ags !! i = Some a ->
    exists st gl, starts !! i = Some st /\ goals !! i = Some gl /\
      ags' !! i = Some (set_init a (st, gl)).
Proof.
  intros Hrun.
  apply (for_range_exn_ok_ind (fun k (t : list GridworldAgent) =>
    length t = length ags /\
    (forall i, (k <= i)%nat -> t !! i = ags !! i) /\
    forall i a, (i < k)%nat -> ags !! i = Some a ->
      exists st gl, starts !! i = Some st /\ goals !! i = Some gl /\
        t !! i = Some (set_init a (st, gl)))
    _ _ _ _ Hrun).
  - split_and!; try done. intros i a Hi. lia.
  - intros i t t' Hi (L & Hge & Hlt) Hb. unfold assign_body in Hb.
    rewrite (Hge i) in Hb by lia.
    destruct (ags !! i) as [a|] eqn:Ha; [|done].
    destruct (starts !! i) as [st|] eqn:Hst; [|done].
    destruct (goals !! i) as [gl|] eqn:Hgl; [|done].
    assert (i < length t)%nat as Hit.
    { rewrite L. by eapply lookup_lt_Some. }
    injection Hb as <-. rewrite length_insert. split_and!; try done.
    + intros j Hj. rewrite list_lookup_insert_ne by lia. apply Hge. lia.
    + intros j b Hj Hjb. destruct (decide (j = i)) as [->|Hne].
      * simplify_eq. exists st, gl.
        rewrite list_lookup_insert_eq by done. done.
      * rewrite list_lookup_insert_ne by done. apply Hlt; [lia | done].
Qed.

Lemma ndarray_setitem_in_bounds arr p v arr' :
  in_bounds arr p = true ->
  ndarray_setitem arr p v = Ok arr' ->
  shape0 arr' = shape0 arr /\ shape1 arr' = shape1 arr /\
  forall n m, item arr' n m =
    if bool_decide ((n, m) = p) then v else item arr n m.
Proof.
  unfold in_bounds, ndarray_setitem. intros [H1 H2]%andb_true_iff.
  apply bool_decide_eq_true_1 in H1, H2.
  rewrite !np_index_in_range by done. intros [= <-]. simpl.
  split_and!; try done. intros n m. destruct p as [pn pm]. simpl.
  rewrite (bool_decide_ext (n = pn /\ m = pm) ((n, m) = (pn, pm))); [done|].
  split; [by intros [-> ->] | by intros [= -> ->]].
Qed.

Lemma reset_env_returns self gcs0 rsg rg draws pls self' gcs' obs :
  reset_env self gcs0 rsg rg draws pls = Some (self', gcs', Ok obs) ->
  exists self1 self2,
    reset_grid_part self gcs0 rsg rg draws = Some (self1, gcs', None) /\
    reset_starts_part self1 gcs' rsg pls = Some (self2, None) /\
    self' = set_agents self2 (reset_agent <$> agents self2) /\
    gen_obs self' = Ok obs.
Proof.
  unfold reset_env. intros H.
  destruct (reset_grid_part self gcs0 rsg rg draws)
    as [[[self1 gcs1] [e|]]|] eqn:H1; try done.
  destruct (reset_starts_part self1 gcs1 rsg pls) as [[self2 [e|]]|] eqn:H2;
    try done.
  injection H as <- <- H. by exists self1, self2.
Qed.

Lemma reset_grid_part_ok self gcs0 rsg rg draws self1 gcs' :
  reset_grid_part self gcs0 rsg rg draws = Some (self1, gcs', None) ->
  if rg then
    gcs' ∈ draws /\ gcs_rejected self rsg gcs' = Ok false /\
    exists g, ndarray_setitem (_gen_grid self) gcs' GridLegend.GCS = Ok g /\
      self1 = set_grid self g
  else self1 = self /\ gcs' = gcs0.
Proof.
  unfold reset_grid_part. destruct rg.
  - destruct (first_accepted _ draws) as [[gcs|e]|] eqn:Hfa; try done.
    apply first_accepted_Ok in Hfa as [Hin Hrej].
    destruct (ndarray_setitem _ gcs _) as [g|e] eqn:Hset; [|done].
    intros [= <- <-]. split_and!; try done. by exists g.
  - by intros [= <- <-].
Qed.

Lemma reset_starts_part_ok self1 gcs rsg pls self2 :
  reset_starts_part self1 gcs rsg pls = Some (self2, None) ->
  if rsg then
    exists starts goals ags,
      (starts, goals) ∈ pls /\
      placement_rejected (grid self1) gcs (starts, goals) = Ok false /\
      for_range_exn (length (agents self1)) (assign_body starts goals)
        (agents self1) = (ags, None) /\
      self2 = set_agents self1 ags
  else self2 = self1.
Proof.
  unfold reset_starts_part. destruct rsg.
  - destruct (first_accepted _ pls) as [[[starts goals]|e]|] eqn:Hfa;
      try done.
    apply first_accepted_Ok in Hfa as [Hin Hrej].
    destruct (for_range_exn _ _ _) as [ags [e|]] eqn:Hrun; [done|].
    intros [= <-]. by exists starts, goals, ags.
  - by intros [= <-].
Qed.

(** X18: a reset that regenerates the grid leaves a grid of the same shape
    without any obstacle: every cell is 0 except the cell drawn for the
    charging station.  When the starts and goals are kept, the station is
    within Manhattan distance 10 of the start and of the goal of every
    agent. *)
Theorem reset_grid_is_empty self gcs0 rsg draws pls self' gcs' obs :
  (forall p, p ∈ draws -> in_bounds (grid self) p = true) ->
  reset_env self gcs0 rsg true draws pls = Some (self', gcs', Ok obs) ->
  gcs' ∈ draws /\
  shape0 (grid self') = shape0 (grid self) /\
  shape1 (grid self') = shape1 (grid self) /\
  (forall n m, item (grid self') n m =
     if bool_decide ((n, m) = gcs') then GridLegend.GCS else 0) /\
  (rsg = false ->
   forall a, a ∈ agents self' ->
     manhattan gcs' (pos a) <= 10 /\ manhattan gcs' (goal a) <= 10).
Proof.
  intros Hdraws Hreset.
  apply reset_env_returns in Hreset as (self1 & self2 & H1 & H2 & -> & _).
  apply reset_grid_part_ok in H1 as (Hin & Hrej & g & Hset & ->).
  apply reset_starts_part_ok in H2.
  assert (in_bounds (_gen_grid self) gcs' = true) as Hb.
  { by apply Hdraws. }
  destruct (ndarray_setitem_in_bounds _ _ _ _ Hb Hset) as (S0 & S1 & Hitem).
  assert (grid self2 = g) as Hg.
  { destruct rsg; [|by subst].
    destruct H2 as (? & ? & ? & _ & _ & _ & ->). done. }
  simpl. rewrite Hg. split_and!; try done.
  intros -> a Ha. subst self2. simpl in Ha.
  apply list_elem_of_fmap in Ha as (a0 & -> & Ha0). simpl.
  unfold gcs_rejected in Hrej.
  destruct (grid_getitem (_gen_grid self) gcs') as [c|e]; [|done].
  destruct (truthy c); [done|].
  pose proof (any_of_false _ _ Hrej a0 Ha0) as Hoff.
  unfold agent_off in Hoff.
  destruct (grid_getitem _ (init_pos a0)) as [c1|e]; [|done].
  destruct (truthy c1); [done|].
  destruct (grid_getitem _ (init_goal a0)) as [c2|e]; [|done].
  injection Hoff as Hoff.
  apply orb_false_iff in Hoff as [Hoff H3].
  apply orb_false_iff in Hoff as [_ H2'].
  apply bool_decide_eq_false_1 in H2', H3. lia.
Qed.


Lemma assign_is_zip starts goals ags ags' :
  for_range_exn (length ags) (assign_body starts goals) ags = (ags', None) ->
  ags' = zip_with set_init ags (zip starts goals).
Proof.
  intros (Hlen & _ & Hlt)%assign_ok. apply list_eq. intros i.
  destruct (ags !! i) as [a|] eqn:Ha.
  - destruct (Hlt i a) as (st & gl & Hst & Hgl & ->);
      [by eapply lookup_lt_Some | done |].
    symmetry. apply lookup_zip_with_Some. exists a, (st, gl).
    split_and!; try done. apply lookup_zip_with_Some. by exists st, gl.
  - apply lookup_ge_None in Ha.
    rewrite (proj2 (lookup_ge_None ags' i)) by lia.
    symmetry. apply lookup_ge_None. rewrite length_zip_with. lia.
Qed.

(** X20: when [reset] returns, the environment it leaves is the one the
    final loop of [reset] makes of the grid and of the starts and goals that
    were accepted, so it is an environment of an episode in the sense of
    [reachable]; the observations returned are those of that environment;
    and the step counter and the random stream are as before the reset. *)
Theorem reset_env_is_reset self gcs0 rsg rg draws pls self' gcs' obs :
  reset_env self gcs0 rsg rg draws pls = Some (self', gcs', Ok obs) ->
  (exists new_grid starts_goals,
     self' = reset self new_grid starts_goals /\
     (is_Some new_grid <-> rg = true) /\
     (is_Some starts_goals <-> rsg = true)) /\
  reachable self' /\
  gen_obs self' = Ok obs /\
  step_count self' = step_count self /\ np_random self' = np_random self.
Proof.
  intros Hreset.
  apply reset_env_returns in Hreset as (self1 & self2 & H1 & H2 & -> & Hobs).
  apply reset_grid_part_ok in H1. apply reset_starts_part_ok in H2.
  assert (exists new_grid starts_goals,
            set_agents self2 (reset_agent <$> agents self2)
              = reset self new_grid starts_goals /\
            (is_Some new_grid <-> rg = true) /\
            (is_Some starts_goals <-> rsg = true)) as Hex.
  { destruct rg.
    - destruct H1 as (_ & _ & g & _ & ->). exists (Some g). destruct rsg.
      + destruct H2 as (starts & goals & ags & _ & _ & Hrun & ->).
        exists (Some (zip starts goals)).
        apply assign_is_zip in Hrun as ->.
        split_and!; by (done || (split; by eexists)).
      + subst self2. exists None.
        split_and!; try done; split; try done; by intros [? ?].
      - destruct H1 as [-> _]. exists None. destruct rsg.
      + destruct H2 as (starts & goals & ags & _ & _ & Hrun & ->).
        exists (Some (zip starts goals)).
        apply assign_is_zip in Hrun as ->.
        split_and!; try done; split; try done; try (by intros [? ?]);
          by eexists.
      + subst self2. exists None.
        split_and!; try done; split; try done; by intros [? ?]. }
  destruct Hex as (new_grid & starts_goals & Heq & Hg & Hs).
  split_and!.
  - by exists new_grid, starts_goals.
  - rewrite Heq. apply reach_reset.
  - done.
  - by rewrite Heq.
  - by rewrite Heq.
Qed.

(** * The reward table and the course of a step *)

Lemma reward_of_flags g rw rw' ags i a :
  (reward_of g rw ags i a).1.2 = (reward_of g rw' ags i a).1.2 /\
  (reward_of g rw ags i a).2 = (reward_of g rw' ags i a).2.
Proof.
  unfold reward_of. destruct (pos a) as [n m].
  destruct (negb (in_bounds g (n, m)));
    [by destruct (bool_decide (battery a <= 0))|].
  destruct (bool_decide (item g n m = GridLegend.OBSTACLE)
            || bool_decide ((n, m) ∈ other_positions ags i));
    [by destruct (bool_decide (battery a <= 0))|].
  destruct (bool_decide ((n, m) = goal a));
    by destruct (bool_decide (battery a <= 0)).
Qed.

Lemma assign_reward_course g rw rw' i t1 t2 :
  same_course t1 t2 ->
  same_course (assign_reward g rw i t1).1 (assign_reward g rw' i t2).1 /\
  (assign_reward g rw i t1).2 = (assign_reward g rw' i t2).2.
Proof.
  intros (Ha & Hi & Hd & Hr). unfold assign_reward, _reward_agent.
  rewrite Ha. destruct (l_agents t2 !! i) as [a|]; [|done].
  destruct (reward_of_flags g rw rw' (l_agents t2) i a) as [E1 E2].
  destruct (reward_of g rw (l_agents t2) i a) as [[r ill] d].
  destruct (reward_of g rw' (l_agents t2) i a) as [[r' ill'] d'].
  simpl in E1, E2. subst ill' d'. unfold setitem. rewrite Hr.
  case_bool_decide; [|done]. simpl. rewrite Hi.
  case_bool_decide; simpl.
  2:{ split; [|done]. unfold same_course. simpl.
      by rewrite !length_insert. }
  rewrite Hd. case_bool_decide; simpl; (split; [|done]);
    unfold same_course; simpl; by rewrite !length_insert.
Qed.

Lemma first_eval_course g rw rw' t1 t2 :
  same_course t1 t2 ->
  same_course (first_eval g rw t1).1 (first_eval g rw' t2).1 /\
  (first_eval g rw t1).2 = (first_eval g rw' t2).2.
Proof.
  intros Hc. unfold first_eval. destruct Hc as (Ha & Hrest). rewrite Ha.
  apply (for_range_exn_rel same_course); [by split|].
  intros i u1 u2 _ Hu. unfold first_eval_body.
  pose proof Hu as (Hua & _). rewrite Hua.
  destruct (l_agents u2 !! i) as [a|]; [|done].
  destruct (done a); [done|]. by apply assign_reward_course.
Qed.

Lemma conflict_pass_course g rw rw' old_pos t1 t2 :
  same_course t1 t2 ->
  same_course (conflict_pass g rw old_pos t1).1
              (conflict_pass g rw' old_pos t2).1 /\
  (conflict_pass g rw old_pos t1).2 = (conflict_pass g rw' old_pos t2).2.
Proof.
  intros Hc. unfold conflict_pass. pose proof Hc as (Ha & _). rewrite Ha.
  destruct (for_range_exn_rel same_course (length (l_agents t2))
              (cancel_body old_pos) (cancel_body old_pos) t1 t2 Hc)
    as [Hc1 He1].
  { intros i u1 u2 _ (Hua & Hui & Hud & Hur). unfold cancel_body.
    rewrite Hui. destruct (l_illegals u2 !! i) as [[|]|]; [|done|done].
    destruct (old_pos !! i); [|done]. rewrite Hua.
    destruct (l_agents u2 !! i); [|done]. simpl. split; [|done].
    unfold same_course. simpl. split_and!; congruence. }
  destruct (for_range_exn _ (cancel_body old_pos) t1) as [u1 e1].
  destruct (for_range_exn _ (cancel_body old_pos) t2) as [u2 e2].
  simpl in *. subst e2. destruct e1; [done|].
  apply (for_range_exn_rel same_course); [done|].
  intros i v1 v2 _ Hv. unfold reeval_body.
  pose proof Hv as (Hva & _). rewrite Hva.
  destruct (l_agents v2 !! i) as [a|]; [|done].
  destruct (done a); [done|]. destruct (old_pos !! i); [|done].
  case_bool_decide; [done|]. by apply assign_reward_course.
Qed.

Lemma solve_conflicts_course fuel g rw rw' old_pos t1 t2 :
  same_course t1 t2 ->
  match solve_conflicts fuel g rw old_pos t1,
        solve_conflicts fuel g rw' old_pos t2 with
  | Some r1, Some r2 => same_course r1.1 r2.1 /\ r1.2 = r2.2
  | None, None => True
  | _, _ => False
  end.
Proof.
  revert t1 t2. induction fuel as [|fuel IH]; intros t1 t2 Hc; simpl;
    pose proof Hc as (_ & Hi & _); rewrite Hi;
    destruct (any (l_illegals t2)); try done.
  destruct (conflict_pass_course g rw rw' old_pos t1 t2 Hc) as [Hc1 He].
  destruct (conflict_pass g rw old_pos t1) as [u1 e1].
  destruct (conflict_pass g rw' old_pos t2) as [u2 e2].
  simpl in *. subst e2. destruct e1; [done|]. by apply IH.
Qed.

(** X21: the reward table does not steer the environment.  With any other
    reward table [step] leaves the same agents (positions, batteries, done
    flags), the same random stream and step counter, and returns the same
    done flags or raises the same exception; only the rewards returned
    differ. *)
Theorem reward_table_does_not_steer self rw actions :
  course <$> step (set_rewards self rw) actions
    = course <$> step self actions.
Proof.
  unfold step, step_fuel, course. simpl.
  case_bool_decide; simpl; [|done].
  change (gen_moves (set_step_count (set_rewards self rw)
                       (step_count self + 1)) actions)
    with (gen_moves (set_step_count self (step_count self + 1)) actions).
  destruct (gen_moves _ actions) as [[moves rng] [e|]]; simpl; [done|].
  destruct (apply_moves moves (agents self)) as [ags [e|]]; simpl; [done|].
  set (s0 := mkLocals ags (replicate (length actions) (Qmake 0 1))
                      ((fun _ => false) <$> ags) (done <$> ags)).
  destruct (first_eval_course (grid self) rw (rewards self) s0 s0)
    as [Hc1 He1]; [done|].
  destruct (first_eval (grid self) rw s0) as [u1 e1].
  destruct (first_eval (grid self) (rewards self) s0) as [u2 e2].
  simpl in *. subst e2. destruct e1; simpl.
  { destruct Hc1 as (-> & _). done. }
  pose proof (solve_conflicts_course (length (agents self)) (grid self) rw
                (rewards self) (pos <$> agents self) u1 u2 Hc1) as Hsc.
  destruct (solve_conflicts _ _ rw _ u1) as [[v1 f1]|],
           (solve_conflicts _ _ (rewards self) _ u2) as [[v2 f2]|];
    try done.
  destruct Hsc as [(Ha & _ & Hd & _) Hf]. simpl in *. subst f2.
  rewrite Ha, Hd. destruct f1; simpl; [done|].
  destruct (finish _ _ _) as [ags' [e|]]; done.
Qed.

(** * [Grid.get] and [Grid.set] *)

(** X22: [Grid.set] and [Grid.get] agree.  On a cell of the grid, [set]
    returns a grid of the same size in which [get] finds the value written
    on that cell and the old values on every other cell.  Off the grid, which
    includes every negative index, both raise [AssertionError]. *)
Theorem grid_get_set {A : Type} (self : Grid.t A) i j (v : A) :
  (0 <= i < Grid.width self /\ 0 <= j < Grid.height self ->
   exists self', Grid.set self i j v = Ok self' /\
     Grid.width self' = Grid.width self /\
     Grid.height self' = Grid.height self /\
     Grid.get self' i j = Ok v /\
     forall i' j', (i', j') ≠ (i, j) ->
       Grid.get self' i' j' = Grid.get self i' j') /\
  (¬ (0 <= i < Grid.width self /\ 0 <= j < Grid.height self) ->
   Grid.set self i j v = Raise AssertionError /\
   Grid.get self i j = Raise AssertionError).
Proof.
  split.
  - intros [Hi Hj]. unfold Grid.set.
    rewrite !bool_decide_eq_true_2 by done. simpl.
    eexists. split; [done|]. simpl. split_and!; try done.
    + unfold Grid.get. cbn [Grid.width Grid.height Grid.grid].
      rewrite (bool_decide_eq_true_2 _ Hi), (bool_decide_eq_true_2 _ Hj).
      cbn [negb]. by rewrite (bool_decide_eq_true_2 (i = i /\ j = j)).
    + intros i' j' Hne. unfold Grid.get.
      cbn [Grid.width Grid.height Grid.grid].
      rewrite (bool_decide_eq_false_2 (i' = i /\ j' = j)); [done|].
      intros [-> ->]. done.
  - intros Hout. unfold Grid.set, Grid.get.
    destruct (decide (0 <= i < Grid.width self)) as [Hi|Hi].
    + rewrite (bool_decide_eq_true_2 _ Hi). simpl.
      rewrite bool_decide_eq_false_2 by tauto. done.
    + by rewrite (bool_decide_eq_false_2 _ Hi).
Qed.

(** * [read_reward_config] *)

(** X23: [read_reward_config], when it returns, has replaced exactly the
    rewards whose option is present in the section by the float of the
    option and has kept the others; it changes nothing else of the
    environment; and reading the same configuration again changes
    nothing. *)
Theorem read_reward_config_overrides self config self' :
  read_reward_config self config = (self', None) ->
  (exists grid_param,
     config "Gridworld Parameters"%string = Some grid_param /\
     overridden grid_param "FREE" (free (rewards self))
       (free (rewards self')) /\
     overridden grid_param "GOAL" (goal_reward (rewards self))
       (goal_reward (rewards self')) /\
     overridden grid_param "OBSTACLE" (obstacles (rewards self))
       (obstacles (rewards self')) /\
     overridden grid_param "OUT_OF_BOUNDS" (out_of_bounds (rewards self))
       (out_of_bounds (rewards self')) /\
     overridden grid_param "BATTERY_DEPLETED"
       (battery_depleted (rewards self))
       (battery_depleted (rewards self'))) /\
  self' = set_rewards self (rewards self') /\
  read_reward_config self' config = (self', None).
Proof.
  unfold read_reward_config, getfloat, overridden.
  destruct (config "Gridworld Parameters"%string) as [grid_param|];
    [|done].
  destruct (grid_param "FREE"%string) as [[v1|]|] eqn:H1; try done;
  destruct (grid_param "GOAL"%string) as [[v2|]|] eqn:H2; try done;
  destruct (grid_param "OBSTACLE"%string) as [[v3|]|] eqn:H3; try done;
  destruct (grid_param "OUT_OF_BOUNDS"%string) as [[v4|]|] eqn:H4; try done;
  destruct (grid_param "BATTERY_DEPLETED"%string) as [[v5|]|] eqn:H5;
    try done;
  simpl; intros Hret; injection Hret as Hret; subst self'; simpl;
  (split; [exists grid_param; rewrite H1, H2, H3, H4, H5; by split_and!|]);
  by split.
Qed.

(** * The further properties at work on the example worlds *)

Lemma two_neighbours_on_grid : on_grid empty_grid (agents two_neighbours).
Proof.
  intros i a Ha. destruct i as [|[|i]]; try done; by injection Ha as <-.
Defined.

Lemma step_keeps_agents_on_grid_witness :
  on_grid (grid two_neighbours) (agents two_neighbours) /\
  step two_neighbours [1; 0] =
    Some (two_neighbours_swapped,
          Ok ([free default_rewards; free default_rewards], [false; false])) /\
  grid two_neighbours_swapped = grid two_neighbours /\
  on_grid (grid two_neighbours_swapped) (agents two_neighbours_swapped) /\
  (off_obstacles (grid two_neighbours) (agents two_neighbours) ->
   off_obstacles (grid two_neighbours_swapped)
     (agents two_neighbours_swapped)).
Proof.
  split; [exact two_neighbours_on_grid|]. split; [exact two_neighbours_step|].
  exact (step_keeps_agents_on_grid _ _ _ _ two_neighbours_on_grid
           two_neighbours_step).
Defined.





Lemma beside_done_step :
  step beside_done [1; 0] =
    Some (world empty_grid
            [mkAgent 0 (0, 0) (0, 0) (4, 4) (4, 4) 140 false;
             agent_at 1 (0, 1) 150 true] 1 1,
          Ok ([obstacles default_rewards; Qmake 0 1], [false; true])).
Proof. reflexivity. Defined.

Lemma beside_done_moves :
  gen_moves beside_done [1; 0] = (([(0, 1); (0, 1)], no_noise 1), None).
Proof. reflexivity. Defined.

Lemma beside_done_taken :
  taken (grid beside_done) (agents beside_done) [(0, 1); (0, 1)] 0 (0, 1).
Proof.
  right. exists 1%nat, (agent_at 1 (0, 1) 150 true).
  split; [discriminate|]. split; reflexivity.
Defined.

Lemma illegal_move_is_cancelled_witness :
  step beside_done [1; 0] =
    Some (world empty_grid
            [mkAgent 0 (0, 0) (0, 0) (4, 4) (4, 4) 140 false;
             agent_at 1 (0, 1) 150 true] 1 1,
          Ok ([obstacles default_rewards; Qmake 0 1], [false; true])) /\
  gen_moves beside_done [1; 0] = (([(0, 1); (0, 1)], no_noise 1), None) /\
  taken (grid beside_done) (agents beside_done) [(0, 1); (0, 1)] 0 (0, 1) /\
  exists a',
    [mkAgent 0 (0, 0) (0, 0) (4, 4) (4, 4) 140 false;
     agent_at 1 (0, 1) 150 true] !! O = Some a' /\
    pos a' = (0, 0) /\ done a' = false /\
    [false; true] !! O = Some false /\
    [obstacles default_rewards; Qmake 0 1] !! O
      = Some (obstacles default_rewards).
Proof.
  split; [exact beside_done_step|]. split; [exact beside_done_moves|].
  split; [exact beside_done_taken|].
  exact (illegal_move_is_cancelled beside_done [1; 0] _ _ _ _ _ O
           (agent_at 0 (0, 0) 150 false) (0, 1)
           beside_done_step beside_done_moves eq_refl eq_refl eq_refl
           (or_intror beside_done_taken)).
Defined.

Lemma facing_step :
  step facing [1; 0] =
    Some (world empty_grid
            [mkAgent 0 (0, 0) (0, 0) (4, 4) (4, 4) 140 false;
             mkAgent 1 (0, 2) (0, 2) (4, 4) (4, 4) 140 false] 2 1,
          Ok ([obstacles default_rewards; obstacles default_rewards],
              [false; false])).
Proof. reflexivity. Defined.

Lemma same_target_both_cancelled_witness :
  step facing [1; 0] =
    Some (world empty_grid
            [mkAgent 0 (0, 0) (0, 0) (4, 4) (4, 4) 140 false;
             mkAgent 1 (0, 2) (0, 2) (4, 4) (4, 4) 140 false] 2 1,
          Ok ([obstacles default_rewards; obstacles default_rewards],
              [false; false])) /\
  gen_moves facing [1; 0] = (([(0, 1); (0, 1)], no_noise 2), None) /\
  exists a' b',
    [mkAgent 0 (0, 0) (0, 0) (4, 4) (4, 4) 140 false;
     mkAgent 1 (0, 2) (0, 2) (4, 4) (4, 4) 140 false] !! O = Some a' /\
    [mkAgent 0 (0, 0) (0, 0) (4, 4) (4, 4) 140 false;
     mkAgent 1 (0, 2) (0, 2) (4, 4) (4, 4) 140 false] !! (S O) = Some b' /\
    pos a' = (0, 0) /\ pos b' = (0, 2).
Proof.
  assert (O ≠ S O) as Hij by discriminate.
  split; [exact facing_step|]. split; [reflexivity|].
  exact (same_target_both_cancelled facing [1; 0] _ _ _
           [(0, 1); (0, 1)] (no_noise 2) O (S O)
           (agent_at 0 (0, 0) 150 false) (agent_at 1 (0, 2) 150 false) (0, 1)
           facing_step eq_refl Hij eq_refl eq_refl eq_refl eq_refl
           eq_refl eq_refl).
Defined.

Lemma successful_move_outcome_witness :
  step two_neighbours [1; 0] =
    Some (two_neighbours_swapped,
          Ok ([free default_rewards; free default_rewards], [false; false])) /\
  pos (mkAgent 0 (0, 0) (0, 1) (4, 4) (4, 4) 140 false)
    ≠ pos (agent_at 0 (0, 0) 150 false) /\
  in_bounds empty_grid (0, 1) = true /\
  item empty_grid 0 1 ≠ GridLegend.OBSTACLE /\
  (forall j b', j ≠ O -> agents two_neighbours_swapped !! j = Some b' ->
     pos b' ≠ (0, 1)) /\
  [free default_rewards; free default_rewards] !! O
    = Some (free default_rewards) /\
  done (mkAgent 0 (0, 0) (0, 1) (4, 4) (4, 4) 140 false) = false.
Proof.
  assert (pos (mkAgent 0 (0, 0) (0, 1) (4, 4) (4, 4) 140 false)
          ≠ pos (agent_at 0 (0, 0) 150 false)) as Hmv by discriminate.
  split; [exact two_neighbours_step|]. split; [exact Hmv|].
  exact (successful_move_outcome two_neighbours [1; 0] _ _ _ O
           (agent_at 0 (0, 0) 150 false)
           (mkAgent 0 (0, 0) (0, 1) (4, 4) (4, 4) 140 false)
           two_neighbours_step eq_refl eq_refl eq_refl Hmv).
Defined.

Lemma cancelled_move_is_penalised_witness :
  step beside_done [1; 0] =
    Some (world empty_grid
            [mkAgent 0 (0, 0) (0, 0) (4, 4) (4, 4) 140 false;
             agent_at 1 (0, 1) 150 true] 1 1,
          Ok ([obstacles default_rewards; Qmake 0 1], [false; true])) /\
  gen_moves beside_done [1; 0] = (([(0, 1); (0, 1)], no_noise 1), None) /\
  (0, 1) ≠ pos (agent_at 0 (0, 0) 150 false) /\
  done (mkAgent 0 (0, 0) (0, 0) (4, 4) (4, 4) 140 false) = false /\
  exists r, [obstacles default_rewards; Qmake 0 1] !! O = Some r /\
    penalty default_rewards 140 r.
Proof.
  assert ((0, 1) ≠ pos (agent_at 0 (0, 0) 150 false)) as Hmv by discriminate.
  split; [exact beside_done_step|]. split; [exact beside_done_moves|].
  split; [exact Hmv|].
  exact (cancelled_move_is_penalised beside_done [1; 0] _ _ _ _ _ O
           (agent_at 0 (0, 0) 150 false)
           (mkAgent 0 (0, 0) (0, 0) (4, 4) (4, 4) 140 false) (0, 1)
           beside_done_step beside_done_moves eq_refl eq_refl eq_refl Hmv
           eq_refl eq_refl).
Defined.

Lemma last_units_step :
  step last_units [1] =
    Some (world station_grid
            [mkAgent 0 (0, 0) (0, 1) (4, 4) (4, 4) 150 true] 1 1,
          Ok ([battery_depleted default_rewards], [true])).
Proof. reflexivity. Defined.

Lemma battery_after_step_witness :
  step last_units [1] =
    Some (world station_grid
            [mkAgent 0 (0, 0) (0, 1) (4, 4) (4, 4) 150 true] 1 1,
          Ok ([battery_depleted default_rewards], [true])) /\
  step two_neighbours [1; 0] =
    Some (two_neighbours_swapped,
          Ok ([free default_rewards; free default_rewards], [false; false])) /\
  (exists c, grid_getitem station_grid (0, 1) = Ok c /\
     150 = if bool_decide (c = GridLegend.GCS) then BATTERY else 10 - 10) /\
  (exists c, grid_getitem empty_grid (0, 1) = Ok c /\
     140 = if bool_decide (c = GridLegend.GCS) then BATTERY else 150 - 10).
Proof.
  split; [exact last_units_step|]. split; [exact two_neighbours_step|]. split.
  - exact (battery_after_step last_units [1] _ _ _ O
             (agent_at 0 (0, 0) 10 false)
             (mkAgent 0 (0, 0) (0, 1) (4, 4) (4, 4) 150 true)
             last_units_step eq_refl eq_refl eq_refl).
  - exact (battery_after_step two_neighbours [1; 0] _ _ _ O
             (agent_at 0 (0, 0) 150 false)
             (mkAgent 0 (0, 0) (0, 1) (4, 4) (4, 4) 140 false)
             two_neighbours_step eq_refl eq_refl eq_refl).
Defined.

Lemma step_reward_vector_witness :
  step beside_done [1; 0] =
    Some (world empty_grid
            [mkAgent 0 (0, 0) (0, 0) (4, 4) (4, 4) 140 false;
             agent_at 1 (0, 1) 150 true] 1 1,
          Ok ([obstacles default_rewards; Qmake 0 1], [false; true])) /\
  length [obstacles default_rewards; Qmake 0 1]
    = length (agents beside_done) /\
  length [false; true] = length (agents beside_done) /\
  forall i a, agents beside_done !! i = Some a ->
    exists r a',
      [obstacles default_rewards; Qmake 0 1] !! i = Some r /\
      [mkAgent 0 (0, 0) (0, 0) (4, 4) (4, 4) 140 false;
       agent_at 1 (0, 1) 150 true] !! i = Some a' /\
      [false; true] !! i = Some (done a') /\
      if done a then r = Qmake 0 1 /\ done a' = true
      else r ∈ reward_values default_rewards.
Proof.
  split; [exact beside_done_step|].
  exact (step_reward_vector beside_done [1; 0] _ _ _ beside_done_step).
Defined.

Lemma patrol_run : run patrol back_and_forth = Some patrol_tired.
Proof. vm_compute. reflexivity. Defined.

Lemma reset_after_episode_witness :
  run patrol back_and_forth = Some patrol_tired /\
  agents (reset patrol_tired None None) = agents (reset patrol None None) /\
  grid (reset patrol_tired None None) = grid (reset patrol None None) /\
  col_wind (reset patrol_tired None None) = col_wind patrol /\
  rewards (reset patrol_tired None None) = rewards patrol /\
  np_random (reset patrol_tired None None) = np_random patrol_tired /\
  step_count (reset patrol_tired None None) = step_count patrol_tired.
Proof.
  split; [exact patrol_run|].
  exact (reset_after_episode patrol back_and_forth patrol_tired None None
           patrol_run).
Defined.

Lemma right_is_legal : legal_action LegalActions.right.
Proof. right. left. reflexivity. Defined.

Lemma opposite_moves_cancel_witness :
  legal_action LegalActions.right /\
  np_getitem (col_wind two_neighbours) 2 = Ok 0 /\
  trans_function two_neighbours (2, 2) LegalActions.right 1 = Ok (2, 3) /\
  trans_function two_neighbours (2, 3) (opposite LegalActions.right) 0
    = Ok (2, 2).
Proof.
  split; [exact right_is_legal|]. split; [reflexivity|].
  split; [reflexivity|].
  exact (opposite_moves_cancel two_neighbours 2 2 LegalActions.right 1 0
           (2, 3) right_is_legal eq_refl eq_refl eq_refl).
Defined.

Lemma calm_is_calm : Forall (fun w => w = 0) (col_wind two_neighbours).
Proof. repeat constructor. Defined.

Lemma calm_step_ignores_stream_witness :
  Forall (fun w => w = 0) (col_wind two_neighbours) /\
  (fun r => (agents r.1, r.2))
    <$> step (set_np_random two_neighbours (gusty 7)) [1; 0]
  = (fun r => (agents r.1, r.2)) <$> step two_neighbours [1; 0].
Proof.
  split; [exact calm_is_calm|].
  exact (calm_step_ignores_stream two_neighbours (gusty 7) [1; 0]
           calm_is_calm).
Defined.

Lemma beside_done_run :
  run beside_done [[1; 0]; [3; 0]] =
    Some (world empty_grid
            [mkAgent 0 (0, 0) (1, 0) (4, 4) (4, 4) 130 false;
             agent_at 1 (0, 1) 150 true] 2 2).
Proof. vm_compute. reflexivity. Defined.

Lemma done_until_reset_witness :
  run beside_done [[1; 0]; [3; 0]] =
    Some (world empty_grid
            [mkAgent 0 (0, 0) (1, 0) (4, 4) (4, 4) 130 false;
             agent_at 1 (0, 1) 150 true] 2 2) /\
  agents beside_done !! (S O) = Some (agent_at 1 (0, 1) 150 true) /\
  [mkAgent 0 (0, 0) (1, 0) (4, 4) (4, 4) 130 false;
   agent_at 1 (0, 1) 150 true] !! (S O)
    = Some (agent_at 1 (0, 1) 150 true) /\
  forall new_grid starts_goals a',
    agents (reset (world empty_grid
                     [mkAgent 0 (0, 0) (1, 0) (4, 4) (4, 4) 130 false;
                      agent_at 1 (0, 1) 150 true] 2 2)
              new_grid starts_goals) !! (S O) = Some a' ->
    done a' = false /\ battery a' = BATTERY.
Proof.
  split; [exact beside_done_run|]. split; [reflexivity|].
  exact (done_until_reset beside_done [[1; 0]; [3; 0]] _ (S O)
           (agent_at 1 (0, 1) 150 true) beside_done_run eq_refl eq_refl).
Defined.

Lemma two_neighbours_goals :
  forall a, a ∈ agents two_neighbours ->
    in_bounds (grid two_neighbours) (goal a) = true.
Proof.
  intros a Ha. apply list_elem_of_lookup_1 in Ha as [i Ha].
  destruct i as [|[|i]]; try done; by injection Ha as <-.
Defined.

Lemma gen_obs_returns_iff_witness :
  on_grid (grid two_neighbours) (agents two_neighbours) /\
  (forall a, a ∈ agents two_neighbours ->
     in_bounds (grid two_neighbours) (goal a) = true) /\
  exists obs, gen_obs two_neighbours = Ok obs.
Proof.
  split; [exact two_neighbours_on_grid|]. split; [exact two_neighbours_goals|].
  exact (proj2 (proj2 (proj2 (gen_obs_returns_iff two_neighbours)))
           two_neighbours_on_grid two_neighbours_goals).
Defined.

Lemma empty_grid_unmarked :
  forall n m, in_range (grid two_neighbours) n m ->
    item (grid two_neighbours) n m ≠ GridLegend.AGENT /\
    item (grid two_neighbours) n m ≠ GridLegend.GOAL.
Proof. intros n m _. split; discriminate. Defined.

Lemma observation_of_agent_witness :
  exists planes,
    _gen_obs_agent two_neighbours (agent_at 0 (0, 0) 150 false) = Ok planes /\
    in_bounds (grid two_neighbours) (0, 0) = true /\
    in_bounds (grid two_neighbours) (4, 4) = true /\
    exists p_agent p_goal,
      planes = [key_plane empty_grid GridLegend.OBSTACLE;
                key_plane empty_grid GridLegend.GCS; p_agent; p_goal] /\
      (forall n m, in_range empty_grid n m ->
         item p_agent n m = if bool_decide ((n, m) = (0, 0)) then 150 else 0) /\
      (forall n m, in_range empty_grid n m ->
         item p_goal n m = if bool_decide ((n, m) = (4, 4)) then 1 else 0).
Proof.
  eexists. split; [reflexivity|]. split; [reflexivity|].
  split; [reflexivity|].
  exact (observation_of_agent two_neighbours (agent_at 0 (0, 0) 150 false) _
           eq_refl eq_refl eq_refl empty_grid_unmarked).
Defined.

Lemma centre_on_grid :
  forall p, p ∈ [(2, 2)] -> in_bounds (grid two_neighbours) p = true.
Proof.
  intros p Hp. apply list_elem_of_lookup_1 in Hp as [i Hp].
  destruct i as [|i]; try done; by injection Hp as <-.
Defined.

Lemma reset_grid_is_empty_witness :
  exists self' obs,
    (forall p, p ∈ [(2, 2)] -> in_bounds (grid two_neighbours) p = true) /\
    reset_env two_neighbours (0, 0) false true [(2, 2)] []
      = Some (self', (2, 2), Ok obs) /\
    (2, 2) ∈ [(2, 2)] /\
    shape0 (grid self') = 5 /\ shape1 (grid self') = 5 /\
    (forall n m, item (grid self') n m =
       if bool_decide ((n, m) = (2, 2)) then GridLegend.GCS else 0) /\
    (false = false ->
     forall a, a ∈ agents self' ->
       manhattan (2, 2) (pos a) <= 10 /\ manhattan (2, 2) (goal a) <= 10).
Proof.
  eexists _, _. split; [exact centre_on_grid|]. split; [reflexivity|].
  exact (reset_grid_is_empty two_neighbours (0, 0) false [(2, 2)] [] _ _ _
           centre_on_grid eq_refl).
Defined.


Lemma reset_env_is_reset_witness :
  exists self' obs,
    reset_env two_neighbours (0, 0) true true [(2, 2)] [fresh_placement]
      = Some (self', (2, 2), Ok obs) /\
    (exists new_grid starts_goals,
       self' = reset two_neighbours new_grid starts_goals /\
       (is_Some new_grid <-> true = true) /\
       (is_Some starts_goals <-> true = true)) /\
    reachable self' /\
    gen_obs self' = Ok obs /\
    step_count self' = step_count two_neighbours /\
    np_random self' = np_random two_neighbours.
Proof.
  eexists _, _. split; [reflexivity|].
  exact (reset_env_is_reset two_neighbours (0, 0) true true [(2, 2)]
           [fresh_placement] _ _ _ eq_refl).
Defined.

Lemma grid_get_set_witness :
  (0 <= 1 < Grid.width small_grid /\ 0 <= 2 < Grid.height small_grid) /\
  (exists self', Grid.set small_grid 1 2 7 = Ok self' /\
     Grid.width self' = 3 /\ Grid.height self' = 3 /\
     Grid.get self' 1 2 = Ok 7 /\
     forall i' j', (i', j') ≠ (1, 2) ->
       Grid.get self' i' j' = Grid.get small_grid i' j') /\
  ¬ (0 <= 1 < Grid.width small_grid /\ 0 <= 3 < Grid.height small_grid) /\
  Grid.set small_grid 1 3 7 = Raise AssertionError /\
  Grid.get small_grid 1 3 = Raise AssertionError.
Proof.
  assert (0 <= 1 < Grid.width small_grid /\ 0 <= 2 < Grid.height small_grid)
    as Hin.
  { simpl. lia. }
  assert (¬ (0 <= 1 < Grid.width small_grid /\
             0 <= 3 < Grid.height small_grid)) as Hout.
  { simpl. lia. }
  split; [exact Hin|].
  split; [exact (proj1 (grid_get_set small_grid 1 2 7) Hin)|].
  split; [exact Hout|].
  exact (proj2 (grid_get_set small_grid 1 3 7) Hout).
Defined.

Lemma read_reward_config_overrides_witness :
  read_reward_config two_neighbours example_config =
    (set_rewards two_neighbours
       (mkRewards (Qmake (-2) 1) (obstacles default_rewards) (Qmake 50 1)
                  (out_of_bounds default_rewards)
                  (battery_depleted default_rewards)), None) /\
  (exists grid_param,
     example_config "Gridworld Parameters" = Some grid_param /\
     overridden grid_param "FREE" (free default_rewards) (Qmake (-2) 1) /\
     overridden grid_param "GOAL" (goal_reward default_rewards) (Qmake 50 1) /\
     overridden grid_param "OBSTACLE" (obstacles default_rewards)
       (obstacles default_rewards) /\
     overridden grid_param "OUT_OF_BOUNDS" (out_of_bounds default_rewards)
       (out_of_bounds default_rewards) /\
     overridden grid_param "BATTERY_DEPLETED"
       (battery_depleted default_rewards)
       (battery_depleted default_rewards)).
Proof.
  split; [reflexivity|].
  exact (proj1 (read_reward_config_overrides two_neighbours example_config _
                  eq_refl)).
Defined.

(** * [greedy_det_policy] *)

Section policy.
Import Policy.




Lemma elem_of_cells r c n m :
  (n, m) ∈ cells r c <-> 0 <= n < r /\ 0 <= m < c.
Proof.
  unfold cells. rewrite list_elem_of_bind. split.
  - intros (n' & Hm & Hn). apply list_elem_of_bind in Hm as (m' & Hm & Hm').
    apply list_elem_of_singleton in Hm. injection Hm as -> ->.
    apply elem_of_seqZ in Hn, Hm'. lia.
  - intros [Hn Hm]. exists n. split; [|apply elem_of_seqZ; lia].
    apply list_elem_of_bind. exists m. split; [by apply list_elem_of_singleton|].
    apply elem_of_seqZ. lia.
Qed.


Lemma amin_returns a :
  0 < qshape0 a -> 0 < qshape1 a -> exists x, amin a = Return x.
Proof.
  intros H0 H1. unfold amin.
  assert ((0, 0) ∈ cells (qshape0 a) (qshape1 a)) as Hin.
  { apply elem_of_cells. lia. }
  destruct (cells (qshape0 a) (qshape1 a)) as [|p ps]; simpl.
  - by apply elem_of_nil in Hin.
  - by eexists.
Qed.

Lemma amin_raises a e : amin a = Raises e -> e = ValueError.
Proof.
  unfold amin.
  destruct ((fun p => qitem a p.1 p.2) <$> cells (qshape0 a) (qshape1 a));
    [|done].
  by intros [= <-].
Qed.

Lemma getitem_in_range a i j :
  0 <= i < qshape0 a -> 0 <= j < qshape1 a ->
  getitem a i j = Return (qitem a i j).
Proof.
  intros Hi Hj. unfold getitem, np_index.
  by rewrite !bool_decide_eq_true_2.
Qed.

(** The entry [max] picks: no value exceeds its value, and the values
    before it are smaller. *)
Lemma max_from_spec best rest :
  exists (i : nat) x,
    (best :: rest) !! i = Some (max_from best rest, x) /\
    forall (j : nat) e, (best :: rest) !! j = Some e ->
      (e.2 <= x)%Q /\ ((j < i)%nat -> (e.2 < x)%Q).
Proof.
  revert best. induction rest as [|y rest IH]; intros best; simpl.
  - exists O, best.2. split; [by destruct best|].
    intros [|j] e He; [|done]. injection He as <-.
    split; [apply Qle_refl|lia].
  - destruct (Qle_bool y.2 best.2) eqn:Hle.
    + apply Qle_bool_iff in Hle.
      destruct (IH best) as (i & x & Hi & Hall).
      destruct (Hall O best eq_refl) as [Hb Hb'].
      destruct i as [|i].
      * exists O, x. split; [done|].
        intros [|[|j]] e He.
        -- by apply (Hall O).
        -- injection He as <-. injection Hi as Hi. split; [|lia].
           apply (f_equal snd) in Hi. simpl in Hi. by rewrite <- Hi.
        -- split; [|lia]. by apply (Hall (S j)).
      * exists (S (S i)), x. split; [done|].
        intros [|[|j]] e He.
        -- injection He as <-. split; [done|]. intros _. apply Hb'. lia.
        -- injection He as <-.
           assert (best.2 < x)%Q as Hlt by (apply Hb'; lia).
           split; [|intros _]; [apply Qlt_le_weak|];
             by eapply Qle_lt_trans.
        -- destruct (Hall (S j) e He) as [H1 H2]. split; [done|].
           intros Hj. apply H2. lia.
    + assert (best.2 < y.2)%Q as Hlt.
      { apply Qnot_le_lt. intros H. apply Qle_bool_iff in H. congruence. }
      destruct (IH y) as (i & x & Hi & Hall).
      destruct (Hall O y eq_refl) as [Hy Hy'].
      exists (S i), x. split; [done|].
      intros [|j] e He.
      * injection He as <-. split.
        -- apply Qlt_le_weak. by eapply Qlt_le_trans.
        -- intros _. by eapply Qlt_le_trans.
      * destruct (Hall j e He) as [H1 H2]. split; [done|].
        intros Hj. apply H2. lia.
Qed.


Lemma agent_of_returns self agent_id :
  - Z.of_nat (length (agents self)) <= agent_id
    < Z.of_nat (length (agents self)) ->
  exists agent, agent_of self agent_id = Return agent.
Proof.
  intros Hid. unfold agent_of, np_index.
  destruct (decide (0 <= agent_id)) as [Hpos|Hneg].
  - rewrite bool_decide_eq_true_2 by lia.
    destruct (lookup_lt_is_Some_2 (agents self) (Z.to_nat agent_id))
      as [a Ha]; [lia|].
    rewrite Ha. by exists a.
  - rewrite bool_decide_eq_false_2 by lia.
    rewrite bool_decide_eq_true_2 by lia.
    destruct (lookup_lt_is_Some_2 (agents self)
                (Z.to_nat (agent_id + Z.of_nat (length (agents self)))))
      as [a Ha]; [lia|].
    rewrite Ha. by exists a.
Qed.

Lemma moves_of_entries v_values rows cols n m moves :
  moves_of v_values rows cols n m = Return moves ->
  exists above below on_left on_right,
    moves = [(LegalActions.up, above); (LegalActions.down, below);
             (LegalActions.left, on_left); (LegalActions.right, on_right)] /\
    (if bool_decide (n > 0) then getitem v_values (n - 1) m
     else amin v_values) = Return above /\
    (if bool_decide (n < rows - 1) then getitem v_values (n + 1) m
     else amin v_values) = Return below /\
    (if bool_decide (m > 0) then getitem v_values n (m - 1)
     else amin v_values) = Return on_left /\
    (if bool_decide (m < cols - 1) then getitem v_values n (m + 1)
     else amin v_values) = Return on_right.
Proof.
  unfold moves_of.
  destruct (if bool_decide (n > 0) then _ else _) as [a|]; [|done].
  destruct (if bool_decide (n < rows - 1) then _ else _) as [b|]; [|done].
  destruct (if bool_decide (m > 0) then _ else _) as [l|]; [|done].
  destruct (if bool_decide (m < cols - 1) then _ else _) as [r|]; [|done].
  intros [= <-]. by exists a, b, l, r.
Qed.




Ltac legal k :=
  unfold legal_action, LegalActions.left, LegalActions.right,
    LegalActions.up, LegalActions.down; k.

Lemma choose_legal self v_values agent_id rows cols n m action :
  choose self v_values agent_id rows cols n m = Return (Some action) ->
  legal_action action.
Proof.
  unfold choose. case_bool_decide; [done|].
  destruct (agent_of self agent_id) as [agent|]; [|done].
  case_bool_decide; [done|].
  destruct (moves_of v_values rows cols n m) as [moves|] eqn:Hmoves; [|done].
  apply moves_of_entries in Hmoves as (a & b & l & r & -> & _).
  simpl. intros [= <-].
  destruct (max_from_spec (LegalActions.up, a)
              [(LegalActions.down, b); (LegalActions.left, l);
               (LegalActions.right, r)]) as (i & x & Hi & _).
  destruct i as [|[|[|[|i]]]]; try done; injection Hi as <- _;
    legal lia.
Qed.



Lemma choose_returns self v_values agent_id n m :
  - Z.of_nat (length (agents self)) <= agent_id
    < Z.of_nat (length (agents self)) ->
  shape0 (grid self) <= qshape0 v_values ->
  shape1 (grid self) <= qshape1 v_values ->
  in_range (grid self) n m ->
  exists c,
    choose self v_values agent_id (shape0 (grid self)) (shape1 (grid self))
      n m = Return c.
Proof.
  intros Hid Hs0 Hs1 [Hn Hm]. unfold choose.
  case_bool_decide; [by eexists|].
  destruct (agent_of_returns self agent_id Hid) as [agent ->].
  case_bool_decide; [by eexists|].
  destruct (amin_returns v_values) as [lo Hlo]; [lia|lia|].
  unfold moves_of. rewrite Hlo.
  repeat (case_bool_decide; [rewrite getitem_in_range by lia|]);
    simpl; by eexists.
Qed.


Lemma draw_cell action n m uv :
  legal_action action ->
  shape_of (draw action n m uv) = shape_of uv /\
  forall n' m',
    cell (draw action n m uv) n' m' =
      if bool_decide (n' = n /\ m' = m) then arrow action else cell uv n' m'.
Proof.
  intros [-> | [-> | [-> | ->]]]; (split; [done|]); intros n' m';
    unfold draw, cell, arrow; simpl; by case_bool_decide.
Qed.

Lemma policy_body_cell self v_values agent_id rows cols n m uv uv' :
  policy_body self v_values agent_id rows cols n m uv = Return uv' ->
  shape_of uv' = shape_of uv /\
  exists c, choose self v_values agent_id rows cols n m = Return c /\
    forall n' m',
      cell uv' n' m' =
        if bool_decide (n' = n /\ m' = m) then painted c (cell uv n m)
        else cell uv n' m'.
Proof.
  unfold policy_body.
  destruct (choose self v_values agent_id rows cols n m) as [[action|]|]
    eqn:Hc; [| |done]; intros [= <-].
  - destruct (draw_cell action n m uv) as [Hs Hcell];
      [by eapply choose_legal|].
    split; [done|]. exists (Some action). split; [done|]. exact Hcell.
  - split; [done|]. exists None. split; [done|].
    intros n' m'. simpl. case_bool_decide as H; [|done]. by destruct H as [-> ->].
Qed.

Lemma row_loop self v_values agent_id rows cols n ms uv uv' :
  NoDup ms ->
  for_each ms (fun m => policy_body self v_values agent_id rows cols n m) uv
    = Return uv' ->
  shape_of uv' = shape_of uv /\
  (forall n' m', n' ≠ n \/ m' ∉ ms -> cell uv' n' m' = cell uv n' m') /\
  (forall m', m' ∈ ms ->
     exists c, choose self v_values agent_id rows cols n m' = Return c /\
       cell uv' n m' = painted c (cell uv n m')).
Proof.
  revert uv. induction ms as [|x ms IH]; intros uv Hnd; simpl.
  - intros [= <-]. split; [done|]. split; [done|].
    intros m' Hm'. by apply elem_of_nil in Hm'.
  - apply NoDup_cons in Hnd as [Hx Hnd].
    destruct (policy_body self v_values agent_id rows cols n x uv)
      as [uv1|] eqn:Hbody; [|done].
    intros Hrest.
    apply policy_body_cell in Hbody as (Hs1 & c & Hc & Hcell).
    destruct (IH uv1 Hnd Hrest) as (Hs & Hout & Hin).
    split; [congruence|]. split.
    + intros n' m' Hnm. rewrite Hout, Hcell.
      * rewrite bool_decide_eq_false_2; [done|].
        intros [-> ->]. destruct Hnm as [?|Hnm]; [done|].
        apply Hnm, list_elem_of_here.
      * destruct Hnm as [?|Hnm]; [by left|right].
        intros ?. by apply Hnm, list_elem_of_further.
    + intros m' Hm'. apply elem_of_cons in Hm' as [->|Hm'].
      * exists c. split; [done|]. rewrite Hout by (by right).
        rewrite Hcell. by rewrite bool_decide_eq_true_2.
      * destruct (Hin m' Hm') as (c' & Hc' & Hcell').
        exists c'. split; [done|]. rewrite Hcell', Hcell.
        rewrite bool_decide_eq_false_2; [done|].
        intros [_ ->]. done.
Qed.

Lemma grid_loop self v_values agent_id rows cols ns ms uv uv' :
  NoDup ns -> NoDup ms ->
  for_each ns
    (fun n =>
       for_each ms
         (fun m => policy_body self v_values agent_id rows cols n m)) uv
    = Return uv' ->
  shape_of uv' = shape_of uv /\
  (forall n' m', n' ∉ ns \/ m' ∉ ms -> cell uv' n' m' = cell uv n' m') /\
  (forall n' m', n' ∈ ns -> m' ∈ ms ->
     exists c, choose self v_values agent_id rows cols n' m' = Return c /\
       cell uv' n' m' = painted c (cell uv n' m')).
Proof.
  intros Hns Hms. revert uv.
  induction ns as [|x ns IH]; intros uv; simpl.
  - intros [= <-]. split; [done|]. split; [done|].
    intros n' m' Hn'. by apply elem_of_nil in Hn'.
  - apply NoDup_cons in Hns as [Hx Hns].
    destruct (for_each ms _ uv) as [uv1|] eqn:Hrow; [|done].
    intros Hrest.
    apply row_loop in Hrow as (Hs1 & Hout1 & Hin1); [|done].
    destruct (IH Hns uv1 Hrest) as (Hs & Hout & Hin).
    split; [congruence|]. split.
    + intros n' m' Hnm. rewrite Hout, Hout1; [done| |].
      * destruct Hnm as [Hn|Hm]; [left|by right].
        intros ->. apply Hn, list_elem_of_here.
      * destruct Hnm as [Hn|Hm]; [left|by right].
        intros ?. by apply Hn, list_elem_of_further.
    + intros n' m' Hn' Hm'. apply elem_of_cons in Hn' as [->|Hn'].
      * destruct (Hin1 m' Hm') as (c & Hc & Hcell).
        exists c. split; [done|]. rewrite Hout by (by left). done.
      * destruct (Hin n' m' Hn' Hm') as (c & Hc & Hcell).
        exists c. split; [done|]. rewrite Hcell, Hout1; [done|].
        left. intros ->. done.
Qed.

Lemma row_returns self v_values agent_id rows cols n ms uv :
  (forall m, m ∈ ms ->
     exists c, choose self v_values agent_id rows cols n m = Return c) ->
  exists uv',
    for_each ms (fun m => policy_body self v_values agent_id rows cols n m) uv
      = Return uv'.
Proof.
  revert uv. induction ms as [|x ms IH]; intros uv Hall; simpl.
  - by eexists.
  - destruct (Hall x) as [c Hc]; [apply list_elem_of_here|].
    unfold policy_body at 1. rewrite Hc.
    destruct c as [action|]; apply IH; intros m Hm;
      by apply Hall, list_elem_of_further.
Qed.

Lemma grid_returns self v_values agent_id rows cols ns ms uv :
  (forall n m, n ∈ ns -> m ∈ ms ->
     exists c, choose self v_values agent_id rows cols n m = Return c) ->
  exists uv',
    for_each ns
      (fun n =>
         for_each ms
           (fun m => policy_body self v_values agent_id rows cols n m)) uv
      = Return uv'.
Proof.
  revert uv. induction ns as [|x ns IH]; intros uv Hall; simpl.
  - by eexists.
  - destruct (row_returns self v_values agent_id rows cols x ms uv)
      as [uv1 ->].
    { intros m Hm. apply Hall; [apply list_elem_of_here|done]. }
    apply IH. intros n m Hn Hm. apply Hall; [|done].
    by apply list_elem_of_further.
Qed.


Lemma policy_cell self v_values agent_id u v n m :
  greedy_det_policy self v_values agent_id = Return (u, v) ->
  in_range (grid self) n m ->
  exists c,
    choose self v_values agent_id (shape0 (grid self)) (shape1 (grid self))
      n m = Return c /\
    (item u n m, item v n m) = painted c (0, 0).
Proof.
  unfold greedy_det_policy. intros Hrun [Hn Hm].
  apply grid_loop in Hrun as (_ & _ & Hin); try apply NoDup_seqZ.
  destruct (Hin n m) as (c & Hc & Hcell); [apply elem_of_seqZ; lia..|].
  by exists c.
Qed.



(** X25: [greedy_det_policy] returns whenever [agent_id] indexes the
    agents, from the front or from the end, and [v_values] has a value for
    every cell of the grid. *)
Theorem greedy_det_policy_returns self v_values agent_id :
  - Z.of_nat (length (agents self)) <= agent_id
    < Z.of_nat (length (agents self)) ->
  shape0 (grid self) <= qshape0 v_values ->
  shape1 (grid self) <= qshape1 v_values ->
  exists u v, greedy_det_policy self v_values agent_id = Return (u, v).
Proof.
  intros Hid Hs0 Hs1. unfold greedy_det_policy.
  destruct (grid_returns self v_values agent_id
              (shape0 (grid self)) (shape1 (grid self))
              (seqZ 0 (shape0 (grid self))) (seqZ 0 (shape1 (grid self)))
              (zeros (shape0 (grid self)) (shape1 (grid self)),
               zeros (shape0 (grid self)) (shape1 (grid self))))
    as [[u v] Hrun].
  - intros n m Hn%elem_of_seqZ Hm%elem_of_seqZ.
    apply choose_returns; try done; split; lia.
  - by exists u, v.
Qed.



Lemma agent_of_raises self agent_id e :
  agent_of self agent_id = Raises e ->
  e = IndexError /\
  ¬ (- Z.of_nat (length (agents self)) <= agent_id
     < Z.of_nat (length (agents self))).
Proof.
  intros Hr. split.
  - unfold agent_of in Hr. repeat case_match; by simplify_eq.
  - intros Hid. destruct (agent_of_returns self agent_id Hid) as [a Ha].
    congruence.
Qed.

Lemma getitem_raises a i j e :
  getitem a i j = Raises e -> 0 <= i -> 0 <= j ->
  e = IndexError /\ (qshape0 a <= i \/ qshape1 a <= j).
Proof.
  intros Hr Hi Hj. split.
  - unfold getitem in Hr. repeat case_match; by simplify_eq.
  - destruct (decide (i < qshape0 a)) as [Hi'|]; [|lia].
    destruct (decide (j < qshape1 a)) as [Hj'|]; [|lia].
    rewrite getitem_in_range in Hr by lia. done.
Qed.

Lemma amin_empty a e :
  amin a = Raises e ->
  e = ValueError /\ (qshape0 a <= 0 \/ qshape1 a <= 0).
Proof.
  intros Hr. split; [by eapply amin_raises|].
  destruct (decide (0 < qshape0 a)) as [H0|]; [|lia].
  destruct (decide (0 < qshape1 a)) as [H1|]; [|lia].
  destruct (amin_returns a H0 H1) as [x Hx]. congruence.
Qed.

Lemma side_raises self v_values agent_id (c : bool) i j e :
  (if c then getitem v_values i j else amin v_values) = Raises e ->
  (c = true -> 0 <= i < shape0 (grid self) /\ 0 <= j < shape1 (grid self)) ->
  told self v_values agent_id e.
Proof.
  intros Hr Hc. destruct c.
  - destruct (Hc eq_refl) as [Hi Hj].
    apply getitem_raises in Hr as [-> Hr]; [|lia..].
    right. split; [done|]. lia.
  - apply amin_empty in Hr as [-> Hr]. by left.
Qed.

Lemma choose_raises self v_values agent_id n m e :
  in_range (grid self) n m ->
  choose self v_values agent_id (shape0 (grid self)) (shape1 (grid self)) n m
    = Raises e ->
  told self v_values agent_id e.
Proof.
  intros [Hn Hm]. unfold choose. case_bool_decide; [done|].
  destruct (agent_of self agent_id) as [agent|e'] eqn:Hag.
  - case_bool_decide; [done|].
    destruct (moves_of v_values _ _ n m) as [moves|e'] eqn:Hmoves.
    + apply moves_of_entries in Hmoves as (a & b & l & r & -> & _). done.
    + intros [= <-]. unfold moves_of in Hmoves.
      destruct (if bool_decide (n > 0) then _ else _) as [a|] eqn:H1.
      2:{ injection Hmoves as <-. eapply side_raises; [exact H1|].
          intros Hc%bool_decide_eq_true_1. lia. }
      destruct (if bool_decide (n < _ - 1) then _ else _) as [b|] eqn:H2.
      2:{ injection Hmoves as <-. eapply side_raises; [exact H2|].
          intros Hc%bool_decide_eq_true_1. lia. }
      destruct (if bool_decide (m > 0) then _ else _) as [l|] eqn:H3.
      2:{ injection Hmoves as <-. eapply side_raises; [exact H3|].
          intros Hc%bool_decide_eq_true_1. lia. }
      destruct (if bool_decide (m < _ - 1) then _ else _) as [r|] eqn:H4;
        [done|].
      injection Hmoves as <-. eapply side_raises; [exact H4|].
      intros Hc%bool_decide_eq_true_1. lia.
  - intros [= <-]. apply agent_of_raises in Hag as [-> Hid].
    right. split; [done|]. by left.
Qed.

Lemma row_raises self v_values agent_id rows cols n ms uv e :
  for_each ms (fun m => policy_body self v_values agent_id rows cols n m) uv
    = Raises e ->
  exists m, m ∈ ms /\
    choose self v_values agent_id rows cols n m = Raises e.
Proof.
  revert uv. induction ms as [|x ms IH]; intros uv; simpl; [done|].
  destruct (policy_body self v_values agent_id rows cols n x uv)
    as [uv1|e'] eqn:Hbody.
  - intros (m & Hm & Hc)%IH. exists m. split; [|done].
    by apply list_elem_of_further.
  - intros [= <-]. exists x. split; [apply list_elem_of_here|].
    unfold policy_body in Hbody.
    destruct (choose self v_values agent_id rows cols n x) as [[?|]|];
      by simplify_eq.
Qed.

Lemma grid_raises self v_values agent_id rows cols ns ms uv e :
  for_each ns
    (fun n =>
       for_each ms
         (fun m => policy_body self v_values agent_id rows cols n m)) uv
    = Raises e ->
  exists n m, n ∈ ns /\ m ∈ ms /\
    choose self v_values agent_id rows cols n m = Raises e.
Proof.
  revert uv. induction ns as [|x ns IH]; intros uv; simpl; [done|].
  destruct (for_each ms _ uv) as [uv1|e'] eqn:Hrow.
  - intros (n & m & Hn & Hm & Hc)%IH. exists n, m. split; [|done].
    by apply list_elem_of_further.
  - intros [= <-]. apply row_raises in Hrow as (m & Hm & Hc).
    exists x, m. split; [apply list_elem_of_here|done].
Qed.

(** X27: the exceptions of [greedy_det_policy].  It raises a [ValueError]
    only when [v_values] has no cell, and an [IndexError] only when
    [agent_id] does not index the agents or [v_values] is smaller than the
    grid; nothing else is raised.  On a grid of which every cell is an
    obstacle it returns two arrays of zeros whatever it is given. *)
Theorem greedy_det_policy_exceptions self v_values agent_id :
  (forall e, greedy_det_policy self v_values agent_id = Raises e ->
     told self v_values agent_id e) /\
  ((forall n m, in_range (grid self) n m ->
      item (grid self) n m = GridLegend.OBSTACLE) ->
   exists u v, greedy_det_policy self v_values agent_id = Return (u, v) /\
     forall n m, in_range (grid self) n m ->
       item u n m = 0 /\ item v n m = 0).
Proof.
  split.
  - intros e Hr. unfold greedy_det_policy in Hr.
    apply grid_raises in Hr as (n & m & Hn%elem_of_seqZ & Hm%elem_of_seqZ & Hc).
    eapply choose_raises; [|exact Hc]. split; lia.
  - intros Hwall.
    destruct (grid_returns self v_values agent_id
                (shape0 (grid self)) (shape1 (grid self))
                (seqZ 0 (shape0 (grid self))) (seqZ 0 (shape1 (grid self)))
                (zeros (shape0 (grid self)) (shape1 (grid self)),
                 zeros (shape0 (grid self)) (shape1 (grid self))))
      as [[u v] Hrun].
    + intros n m Hn%elem_of_seqZ Hm%elem_of_seqZ. exists None.
      unfold choose. rewrite bool_decide_eq_true_2; [done|].
      apply Hwall. split; lia.
    + exists u, v. split; [done|]. intros n m Hin.
      destruct (policy_cell _ _ _ _ _ _ _ Hrun Hin) as (c & Hc & Hcell).
      unfold choose in Hc. rewrite bool_decide_eq_true_2 in Hc by auto.
      injection Hc as <-. by injection Hcell as -> ->.
Qed.


(** ** The policy on the example worlds *)


Lemma first_agent_indexed :
  - Z.of_nat (length (agents two_neighbours)) <= 0
    < Z.of_nat (length (agents two_neighbours)).
Proof. simpl. lia. Defined.

Lemma slope_covers_rows : shape0 (grid two_neighbours) <= qshape0 slope.
Proof. simpl. lia. Defined.

Lemma slope_covers_cols : shape1 (grid two_neighbours) <= qshape1 slope.
Proof. simpl. lia. Defined.



Lemma greedy_det_policy_returns_witness :
  - Z.of_nat (length (agents two_neighbours)) <= 0
    < Z.of_nat (length (agents two_neighbours)) /\
  shape0 (grid two_neighbours) <= qshape0 slope /\
  shape1 (grid two_neighbours) <= qshape1 slope /\
  exists u v, greedy_det_policy two_neighbours slope 0 = Return (u, v).
Proof.
  split; [exact first_agent_indexed|]. split; [exact slope_covers_rows|].
  split; [exact slope_covers_cols|].
  exact (greedy_det_policy_returns two_neighbours slope 0
           first_agent_indexed slope_covers_rows slope_covers_cols).
Defined.



Lemma no_values_raises :
  greedy_det_policy two_neighbours no_values 0 = Raises ValueError.
Proof. vm_compute. reflexivity. Defined.

Lemma greedy_det_policy_exceptions_witness :
  greedy_det_policy two_neighbours no_values 0 = Raises ValueError /\
  told two_neighbours no_values 0 ValueError.
Proof.
  split; [exact no_values_raises|].
  exact (proj1 (greedy_det_policy_exceptions two_neighbours no_values 0)
           ValueError no_values_raises).
Defined.


End policy.


(** * What [step] leaves alone *)

Lemma kept_insert (ags0 ags : list GridworldAgent) j x y :
  Forall2 kept ags0 ags -> ags !! j = Some x -> kept x y ->
  Forall2 kept ags0 (<[j:=y]> ags).
Proof.
  intros Hall Hx [(H1 & H2 & H3) H4]. apply Forall2_same_length_lookup.
  split; [rewrite length_insert; by eapply Forall2_length|].
  intros i a b Ha Hb. destruct (decide (i = j)) as [->|Hne].
  - rewrite list_lookup_insert_eq in Hb by (by eapply lookup_lt_Some).
    injection Hb as <-.
    destruct (Forall2_lookup_lr _ _ _ _ _ _ Hall Ha Hx)
      as [(K1 & K2 & K3) K4].
    split; [split_and!|]; congruence.
  - rewrite list_lookup_insert_ne in Hb by done.
    by eapply Forall2_lookup_lr.
Qed.

Lemma roster_loop_kept body k (ags0 ags : list GridworldAgent) :
  (forall j t, (body j t).1 = t \/
     exists x y, t !! j = Some x /\ kept x y /\ (body j t).1 = <[j:=y]> t) ->
  Forall2 kept ags0 ags ->
  Forall2 kept ags0 (for_range_exn k body ags).1.
Proof.
  intros Hbody Hall.
  apply (for_range_exn_any_ind (Forall2 kept ags0)); [done|].
  intros j t _ Ht. destruct (Hbody j t) as [->|(x & y & Hx & Hk & ->)]; [done|].
  by eapply kept_insert.
Qed.

Lemma kept_refl a : kept a a.
Proof. by repeat split. Qed.

Lemma apply_moves_kept moves ags0 ags :
  Forall2 kept ags0 ags -> Forall2 kept ags0 (apply_moves moves ags).1.
Proof.
  apply roster_loop_kept. intros j t. unfold apply_moves_body.
  destruct (t !! j) as [x|] eqn:Hx; [|by left].
  destruct (done x) eqn:Hd; [by left|].
  destruct (moves !! j); [|by left]. right.
  eexists _, _. split; [done|]. split; [|done]. by repeat split.
Qed.

Lemma finish_kept g dn ags0 ags :
  Forall2 kept ags0 ags -> Forall2 kept ags0 (finish g dn ags).1.
Proof.
  apply roster_loop_kept. intros j t. unfold finish_body.
  destruct (t !! j) as [x|] eqn:Hx; [|by left].
  destruct (done x) eqn:Hd; [by left|].
  destruct (grid_getitem g (pos x)); [|by left].
  destruct (dn !! j); right; eexists _, _; (split; [done|]);
    (split; [|done]); case_bool_decide; by repeat split.
Qed.

Lemma first_eval_kept g rw ags0 s :
  Forall2 kept ags0 (l_agents s) ->
  Forall2 kept ags0 (l_agents (first_eval g rw s).1).
Proof.
  intros Hall.
  apply (for_range_exn_any_ind (fun t => Forall2 kept ags0 (l_agents t)));
    [done|].
  intros j t _ Ht. unfold first_eval_body.
  destruct (l_agents t !! j) as [x|]; [|done].
  destruct (done x); [done|].
  by destruct (assign_reward_frame g rw j t) as [-> _].
Qed.

Lemma conflict_pass_kept g rw ags0 old_pos s :
  Forall2 kept ags0 (l_agents s) ->
  Forall2 kept ags0 (l_agents (conflict_pass g rw old_pos s).1).
Proof.
  intros Hall. unfold conflict_pass.
  assert (Forall2 kept ags0
            (l_agents (for_range_exn (length (l_agents s))
                         (cancel_body old_pos) s).1)) as Hc.
  { apply (for_range_exn_any_ind (fun t => Forall2 kept ags0 (l_agents t)));
      [done|].
    intros j t _ Ht. unfold cancel_body.
    destruct (l_illegals t !! j) as [[|]|]; try done.
    destruct (old_pos !! j); [|done].
    destruct (l_agents t !! j) as [x|] eqn:Hx; [|done]. simpl.
    eapply kept_insert; [done|done|]. by repeat split. }
  destruct (for_range_exn (length (l_agents s)) (cancel_body old_pos) s)
    as [s1 [e|]]; simpl in Hc; [done|].
  apply (for_range_exn_any_ind (fun t => Forall2 kept ags0 (l_agents t)));
    [done|].
  intros j t _ Ht. unfold reeval_body.
  destruct (l_agents t !! j) as [x|]; [|done].
  destruct (done x); [done|].
  destruct (old_pos !! j); [|done].
  case_bool_decide; [done|].
  by destruct (assign_reward_frame g rw j t) as [-> _].
Qed.

Lemma solve_conflicts_kept fuel g rw ags0 old_pos s r :
  Forall2 kept ags0 (l_agents s) ->
  solve_conflicts fuel g rw old_pos s = Some r ->
  Forall2 kept ags0 (l_agents r.1).
Proof.
  revert s. induction fuel as [|fuel IH]; intros s Hall Hrun; simpl in Hrun;
    destruct (any (l_illegals s)); simplify_eq; try done.
  pose proof (conflict_pass_kept g rw ags0 old_pos s Hall) as Hp.
  destruct (conflict_pass g rw old_pos s) as [s1 [e|]]; simpl in Hp.
  - by simplify_eq.
  - by eapply IH.
Qed.

(** X28: what [step] leaves alone, whether it returns or raises.  The grid,
    the wind, the reward table and [max_steps] are never written, the step
    counter goes up by one, there are as many agents as before, and every
    agent keeps its id, its initial position, its initial goal and its goal:
    [step] writes nothing of an agent but its position, its battery and its
    done flag. *)
Theorem step_frame self actions self' out :
  step self actions = Some (self', out) ->
  grid self' = grid self /\ col_wind self' = col_wind self /\
  rewards self' = rewards self /\ max_steps self' = max_steps self /\
  step_count self' = step_count self + 1 /\
  length (agents self') = length (agents self) /\
  forall i a a', agents self !! i = Some a -> agents self' !! i = Some a' ->
    agent_id a' = agent_id a /\ init_pos a' = init_pos a /\
    init_goal a' = init_goal a /\ goal a' = goal a.
Proof.
  intros Hstep.
  cut (grid self' = grid self /\ col_wind self' = col_wind self /\
       rewards self' = rewards self /\ max_steps self' = max_steps self /\
       step_count self' = step_count self + 1 /\
       Forall2 kept (agents self) (agents self')).
  { intros (? & ? & ? & ? & ? & Hall). split_and!; try done.
    - symmetry. by eapply Forall2_length.
    - intros i a a' Ha Ha'.
      destruct (Forall2_lookup_lr _ _ _ _ _ _ Hall Ha Ha')
        as [(? & ? & ?) ?]. done. }
  assert (Forall2 kept (agents self) (agents self)) as Hid.
  { apply Forall2_same_length_lookup. split; [done|].
    intros i a b Ha Hb. rewrite Ha in Hb. injection Hb as <-.
    apply kept_refl. }
  unfold step, step_fuel in Hstep.
  case_bool_decide as Hlen; simpl in Hstep; [|by simplify_eq].
  rewrite gen_moves_step_count in Hstep.
  destruct (gen_moves self actions) as [[moves rng] [e|]];
    [by simplify_eq|]. simpl in Hstep.
  pose proof (apply_moves_kept moves _ _ Hid) as Hap.
  destruct (apply_moves moves (agents self)) as [ags [e|]]; simpl in Hap.
  { by injection Hstep as <- _. }
  pose proof (first_eval_kept (grid self) (rewards self) (agents self)
                (mkLocals ags (replicate (length actions) (Qmake 0 1))
                          ((fun _ => false) <$> ags) (done <$> ags)) Hap)
    as Hfe.
  destruct (first_eval _ _ _) as [s1 [e|]]; simpl in Hfe.
  { by injection Hstep as <- _. }
  destruct (solve_conflicts _ _ _ _ _) as [[s2 e]|] eqn:Hsc; [|done].
  pose proof (solve_conflicts_kept _ _ _ _ _ _ _ Hfe Hsc) as Hs2.
  simpl in Hs2. destruct e as [e|].
  { by injection Hstep as <- _. }
  pose proof (finish_kept (grid self) (l_done s2) _ _ Hs2) as Hfin.
  destruct (finish _ _ _) as [ags' [e|]]; simpl in Hfin;
    by injection Hstep as <- _.
Qed.


(** * [read_reward_config] when it raises *)

(** X29: [read_reward_config] stops at the first exception and keeps what it
    has written.  Without the section it raises [KeyError] and changes
    nothing.  With the section it raises [ValueError] at the first option
    whose text is not a float: the rewards of the options read before it
    are replaced as in a call that returns, the reward of that option and
    of the options after it are as before.  Nothing but the reward table
    is written. *)
Theorem read_reward_config_failure self config self' e :
  read_reward_config self config = (self', Some e) ->
  self' = set_rewards self (rewards self') /\
  match config "Gridworld Parameters"%string with
  | None => e = KeyError /\ rewards self' = rewards self
  | Some grid_param =>
      e = ValueError /\
      exists (k : nat) name field,
        reward_options !! k = Some (name, field) /\
        grid_param name = Some None /\
        forall (j : nat) name' field',
          reward_options !! j = Some (name', field') ->
          if bool_decide (j < k)%nat
          then overridden grid_param name' (field' (rewards self))
                 (field' (rewards self'))
          else field' (rewards self') = field' (rewards self)
  end.
Proof.
  unfold read_reward_config, getfloat.
  destruct (config "Gridworld Parameters"%string) as [grid_param|].
  2:{ intros [= <- <-]. split; [by destruct self|done]. }
  destruct (grid_param "FREE"%string) as [[v1|]|] eqn:H1;
    [| intros [= <- <-]; (split; [by destruct self|]); (split; [done|]);
       exists 0%nat, "FREE"%string, free; (split; [done|]); (split; [done|]);
       intros j name' field' Hj; by rewrite bool_decide_eq_false_2 by lia |];
  (destruct (grid_param "GOAL"%string) as [[v2|]|] eqn:H2;
    [| intros [= <- <-]; (split; [done|]); (split; [done|]);
       exists 1%nat, "GOAL"%string, goal_reward;
       (split; [done|]); (split; [done|]);
       intros [|[|[|[|[|j]]]]] name' field' Hj; simplify_eq/=;
       unfold overridden; rewrite ?H1; done |]);
  (destruct (grid_param "OBSTACLE"%string) as [[v3|]|] eqn:H3;
    [| intros [= <- <-]; (split; [done|]); (split; [done|]);
       exists 2%nat, "OBSTACLE"%string, obstacles;
       (split; [done|]); (split; [done|]);
       intros [|[|[|[|[|j]]]]] name' field' Hj; simplify_eq/=;
       unfold overridden; rewrite ?H1, ?H2; done |]);
  (destruct (grid_param "OUT_OF_BOUNDS"%string) as [[v4|]|] eqn:H4;
    [| intros [= <- <-]; (split; [done|]); (split; [done|]);
       exists 3%nat, "OUT_OF_BOUNDS"%string, out_of_bounds;
       (split; [done|]); (split; [done|]);
       intros [|[|[|[|[|j]]]]] name' field' Hj; simplify_eq/=;
       unfold overridden; rewrite ?H1, ?H2, ?H3; done |]);
  (destruct (grid_param "BATTERY_DEPLETED"%string) as [[v5|]|] eqn:H5;
    [done
    | intros [= <- <-]; (split; [done|]); (split; [done|]);
       exists 4%nat, "BATTERY_DEPLETED"%string, battery_depleted;
       (split; [done|]); (split; [done|]);
       intros [|[|[|[|[|j]]]]] name' field' Hj; simplify_eq/=;
       unfold overridden; rewrite ?H1, ?H2, ?H3, ?H4; done
    | done]).
Qed.


(** * [reset] raises nothing on cells of the grid *)




Lemma grid_getitem_returns g p :
  in_bounds g p = true -> exists c, grid_getitem g p = Ok c.
Proof. intros H. rewrite grid_getitem_in_bounds by done. by eexists. Qed.








(** ** These properties on the example worlds *)

Lemma step_frame_witness :
  step two_neighbours [1; 0] =
    Some (two_neighbours_swapped,
          Ok ([free default_rewards; free default_rewards], [false; false])) /\
  grid two_neighbours_swapped = grid two_neighbours /\
  col_wind two_neighbours_swapped = col_wind two_neighbours /\
  rewards two_neighbours_swapped = rewards two_neighbours /\
  max_steps two_neighbours_swapped = max_steps two_neighbours /\
  step_count two_neighbours_swapped = step_count two_neighbours + 1 /\
  length (agents two_neighbours_swapped) = length (agents two_neighbours) /\
  forall i a a',
    agents two_neighbours !! i = Some a ->
    agents two_neighbours_swapped !! i = Some a' ->
    agent_id a' = agent_id a /\ init_pos a' = init_pos a /\
    init_goal a' = init_goal a /\ goal a' = goal a.
Proof.
  split; [exact two_neighbours_step|].
  exact (step_frame two_neighbours [1; 0] _ _ two_neighbours_step).
Defined.

Lemma broken_config_read :
  read_reward_config two_neighbours broken_config =
    (set_rewards two_neighbours
       (mkRewards (Qmake (-2) 1) (obstacles default_rewards)
                  (goal_reward default_rewards)
                  (out_of_bounds default_rewards)
                  (battery_depleted default_rewards)), Some ValueError).
Proof. reflexivity. Defined.

Lemma read_reward_config_failure_witness :
  read_reward_config two_neighbours broken_config =
    (set_rewards two_neighbours
       (mkRewards (Qmake (-2) 1) (obstacles default_rewards)
                  (goal_reward default_rewards)
                  (out_of_bounds default_rewards)
                  (battery_depleted default_rewards)), Some ValueError) /\
  exists (k : nat) name field,
    reward_options !! k = Some (name, field) /\
    broken_options name = Some None /\
    forall (j : nat) name' field',
      reward_options !! j = Some (name', field') ->
      if bool_decide (j < k)%nat
      then overridden broken_options name' (field' default_rewards)
             (field' (mkRewards (Qmake (-2) 1) (obstacles default_rewards)
                        (goal_reward default_rewards)
                        (out_of_bounds default_rewards)
                        (battery_depleted default_rewards)))
      else field' (mkRewards (Qmake (-2) 1) (obstacles default_rewards)
                     (goal_reward default_rewards)
                     (out_of_bounds default_rewards)
                     (battery_depleted default_rewards))
           = field' default_rewards.
Proof.
  split; [exact broken_config_read|].
  exact (proj2 (proj2 (read_reward_config_failure two_neighbours
                         broken_config _ _ broken_config_read))).
Defined.



